(** * ai-news-collector: a shallow embedding of the pipeline

    The pipeline is  fetch_all -> deduplicate -> process_all ->
    sort_by_hot_score -> generate_report  (scripts/main.py).  Articles and
    sources are Python dicts; they are modelled as finite maps from key
    to Python value.  Code that may raise returns [option] ([None] is an
    uncaught exception, or a value the model does not cover; each
    definition says which).  The classifier mutates the article objects
    in place, so it runs over a store of objects addressed by reference. *)

From Stdlib Require Import ZArith QArith Qcanon Qpower Qfield SpecFloat.
From stdpp Require Import base numbers option list sets gmap strings sorting.

Set Warnings "-register-all".
Set Default Proof Using "Type".

(* ================================================================== *)
(** * Python values *)
(* ================================================================== *)

(** A [str] is a sequence of Unicode code points: slicing and [strip]
    count code points, not bytes. *)
Definition pystr := list N.

(** Literals of the source that are plain ASCII. *)
Definition pystr_of (s : string) : pystr :=
  (λ c, Ascii.N_of_ascii c) <$> String.list_ascii_of_string s.

(** The values found in an article and in a decoded JSON reply.
    Dictionary keys are kept as byte strings (the UTF-8 form of the
    Python key); every key the program itself uses is an ASCII literal. *)
Inductive pyval : Type :=
  | VNone
  | VBool (b : bool)
  | VInt (z : Z)
  | VFloat (f : spec_float)
  | VStr (s : pystr)
  | VList (l : list pyval)
  | VDict (d : gmap string pyval)
  | VDatetime (t : Z).

Abbreviation pydict := (gmap string pyval).
Abbreviation Article := (gmap string pyval).
Abbreviation Source := (gmap string pyval).

(** [bool(v)]. *)
Definition py_truthy (v : pyval) : bool :=
  match v with
  | VNone => false
  | VBool b => b
  | VInt z => negb (z =? 0)%Z
  | VFloat (S754_zero _) => false
  | VFloat _ => true
  | VStr s => negb (bool_decide (s = []))
  | VList l => match l with [] => false | _ => true end
  | VDict d => negb (bool_decide (size d = 0))
  | VDatetime _ => true
  end.

(** [v[:n]]: defined on sequences; [None] is the TypeError of every
    other value. *)
Definition py_slice_to (n : nat) (v : pyval) : option pyval :=
  match v with
  | VStr s => Some (VStr (take n s))
  | VList l => Some (VList (take n l))
  | _ => None
  end.

(** [int(f)] on a float: truncation toward zero; infinities and NaN
    raise. *)
Definition int_of_float (f : spec_float) : option Z :=
  match f with
  | S754_zero _ => Some 0%Z
  | S754_infinity _ => None
  | S754_nan => None
  | S754_finite s m e =>
      let mag := Z.shiftl (Z.pos m) e in
      Some (if s then (- mag)%Z else mag)
  end.

(** [a / b] on two [int]s.  Python gives the quotient as a float: the
    binary64 number nearest to it, the even one on a tie, which is what
    [SFdiv] of the Standard Library computes from the two integers
    taken as mantissas with exponent 0.  [None]: ZeroDivisionError, and
    the OverflowError of a quotient too large for a float. *)
Definition py_true_divide (a b : Z) : option spec_float :=
  match b with
  | Z0 => None
  | _ =>
      match a with
      | Z0 => Some (S754_zero (b <? 0)%Z)
      | _ =>
          match SFdiv 53 1024
                  (S754_finite (a <? 0)%Z (Z.to_pos (Z.abs a)) 0)
                  (S754_finite (b <? 0)%Z (Z.to_pos (Z.abs b)) 0) with
          | S754_infinity _ => None
          | f => Some f
          end
      end
  end.

(** What a request to the classification service comes to, seen from
    [_analyze_article]: [Failed] when anything raises before the text of
    the completion is in hand (transport error, status that is not 2xx,
    body that is not the expected JSON), [Content text] with the value
    found at [result['choices'][0]['message']['content']] otherwise. *)
Inductive http_reply : Type :=
  | Failed
  | Content (text : pyval).

(** What the request for a feed comes to, seen from [fetch_feed]:
    [TransportError] for every exception of the request or of the feed
    parser, [Feed entries] with the entries of the parsed feed. *)
Inductive feed_reply (Entry : Type) : Type :=
  | TransportError
  | Feed (entries : list Entry).
Arguments TransportError {Entry}.
Arguments Feed {Entry} entries.

(** The builtins and the world outside the program.  [json_loads] is
    [json.loads] ([None]: JSONDecodeError); [int_of_str] is [int] on a
    [str] ([None]: ValueError); [post n] is what the n-th request to the
    classification service yields; [http_get i] is what the request for
    the i-th source yields.  [_parse_entry], which turns one entry of
    the feed library into an article or skips it, is kept abstract with
    the type of the entries. *)
Class Externals := {
  json_loads : pystr → option pyval;
  int_of_str : pystr → option Z;
  post : nat → http_reply;
  Entry : Type;
  http_get : nat → feed_reply Entry;
  _parse_entry : Entry → Source → option Article
}.

(** [int(v)]. *)
Definition py_int `{Externals} (v : pyval) : option Z :=
  match v with
  | VInt z => Some z
  | VBool b => Some (if b then 1 else 0)%Z
  | VFloat f => int_of_float f
  | VStr s => int_of_str s
  | _ => None
  end.

(* ------------------------------------------------------------------ *)
(** ** str methods used by the classifier *)

(** [c.isspace()] for one code point (CPython's whitespace table). *)
Definition is_space (c : N) : bool :=
  ((9 <=? c) && (c <=? 13) || (28 <=? c) && (c <=? 32)
   || (c =? 133) || (c =? 160) || (c =? 5760)
   || (8192 <=? c) && (c <=? 8202)
   || (c =? 8232) || (c =? 8233) || (c =? 8239) || (c =? 8287)
   || (c =? 12288))%N.

Fixpoint lstrip (s : pystr) : pystr :=
  match s with
  | c :: s' => if is_space c then lstrip s' else s
  | [] => []
  end.

Definition rstrip (s : pystr) : pystr := reverse (lstrip (reverse s)).

Definition strip (s : pystr) : pystr := rstrip (lstrip s).

Fixpoint startswith (s p : pystr) : bool :=
  match p, s with
  | [], _ => true
  | c :: p', d :: s' => bool_decide (c = d) && startswith s' p'
  | _ :: _, [] => false
  end.

Definition endswith (s p : pystr) : bool :=
  startswith (reverse s) (reverse p).

Definition fence_json : pystr := pystr_of "```json".
Definition fence : pystr := pystr_of "```".

(* ================================================================== *)
(** * fetch_rss.py *)
(* ================================================================== *)

Module RSSFetcher.

(** [fetch_feed]: [source['url']] and [source['name']] are read before
    the [try] ([None]: KeyError).  Inside the [try] every failure of the
    request is caught and leaves [articles] empty; a reply is parsed
    entry by entry, entries for which [_parse_entry] gives nothing are
    skipped. *)
Definition fetch_feed `{Externals} (i : nat) (source : Source)
  : option (list Article) :=
  _ ← source !! "url";
  _ ← source !! "name";
  Some (match http_get i with
        | TransportError => []
        | Feed entries => omap (λ e, _parse_entry e source) entries
        end).

(** [fetch_all]: the loop over [enumerate(self.sources)], extending
    [all_articles] by each source's articles. *)
Fixpoint fetch_all_loop `{Externals} (i : nat) (sources : list Source)
  (all_articles : list Article) : option (list Article) :=
  match sources with
  | [] => Some all_articles
  | source :: rest =>
      articles ← fetch_feed i source;
      fetch_all_loop (S i) rest (all_articles ++ articles)
  end.

Definition fetch_all `{Externals} (sources : list Source)
  : option (list Article) :=
  fetch_all_loop 0 sources [].

(** The key of [deduplicate]: [(article['title'], article['link'])].
    [None] is the KeyError of a missing field; the model covers titles
    and links that are [str], as the fetcher produces them. *)
Definition article_key (article : Article) : option (pystr * pystr) :=
  title ← article !! "title";
  link ← article !! "link";
  match title, link with
  | VStr t, VStr l => Some (t, l)
  | _, _ => None
  end.

Fixpoint deduplicate_loop (articles : list Article)
  (seen : gset (pystr * pystr)) (unique_articles : list Article)
  : option (list Article) :=
  match articles with
  | [] => Some unique_articles
  | article :: rest =>
      key ← article_key article;
      if decide (key ∈ seen)
      then deduplicate_loop rest seen unique_articles
      else deduplicate_loop rest ({[key]} ∪ seen) (unique_articles ++ [article])
  end.

Definition deduplicate (articles : list Article) : option (list Article) :=
  deduplicate_loop articles ∅ [].

End RSSFetcher.

(* ================================================================== *)
(** * ai_processor.py *)
(* ================================================================== *)

Module AIProcessor.

(** '行业动态', the category used when none is given. *)
Definition fallback_category : pystr := [34892; 19994; 21160; 24577]%N.

(** 'AI不可用', the reasoning of the default analysis. *)
Definition unavailable_marker : pystr := [65; 73; 19981; 21487; 29992]%N.

(** [self.batch_size], set once in [__init__]. *)
Definition batch_size : nat := 5.

(** The processor object: [self.api_key] after [__init__]
    ([api_key or os.getenv(...)]). *)
Record processor := { api_key : option pystr }.

Definition init (api_key env_key : option pystr) : processor :=
  {| api_key := match api_key with
                | Some (_ :: _) => api_key
                | _ => env_key
                end |}.

(** [not self.api_key]. *)
Definition no_api_key (self : processor) : bool :=
  match api_key self with
  | Some (_ :: _) => false
  | _ => true
  end.

(* ------------------------------------------------------------------ *)
(** ** The store and the monad of the classifier *)

(** Article objects live in a store and the lists hold references to
    them, so that [article.update] is seen through every reference.
    [calls] counts the requests sent to the classification service. *)
Definition loc := nat.

Record World := { heap : loc → Article; calls : nat }.

(** State and exceptions: [None] is an uncaught exception. *)
Definition M (A : Type) : Type := World → option (A * World).

Definition ret {A} (x : A) : M A := λ w, Some (x, w).

Definition bind {A B} (m : M A) (k : A → M B) : M B :=
  λ w, match m w with
       | Some (x, w') => k x w'
       | None => None
       end.

Definition lift {A} (o : option A) : M A :=
  λ w, match o with
       | Some x => Some (x, w)
       | None => None
       end.

Definition read (r : loc) : M Article := λ w, Some (heap w r, w).

(** [article.update(analysis)] on the object at [r]. *)
Definition update (r : loc) (analysis : pydict) : M unit :=
  λ w, Some ((), {| heap := λ r', if decide (r' = r)
                                   then analysis ∪ heap w r
                                   else heap w r';
                    calls := calls w |}).

(** [requests.post(...)] up to [...['content']]: one more call made. *)
Definition request `{Externals} : M http_reply :=
  λ w, Some (post (calls w), {| heap := heap w; calls := S (calls w) |}).

Declare Scope M_scope.
Delimit Scope M_scope with M.
Notation "'let*' x ':=' m 'in' k" := (bind m (λ x, k))
  (at level 10, x binder, m at level 100, k at level 200) : M_scope.
Notation "'run' m 'then' k" := (bind m (λ _, k))
  (at level 10, m at level 100, k at level 200) : M_scope.
Open Scope M_scope.

(* ------------------------------------------------------------------ *)
(** ** Analysis of one article *)

(** [_create_analysis_prompt]: the prompt is a text built from the
    title, the source and [content[:2000]]; the model keeps these three
    values.  [None]: KeyError of a missing field, TypeError of a content
    that cannot be sliced. *)
Definition _create_analysis_prompt (article : Article)
  : option (pyval * pyval * pyval) :=
  title ← article !! "title";
  source ← article !! "source";
  content ← article !! "content";
  body ← py_slice_to 2000 content;
  Some (title, source, body).

(** [_get_default_analysis].  [None]: KeyError of a missing summary,
    TypeError of truthy tags that cannot be sliced. *)
Definition _get_default_analysis (article : Article) : option pydict :=
  summary ← article !! "summary";
  keywords ← (if py_truthy (default VNone (article !! "tags"))
              then py_slice_to 3 (default (VList []) (article !! "tags"))
              else Some (VList []));
  Some (<["category" := VStr fallback_category]>
        (<["summary" := summary]>
        (<["hot_score" := VInt 50]>
        (<["keywords" := keywords]>
        (<["reasoning" := VStr unavailable_marker]> ∅))))).

(** Lines 89-95: the markdown fence is removed from the stripped reply
    by three successive tests. *)
Definition clean_reply (result_text : pystr) : pystr :=
  let result_text :=
    if startswith result_text fence_json then drop 7 result_text
    else result_text in
  let result_text :=
    if startswith result_text fence then drop 3 result_text
    else result_text in
  let result_text :=
    if endswith result_text fence
    then take (length result_text - 3) result_text
    else result_text in
  strip result_text.

(** Lines 100-106: the analysis built from the decoded reply.  [None]:
    an exception ([result] has no [get], the article has no summary or
    one that cannot be sliced, [int] fails, the keywords cannot be
    sliced). *)
Definition build_analysis `{Externals} (result : pyval) (article : Article)
  : option pydict :=
  match result with
  | VDict d =>
      own_summary ← article !! "summary";
      short_summary ← py_slice_to 100 own_summary;
      score ← py_int (default (VInt 50) (d !! "hot_score"));
      keywords ← py_slice_to 5 (default (VList []) (d !! "keywords"));
      Some (<["category" := default (VStr fallback_category) (d !! "category")]>
            (<["summary" := default short_summary (d !! "summary")]>
            (<["hot_score" := VInt (Z.min 100 (Z.max 0 score))]>
            (<["keywords" := keywords]>
            (<["reasoning" := default (VStr []) (d !! "reasoning")]> ∅)))))
  | _ => None
  end.

(** Lines 84-108, from the text of the reply to the analysis; [None]
    stands for both handlers, which return the default analysis. *)
Definition parse_reply `{Externals} (text : pyval) (article : Article)
  : option pydict :=
  match text with
  | VStr s =>
      result ← json_loads (clean_reply (strip s));
      build_analysis result article
  | _ => None
  end.

(** The body of the [try] of [_analyze_article]; [None] as a result
    means that an exception reached a handler. *)
Definition try_analysis `{Externals} (article : Article) : M (option pydict) :=
  match _create_analysis_prompt article with
  | None => ret None
  | Some _ =>
      let* reply := request in
      match reply with
      | Failed => ret None
      | Content text => ret (parse_reply text article)
      end
  end.

Definition _analyze_article `{Externals} (self : processor) (article : Article)
  : M pydict :=
  if no_api_key self then lift (_get_default_analysis article)
  else
    let* attempt := try_analysis article in
    match attempt with
    | Some analysis => ret analysis
    | None => lift (_get_default_analysis article)
    end.

(* ------------------------------------------------------------------ *)
(** ** Batches *)

(** [process_batch]: the log line reads [article['title'][:50]] before
    the analysis (KeyError or TypeError outside any [try]). *)
Fixpoint process_batch_loop `{Externals} (self : processor)
  (articles processed : list loc) : M (list loc) :=
  match articles with
  | [] => ret processed
  | r :: rest =>
      let* article := read r in
      run lift (article !! "title" ≫= py_slice_to 50) then
      let* analysis := _analyze_article self article in
      run update r analysis then
      process_batch_loop self rest (processed ++ [r])
  end.

Definition process_batch `{Externals} (self : processor)
  (articles : list loc) : M (list loc) :=
  process_batch_loop self articles [].

(** [range(0, stop, step)] for a positive step. *)
Definition py_range_step (stop step : nat) : list nat :=
  (λ k, k * step) <$> seq 0 ((stop + step - 1) `div` step).

(** The branch of [process_all] without a key. *)
Fixpoint default_loop (articles : list loc) : M unit :=
  match articles with
  | [] => ret ()
  | r :: rest =>
      let* article := read r in
      let* analysis := lift (_get_default_analysis article) in
      run update r analysis then
      default_loop rest
  end.

(** The loop of [process_all] over the batch starts. *)
Fixpoint batches_loop `{Externals} (self : processor) (starts : list nat)
  (articles all_processed : list loc) : M (list loc) :=
  match starts with
  | [] => ret all_processed
  | i :: rest =>
      let batch := take batch_size (drop i articles) in
      let* processed := process_batch self batch in
      batches_loop self rest articles (all_processed ++ processed)
  end.

Definition process_all `{Externals} (self : processor) (articles : list loc)
  : M (list loc) :=
  if no_api_key self then
    run default_loop articles then
    ret articles
  else
    batches_loop self (py_range_step (length articles) batch_size) articles [].

Close Scope M_scope.

(* ------------------------------------------------------------------ *)
(** ** Filtering and sorting by score *)

(** [a.get('hot_score', 0)] as a number.  The model covers the scores
    the classifier stores, which are [int] ([bool] is an [int] in
    Python); [None] is any other value. *)
Definition hot_score_of (a : Article) : option Z :=
  match a !! "hot_score" with
  | None => Some 0%Z
  | Some (VInt z) => Some z
  | Some (VBool b) => Some (if b then 1 else 0)%Z
  | Some _ => None
  end.

(** The list comprehension of [filter_by_hot_score]; it reads the
    articles and returns a new list of the same objects. *)
Fixpoint filter_by_hot_score (articles : list Article) (threshold : Z)
  : option (list Article) :=
  match articles with
  | [] => Some []
  | a :: rest =>
      score ← hot_score_of a;
      filtered ← filter_by_hot_score rest threshold;
      Some (if bool_decide (threshold ≤ score)%Z then a :: filtered
            else filtered)
  end.

(** [sorted(l, key=..., reverse=...)] and [list.sort]: Python computes
    the keys first and then sorts stably, also when [reverse] is set.
    It is modelled by an insertion sort on the keyed elements that
    places an element before the first one it does not have to follow. *)
Definition goes_before (reverse : bool) (k1 k2 : Z) : bool :=
  if reverse then bool_decide (k2 ≤ k1)%Z else bool_decide (k1 ≤ k2)%Z.

Fixpoint insert_keyed {A} (reverse : bool) (x : Z * A) (l : list (Z * A))
  : list (Z * A) :=
  match l with
  | [] => [x]
  | y :: l' =>
      if goes_before reverse x.1 y.1 then x :: y :: l'
      else y :: insert_keyed reverse x l'
  end.

Fixpoint sort_keyed {A} (reverse : bool) (l : list (Z * A)) : list (Z * A) :=
  match l with
  | [] => []
  | x :: l' => insert_keyed reverse x (sort_keyed reverse l')
  end.

Definition with_key (a : Article) : option (Z * Article) :=
  k ← hot_score_of a; Some (k, a).

Definition sort_by_hot_score (articles : list Article) (reverse : bool)
  : option (list Article) :=
  keyed ← mapM with_key articles;
  Some ((sort_keyed reverse keyed).*2).

End AIProcessor.

(* ================================================================== *)
(** * report_generator.py *)
(* ================================================================== *)

Module ReportGenerator.

Import AIProcessor.

(** ['重大新闻', '行业动态', '产品发布', '技术干货', '观点评论']. *)
Definition category_order : list pystr :=
  [ [37325; 22823; 26032; 38395]%N;
    [34892; 19994; 21160; 24577]%N;
    [20135; 21697; 21457; 24067]%N;
    [25216; 26415; 24178; 36135]%N;
    [35266; 28857; 35780; 35770]%N ].

(** [article.get('category', '行业动态')].  The dict of buckets is keyed
    by it; the model covers categories that are [str] ([None]: any other
    value, among them the unhashable ones, which raise). *)
Definition category_of (article : Article) : option pystr :=
  match article !! "category" with
  | None => Some fallback_category
  | Some (VStr c) => Some c
  | Some _ => None
  end.

(** [a.get('source', '')], on the same terms. *)
Definition source_of (a : Article) : option pystr :=
  match a !! "source" with
  | None => Some []
  | Some (VStr s) => Some s
  | Some _ => None
  end.

(** The dict [categories] keeps its keys in insertion order: a list of
    buckets with distinct names. *)
Abbreviation buckets := (list (pystr * list Article)).

(** [if cat not in categories: categories[cat] = []]. *)
Definition add_bucket (cat : pystr) (categories : buckets) : buckets :=
  if bool_decide (cat ∈ categories.*1) then categories
  else categories ++ [(cat, [])].

(** [categories[cat].append(article)]. *)
Definition append_to_bucket (cat : pystr) (article : Article)
  (categories : buckets) : buckets :=
  (λ b, if bool_decide (b.1 = cat) then (b.1, b.2 ++ [article]) else b)
    <$> categories.

Fixpoint group_loop (articles : list Article) (categories : buckets)
  : option buckets :=
  match articles with
  | [] => Some categories
  | article :: rest =>
      cat ← category_of article;
      group_loop rest (append_to_bucket cat article (add_bucket cat categories))
  end.

(** [categories[cat].sort(key=..., reverse=True)] for every bucket. *)
Definition sort_buckets (categories : buckets) : option buckets :=
  mapM (λ b, sorted ← sort_by_hot_score b.2 true; Some (b.1, sorted))
       categories.

(** What [generate_report] hands to the template.  The average is a
    float, or the [int] 0 of an empty list. *)
Record report := {
  categories : buckets;
  total_articles : nat;
  avg_hot_score : pyval;
  total_sources : nat;
  total_categories : nat
}.

(** [sum(...) / total_articles if articles else 0]: the sum of [int]s
    is exact, the division is the true division of two [int]s. *)
Definition average (articles : list Article) : option pyval :=
  match articles with
  | [] => Some (VInt 0)
  | _ =>
      scores ← mapM hot_score_of articles;
      VFloat <$> py_true_divide (foldr Z.add 0%Z scores)
                                (Z.of_nat (length articles))
  end.

(** [len(set(a.get('source', '') for a in articles))]. *)
Definition count_sources (articles : list Article) : option nat :=
  names ← mapM source_of articles;
  Some (size (list_to_set names : gset pystr)).

(** [len([c for c in categories.values() if c])]. *)
Definition count_categories (categories : buckets) : nat :=
  length (filter (λ b, b.2 ≠ []) categories).

(** [generate_report] up to the call of the template. *)
Definition generate_report (articles : list Article) : option report :=
  grouped ← group_loop articles ((λ cat, (cat, [])) <$> category_order);
  sorted ← sort_buckets grouped;
  avg ← average articles;
  sources ← count_sources articles;
  Some {| categories := sorted;
          total_articles := length articles;
          avg_hot_score := avg;
          total_sources := sources;
          total_categories := count_categories sorted |}.

End ReportGenerator.

(* ================================================================== *)
(** * Vocabulary of the statements *)
(* ================================================================== *)

(** Position [i] holds the first occurrence of its key. *)
Definition first_occurrence {K} (keys : list K) (i : nat) : Prop :=
  i < length keys ∧ ∀ j, j < i → keys !! j ≠ keys !! i.

(** [sub] is what [l] holds at the increasing positions [idx]. *)
Definition selects {A} (l : list A) (idx : list nat) (sub : list A) : Prop :=
  StronglySorted lt idx ∧ Forall2 (λ i a, l !! i = Some a) idx sub.

(** Every article has a title and a link that are [str]. *)
Definition keyed (articles : list Article) : bool :=
  forallb (λ a, bool_decide (is_Some (RSSFetcher.article_key a))) articles.

(** Every source has a url and a name. *)
Definition described (sources : list Source) : bool :=
  forallb (λ s : Source, bool_decide (is_Some (s !! "url"))
                         && bool_decide (is_Some (s !! "name"))) sources.

(** [a.get('hot_score', 0)] where it is a number. *)
Definition score (a : Article) : Z := default 0%Z (AIProcessor.hot_score_of a).

(** Every article has an [int] score or none. *)
Definition scored (articles : list Article) : bool :=
  forallb (λ a, bool_decide (is_Some (AIProcessor.hot_score_of a))) articles.

(** The order a sort leaves between two neighbours. *)
Definition in_order (reverse : bool) (k1 k2 : Z) : Prop :=
  if reverse then (k2 ≤ k1)%Z else (k1 ≤ k2)%Z.

(** Every article has a category that is a [str] or none, and the same
    for its source. *)
Definition categorized (articles : list Article) : bool :=
  forallb (λ a, bool_decide (is_Some (ReportGenerator.category_of a)))
          articles.

Definition sourced (articles : list Article) : bool :=
  forallb (λ a, bool_decide (is_Some (ReportGenerator.source_of a))) articles.

(** The articles a report can be made of. *)
Definition reportable (articles : list Article) : bool :=
  categorized articles && scored articles && sourced articles.

(** The number of articles held by the buckets. *)
Definition bucket_sizes (categories : ReportGenerator.buckets) : nat :=
  sum_list ((λ b, length b.2) <$> categories).

(** The keys written by the classifier. *)
Definition analysis_keys : list string :=
  ["category"; "summary"; "hot_score"; "keywords"; "reasoning"].

(** The keys written by the fetcher, [summary] apart. *)
Definition fetched_keys : list string :=
  ["title"; "link"; "content"; "published"; "source"; "source_category";
   "language"; "authors"; "tags"].

(** The score held by an article is an [int] between 0 and 100. *)
Definition score_in_range (a : pydict) : Prop :=
  ∃ z, a !! "hot_score" = Some (VInt z) ∧ (0 ≤ z ≤ 100)%Z.

(** The tags are a list or missing, as the fetcher leaves them. *)
Definition has_list_tags (a : Article) : bool :=
  match a !! "tags" with
  | None | Some (VList _) => true
  | Some _ => false
  end.

(** The article has a summary, and tags that are a list or missing:
    what [_get_default_analysis] reads. *)
Definition summarized (a : Article) : bool :=
  bool_decide (is_Some (a !! "summary")) && has_list_tags a.

(** Moreover its title is a [str]: what [process_batch] reads. *)
Definition fetched (a : Article) : bool :=
  summarized a && match a !! "title" with
                  | Some (VStr _) => true
                  | _ => false
                  end.

(** The first three tags of an article, none when it has no tags. *)
Definition first_tags (a : Article) : pyval :=
  VList (match a !! "tags" with
         | Some (VList l) => take 3 l
         | _ => []
         end).

(** What a run of the classifier may change in the store: no field
    but those of the analysis; a summary stays, a score in range stays
    in range. *)
Definition evolves (w w' : AIProcessor.World) : Prop :=
  ∀ r,
    (∀ k, k ∉ analysis_keys →
          AIProcessor.heap w' r !! k = AIProcessor.heap w r !! k) ∧
    (is_Some (AIProcessor.heap w r !! "summary") →
     is_Some (AIProcessor.heap w' r !! "summary")) ∧
    (score_in_range (AIProcessor.heap w r) →
     score_in_range (AIProcessor.heap w' r)).

(** The article after [article.update(self._get_default_analysis(article))]. *)
Definition with_default (a : Article) : Article :=
  match AIProcessor._get_default_analysis a with
  | Some analysis => analysis ∪ a
  | None => a
  end.

(** A text made of whitespace only. *)
Definition spaces (ws : pystr) : bool := forallb is_space ws.

(** The text of a JSON object: it opens with a brace and ends with the
    closing one. *)
Definition is_object_text (j : pystr) : bool :=
  match j with
  | 123%N :: rest =>
      match last rest with
      | Some 125%N => true
      | _ => false
      end
  | _ => false
  end.

(** The state of the loop of [deduplicate] after the articles [pre]:
    [seen] holds their keys and [unique] their first occurrences. *)
Definition dedup_inv (pre : list Article) (seen : gset (pystr * pystr))
  (unique : list Article) (idx : list nat) : Prop :=
  (∀ k, k ∈ seen ↔ Some k ∈ RSSFetcher.article_key <$> pre) ∧
  selects pre idx unique ∧
  (∀ i, i ∈ idx ↔ first_occurrence (RSSFetcher.article_key <$> pre) i) ∧
  NoDup (RSSFetcher.article_key <$> unique) ∧
  length unique ≤ length pre.

(** One turn of the grouping loop of [generate_report]. *)
Definition group_step (c : pystr) (a : Article)
  (cats : ReportGenerator.buckets) : ReportGenerator.buckets :=
  ReportGenerator.append_to_bucket c a (ReportGenerator.add_bucket c cats).

(** What sorting does to one bucket. *)
Definition bucket_sorted (g s : pystr * list Article) : Prop :=
  s.1 = g.1 ∧ s.2 ≡ₚ g.2 ∧
  StronglySorted (λ a1 a2, (score a2 ≤ score a1)%Z) s.2.

(** What every analysis is: five fields, with a score in range. *)
Definition well_formed_analysis (an : pydict) : Prop :=
  (∀ k, k ∉ analysis_keys → an !! k = None) ∧
  is_Some (an !! "summary") ∧
  score_in_range an.

(** The reading of the specification by which a field missing from the
    reply takes the value it has in the default analysis. *)
Definition missing_fields_take_fallback_defaults : Prop :=
  ∀ (E : Externals) (d : pydict) (a : Article) (an fallback : pydict)
    (k : string),
    AIProcessor.build_analysis (VDict d) a = Some an →
    AIProcessor._get_default_analysis a = Some fallback →
    k ∈ analysis_keys → d !! k = None →
    an !! k = fallback !! k.

(* ================================================================== *)
(** * Sample data *)
(* ================================================================== *)

Module Samples.
Import AIProcessor.

(** A stand-in for [int] on a [str]: an optional minus sign and ASCII
    decimal digits, with whitespace around. *)
Fixpoint digits (s : pystr) (acc : Z) : option Z :=
  match s with
  | [] => Some acc
  | c :: s' =>
      if ((48 <=? c) && (c <=? 57))%N
      then digits s' (10 * acc + Z.of_N (c - 48))%Z
      else None
  end.

Definition decimal (s : pystr) : option Z :=
  match strip s with
  | [] => None
  | 45%N :: d :: ds => Z.opp <$> digits (d :: ds) 0
  | ds => digits ds 0
  end.

(** Two reply texts and what they decode to. *)
Definition quote : pystr := [34%N].

Definition reply_empty : pystr := pystr_of "{}".

Definition reply_scored : pystr :=
  pystr_of "{" ++ quote ++ pystr_of "hot_score" ++ quote ++ pystr_of ": 150, "
  ++ quote ++ pystr_of "keywords" ++ quote ++ pystr_of ": [1, 2, 3, 4, 5, 6]}".

Definition decoded_scored : pydict :=
  <["hot_score" := VInt 150]>
  (<["keywords" := VList [VInt 1; VInt 2; VInt 3; VInt 4; VInt 5; VInt 6]]> ∅).

Definition decode (s : pystr) : option pyval :=
  if bool_decide (s = reply_empty) then Some (VDict ∅)
  else if bool_decide (s = reply_scored) then Some (VDict decoded_scored)
  else None.

(** The first reply is fenced, the second request fails, the others get
    the empty object. *)
Definition fenced_scored : pystr :=
  fence_json ++ [10%N] ++ reply_scored ++ [10%N] ++ fence.

Definition service (n : nat) : http_reply :=
  match n with
  | 0 => Content (VStr fenced_scored)
  | 1 => Failed
  | _ => Content (VStr reply_empty)
  end.

Definition entry_article (title : pystr) (source : Source) : option Article :=
  Some (<["title" := VStr title]>
        (<["link" := VStr title]>
        (<["summary" := VStr title]>
        (<["source" := default (VStr []) (source !! "name")]> ∅)))).

(** The first source cannot be reached, the others serve two entries. *)
Definition feeds (i : nat) : feed_reply pystr :=
  match i with
  | 0 => TransportError
  | _ => Feed [pystr_of "first"; pystr_of "second"]
  end.

Definition externals : Externals :=
  {| json_loads := decode;
     int_of_str := decimal;
     post := service;
     Entry := pystr;
     http_get := feeds;
     _parse_entry := entry_article |}.

Definition source (name : string) : Source :=
  <["name" := VStr (pystr_of name)]>
  (<["url" := VStr (pystr_of "https://example.com/feed")]> ∅).

Definition sources : list Source := [source "one"; source "two"; source "three"].

Definition article (title link : string) (tags : list pyval) : Article :=
  <["title" := VStr (pystr_of title)]>
  (<["link" := VStr (pystr_of link)]>
  (<["content" := VStr (pystr_of "text")]>
  (<["summary" := VStr (pystr_of "text")]>
  (<["source" := VStr (pystr_of "one")]>
  (<["tags" := VList tags]> ∅))))).

Definition tag (s : string) : pyval := VStr (pystr_of s).

Definition article_a : Article :=
  article "a" "https://example.com/a" [tag "t1"; tag "t2"; tag "t3"; tag "t4"].
Definition article_b : Article := article "b" "https://example.com/b" [].
Definition article_c : Article := delete "tags" (article "c" "https://example.com/c" []).

(** The second and the fourth are repetitions. *)
Definition fetched_articles : list Article :=
  [article_a; article_a; article_b; article_a; article_c].

Definition rated (z : Z) (category : string) (a : Article) : Article :=
  <["hot_score" := VInt z]> (<["category" := VStr (pystr_of category)]> a).

Definition rated_articles : list Article :=
  [rated 50 "x" article_a; rated 70 "y" article_b; article_c;
   rated 50 "x" article_b; <["hot_score" := VInt 70]> article_a].

(** The store holds three articles; the list names the first twice. *)
Definition store : World :=
  {| heap := λ r, match r with
                  | 0 => article_a
                  | 1 => article_b
                  | _ => article_c
                  end;
     calls := 0 |}.

Definition references : list loc := [0; 1; 0; 2; 1; 2; 0].

Definition with_key : processor := init (Some (pystr_of "sk-test")) None.
Definition without_key : processor := init (Some []) None.

End Samples.

(* ================================================================== *)
(** * The rest of the fetcher, and the main program *)
(* ================================================================== *)

(** [a or b]. *)
Definition py_or (a b : pyval) : pyval := if py_truthy a then a else b.

(** [v[0]].  [None]: IndexError on an empty sequence, KeyError on a
    dict (its keys are [str]), TypeError on any other value. *)
Definition py_first (v : pyval) : option pyval :=
  match v with
  | VList (x :: _) => Some x
  | VStr (c :: _) => Some (VStr [c])
  | _ => None
  end.

(** The elements of [v] for a comprehension that calls [get] or reads
    an attribute on each of them: they have to be dicts.  [None]: the
    TypeError of a value that cannot be iterated, the AttributeError of
    an element that is not a dict (among them the characters of a [str]
    and the keys of a dict). *)
Definition records_of (v : pyval) : option (list pydict) :=
  match v with
  | VList l => mapM (λ x, match x with VDict d => Some d | _ => None end) l
  | VStr [] => Some []
  | VDict d => if bool_decide (size d = 0) then Some [] else None
  | _ => None
  end.

(* ------------------------------------------------------------------ *)
(** ** fetch_rss.py: the sources *)

Module RSSSources.

(** What [open] and the reading of the file come to. *)
Inductive file_outcome : Type :=
  | NotFound
  | Unreadable
  | FileText (text : pystr).

(** '科技媒体' and 'zh'. *)
Definition tech_media : pystr := [31185; 25216; 23186; 20307]%N.
Definition zh : pystr := [122; 104]%N.

Definition default_source (name url : pystr) : Source :=
  <["name" := VStr name]>
  (<["url" := VStr url]>
  (<["category" := VStr tech_media]>
  (<["enabled" := VBool true]>
  (<["language" := VStr zh]> ∅)))).

(** The sources '36氪', '虎嗅网' and '少数派'. *)
Definition _get_default_sources : list Source :=
  [ default_source [51; 54; 27690]%N (pystr_of "https://36kr.com/feed");
    default_source [34382; 21957; 32593]%N
                   (pystr_of "https://www.huxiu.com/rss/0.xml");
    default_source [23569; 25968; 27966]%N (pystr_of "https://sspai.com/feed") ].

(** [s.get('enabled', True)] as a condition. *)
Definition enabled (s : pydict) : bool :=
  py_truthy (default (VBool true) (s !! "enabled")).

(** [_load_sources].  Only the missing file and the text that does not
    decode are caught; [None] is any other exception: a file that cannot
    be read, a config that is not a dict, sources that are not dicts. *)
Definition _load_sources `{Externals} (file : file_outcome)
  : option (list Source) :=
  match file with
  | NotFound => Some _get_default_sources
  | Unreadable => None
  | FileText text =>
      match json_loads text with
      | None => Some _get_default_sources
      | Some (VDict config) =>
          sources ← records_of (default (VList []) (config !! "sources"));
          Some (filter (λ s, enabled s = true) sources)
      | Some _ => None
      end
  end.

End RSSSources.

(* ------------------------------------------------------------------ *)
(** ** fetch_rss.py: one entry of a feed *)

Module FeedEntry.

(** The feed library and the other libraries [_parse_entry] calls.
    [entry_get e k] is [e.get(k)] where the entry has a value for [k];
    [entry_attr e k] is the attribute [e.k], [None] when [hasattr] is
    false; [soup_text] is the text that BeautifulSoup extracts ([None]:
    it raises); [datetime_utc] builds the UTC datetime from the first six
    fields of [published] ([None]: it raises); [now_utc e] is the time
    read for [e]. *)
Class FeedLibrary := {
  entry : Type;
  entry_get : entry → string → option pyval;
  entry_attr : entry → string → option pyval;
  soup_text : pyval → option pystr;
  datetime_utc : pyval → option pyval;
  now_utc : entry → pyval
}.

Definition no_title : pystr := pystr_of "No Title".
Definition other : pystr := pystr_of "Other".
Definition en : pystr := pystr_of "en".

(** [_parse_entry]: every exception is caught and the entry skipped
    ([None]). *)
Definition _parse_entry `{FeedLibrary} (e : entry) (source : Source)
  : option Article :=
  pub_date ← match entry_get e "published_parsed" with
             | Some published =>
                 if py_truthy published then datetime_utc published
                 else Some (now_utc e)
             | None => Some (now_utc e)
             end;
  first ← py_first (default (VList [VDict ∅]) (entry_get e "content"));
  value ← match first with
          | VDict d => Some (default VNone (d !! "value"))
          | _ => None
          end;
  let content :=
    py_or value
          (py_or (default (VStr []) (entry_get e "description"))
                 (default (VStr []) (entry_get e "summary"))) in
  content ← (if py_truthy content then VStr <$> soup_text content
             else Some content);
  authors ← match entry_attr e "author" with
            | Some author => Some [author]
            | None =>
                match entry_attr e "authors" with
                | Some authors =>
                    fmap (λ author, default (VStr []) (author !! "name"))
                      <$> records_of authors
                | None => Some []
                end
            end;
  long ← py_slice_to 5000 content;
  short ← py_slice_to 300 content;
  name ← source !! "name";
  tags ← records_of (default (VList []) (entry_get e "tags"))
         ≫= mapM (λ tag, tag !! "term");
  Some (<["title" := default (VStr no_title) (entry_get e "title")]>
        (<["link" := default (VStr []) (entry_get e "link")]>
        (<["content" := long]>
        (<["summary" := short]>
        (<["published" := pub_date]>
        (<["source" := name]>
        (<["source_category" := default (VStr other) (source !! "category")]>
        (<["language" := default (VStr en) (source !! "language")]>
        (<["authors" := VList authors]>
        (<["tags" := VList tags]> ∅)))))))))).

End FeedEntry.

(** The program with its fetcher on a feed library. *)
Definition externals_of `{FeedEntry.FeedLibrary}
    (loads : pystr → option pyval) (ints : pystr → option Z)
    (service : nat → http_reply)
    (feeds : nat → feed_reply FeedEntry.entry) : Externals :=
  {| json_loads := loads;
     int_of_str := ints;
     post := service;
     Entry := FeedEntry.entry;
     http_get := feeds;
     _parse_entry := FeedEntry._parse_entry |}.

(* ------------------------------------------------------------------ *)
(** ** main.py *)

Module Main.

(** The articles that [fetch_all] and [deduplicate] return are objects
    of their own: the i-th is put at reference i. *)
Definition alloc (articles : list Article) : AIProcessor.World :=
  {| AIProcessor.heap := λ r, default ∅ (articles !! r);
     AIProcessor.calls := 0 |}.

(** What the last steps of [main] get from outside the program.
    [publish n r] is what follows the statistics in the n-th call of
    [generate_report]: the two time stamps, the rendering of the template
    on them and on [r], the creation of the directory and the writing
    of the file ([None]: any of them raises; the template reads
    [published], [link], [title] and more on every article).
    [isoformat t] is [t.isoformat()] on a datetime, [dump l] the creation
    of the data directory and [json.dump] of [l] to the file ([None]:
    it raises). *)
Class Site := {
  publish : nat → ReportGenerator.report → option ();
  isoformat : Z → pystr;
  dump : list Article → option ()
}.

(** [save_raw_data]: each article is copied, and the copy holds the
    ISO text of [published] when the article has the field.  [None]:
    the AttributeError of a [published] that is not a datetime, or
    [dump] raises. *)
Definition save_raw_data `{Site} (articles : list Article) : option () :=
  serializable_articles ←
    mapM (λ article : Article,
            match article !! "published" with
            | None => Some article
            | Some (VDatetime t) =>
                Some (<["published" := VStr (isoformat t)]> article)
            | Some _ => None
            end) articles;
  dump serializable_articles.

Inductive outcome : Type :=
  | NothingFetched
  | Completed (latest archive : ReportGenerator.report)
              (articles : list Article).

(** [main].  [file] is what the reading of the config comes to,
    [env_key] the environment variable of the key.  [create_archive_entry]
    is a second call of [generate_report] on the same list.  The summary
    that ends [main] is logged from the categories, the scores and the
    sources that [generate_report] has read before: it raises nothing
    new.  [None]: an exception, on which [main] exits with status 1;
    [Completed latest archive articles]: [main] has reached its end,
    having given [latest] and [archive] to the template and [articles]
    to [save_raw_data]. *)
Definition main `{Externals} `{Site} (file : RSSSources.file_outcome)
    (env_key : option pystr) : option outcome :=
  sources ← RSSSources._load_sources file;
  articles ← RSSFetcher.fetch_all sources;
  match articles with
  | [] => Some NothingFetched
  | _ =>
      articles ← RSSFetcher.deduplicate articles;
      let processor := AIProcessor.init (Some (default [] env_key)) env_key in
      processed ← AIProcessor.process_all processor
                    (seq 0 (length articles)) (alloc articles);
      let articles := AIProcessor.heap processed.2 <$> processed.1 in
      articles ← AIProcessor.sort_by_hot_score articles true;
      latest ← ReportGenerator.generate_report articles;
      _ ← publish 0 latest;
      archive ← ReportGenerator.generate_report articles;
      _ ← publish 1 archive;
      _ ← save_raw_data articles;
      Some (Completed latest archive articles)
  end.

End Main.

(* ------------------------------------------------------------------ *)
(** ** Vocabulary of the further statements *)

(** The prompt of the article can be built: it has a title, a source
    and a content that can be sliced. *)
Definition promptable (a : Article) : bool :=
  bool_decide (is_Some (AIProcessor._create_analysis_prompt a)).

(** A field that holds a [str] or is missing. *)
Definition text_or_missing (v : option pyval) : bool :=
  match v with
  | None | Some (VStr _) => true
  | Some _ => false
  end.

(** The keys of an article as [_parse_entry] makes it. *)
Definition entry_keys : list string := "summary" :: fetched_keys.

(** The buckets of a report whose articles all have the fallback
    category: the categories of [category_order], of which the fallback
    one holds the articles. *)
Definition fallback_buckets (articles : list Article)
  : ReportGenerator.buckets :=
  (λ c, (c, if bool_decide (c = AIProcessor.fallback_category)
            then articles else []))
  <$> ReportGenerator.category_order.

(* ------------------------------------------------------------------ *)
(** ** The fields of the articles

    The statements on deduplication, on scores and on the report speak
    of the fields the articles hold, not of the functions that read
    them. *)

(** The title and the link an article holds. *)
Definition title_link (a : Article) : option pyval * option pyval :=
  (a !! "title", a !! "link").

(** The fields that make a key. *)
Definition fields_of_key (key : option (pystr * pystr))
  : option pyval * option pyval :=
  match key with
  | Some (title, link) => (Some (VStr title), Some (VStr link))
  | None => (None, None)
  end.

(** Every article holds a title and a link that are [str]. *)
Definition text_keyed (articles : list Article) : bool :=
  forallb (λ a : Article,
             match a !! "title", a !! "link" with
             | Some (VStr _), Some (VStr _) => true
             | _, _ => false
             end) articles.

(** The score an article holds: the [int] under ['hot_score'], a
    [bool] being the [int] 0 or 1, and 0 when it has none. *)
Definition field_score (a : Article) : Z :=
  match a !! "hot_score" with
  | Some (VInt z) => z
  | Some (VBool true) => 1%Z
  | _ => 0%Z
  end.

(** Every article holds an [int] under ['hot_score'], or nothing. *)
Definition int_scored (articles : list Article) : bool :=
  forallb (λ a : Article,
             match a !! "hot_score" with
             | None | Some (VInt _) | Some (VBool _) => true
             | Some _ => false
             end) articles.

(** The text an article holds under [k], [fallback] when it has none:
    [a.get(k, fallback)] for a field that is a [str] or missing. *)
Definition field_text (k : string) (fallback : pystr) (a : Article) : pystr :=
  match a !! k with
  | Some (VStr s) => s
  | _ => fallback
  end.

Definition field_category (a : Article) : pystr :=
  field_text "category" AIProcessor.fallback_category a.

Definition field_source (a : Article) : pystr := field_text "source" [] a.

(** Every article holds a [str] under ['category'] and under
    ['source'], or nothing. *)
Definition text_labelled (articles : list Article) : bool :=
  forallb (λ a : Article, text_or_missing (a !! "category")
                          && text_or_missing (a !! "source")) articles.

(** The sum of the scores the articles hold. *)
Definition sum_of_scores (articles : list Article) : Z :=
  foldr Z.add 0%Z (field_score <$> articles).

(** The quotient of the sum of the scores by the number of articles is
    not too large for a float. *)
Definition mean_fits (articles : list Article) : bool :=
  match articles with
  | [] => true
  | _ => bool_decide (is_Some (py_true_divide (sum_of_scores articles)
                                              (Z.of_nat (length articles))))
  end.

(** The articles [generate_report] computes its statistics on. *)
Definition presentable (articles : list Article) : bool :=
  text_labelled articles && int_scored articles && mean_fits articles.

(** The number a float stands for; none for an infinity or a NaN. *)
Definition float_value (f : spec_float) : option Qc :=
  match f with
  | S754_zero _ => Some 0%Qc
  | S754_finite s m e =>
      Some (Q2Qc (inject_Z (if s then Z.neg m else Z.pos m) * 2 ^ e)%Q)
  | _ => None
  end.

(** The number the average of a report stands for. *)
Definition number_value (v : pyval) : option Qc :=
  match v with
  | VInt z => Some (Qc_of_Z z)
  | VFloat f => float_value f
  | _ => None
  end.

(** The float that is the integer [k], for [k] below 2^53 in
    magnitude: 53 bits of mantissa. *)
Definition float_of_int (k : Z) : spec_float :=
  match k with
  | Z0 => S754_zero false
  | _ => S754_finite (k <? 0)%Z
           (Z.to_pos (Z.abs k * 2 ^ (52 - Z.log2 (Z.abs k))))
           (Z.log2 (Z.abs k) - 52)
  end.

(** The reading of the specification by which the average of a report
    is the arithmetic mean of the scores itself. *)
Definition average_is_the_mean : Prop :=
  ∀ (articles : list Article) (r : ReportGenerator.report),
    ReportGenerator.generate_report articles = Some r →
    articles ≠ [] →
    ∃ q, number_value (ReportGenerator.avg_hot_score r) = Some q ∧
         (q * Qc_of_Z (Z.of_nat (length articles))
          = Qc_of_Z (sum_of_scores articles))%Qc.

(** Every article holds a datetime under ['published'], or nothing. *)
Definition dated (articles : list Article) : bool :=
  forallb (λ a : Article,
             match a !! "published" with
             | None | Some (VDatetime _) => true
             | Some _ => false
             end) articles.

(* ------------------------------------------------------------------ *)
(** ** Further sample data *)

Module Cases.
Import AIProcessor Samples.

(** Articles in the order [sort_by_hot_score] leaves them. *)
Definition ranked_articles : list Article :=
  [rated 70 "y" article_b; <["hot_score" := VInt 70]> article_a;
   rated 50 "x" article_a; rated 50 "x" article_b; article_c].

(** Scores whose mean, 151/3, is no float. *)
Definition uneven_articles : list Article :=
  [rated 50 "x" article_a; rated 50 "x" article_b; rated 51 "x" article_c].

(** An article without a title among articles that have one. *)
Definition untitled : Article := delete "title" article_b.

Definition untitled_articles : list Article :=
  [article_a; untitled; article_c].

(** A store whose second article has no summary. *)
Definition short_store : World :=
  {| heap := λ r, match r with
                  | 1 => delete "summary" article_b
                  | _ => article_a
                  end;
     calls := 0 |}.

(** The store when one request has been sent: the next one fails. *)
Definition store_after_one : World := {| heap := heap store; calls := 1 |}.

(** The second source has no url. *)
Definition sources_without_url : list Source :=
  [source "one"; delete "url" (source "two")].

(** A feed library whose entries hold a link, a summary and tags, and
    a title or none. *)
Record item := {
  item_title : option pystr;
  item_link : pystr;
  item_summary : pystr;
  item_tags : list pystr
}.

Definition item_get (e : item) (k : string) : option pyval :=
  if String.eqb k "title" then VStr <$> item_title e
  else if String.eqb k "link" then Some (VStr (item_link e))
  else if String.eqb k "summary" then Some (VStr (item_summary e))
  else if String.eqb k "tags"
  then Some (VList ((λ t, VDict (<["term" := VStr t]> ∅)) <$> item_tags e))
  else None.

Definition library : FeedEntry.FeedLibrary :=
  {| FeedEntry.entry := item;
     FeedEntry.entry_get := item_get;
     FeedEntry.entry_attr := λ _ _, None;
     FeedEntry.soup_text := λ v, match v with
                                 | VStr s => Some (strip s)
                                 | _ => None
                                 end;
     FeedEntry.datetime_utc := λ _, None;
     FeedEntry.now_utc := λ _, VDatetime 0 |}.

Definition item_one : item :=
  {| item_title := Some (pystr_of "first");
     item_link := pystr_of "https://example.com/1";
     item_summary := pystr_of " a summary ";
     item_tags := [pystr_of "ai"] |}.

Definition item_two : item :=
  {| item_title := None;
     item_link := pystr_of "https://example.com/2";
     item_summary := pystr_of "another";
     item_tags := [] |}.

(** The first feed repeats an entry, the second cannot be reached, the
    others are empty. *)
Definition item_feeds (i : nat) : feed_reply item :=
  match i with
  | 0 => Feed [item_one; item_two; item_one]
  | 1 => TransportError
  | _ => Feed []
  end.

(** A config with a source that is disabled, and a text that decodes to
    a list. *)
Definition config_text : pystr := pystr_of "{sources}".
Definition list_text : pystr := pystr_of "[]".

Definition listed_sources : list Source :=
  [source "one"; <["enabled" := VBool false]> (source "two");
   <["enabled" := VBool true]> (source "three")].

Definition config : pydict :=
  <["sources" := VList (VDict <$> listed_sources)]> ∅.

Definition loads (s : pystr) : option pyval :=
  if bool_decide (s = config_text) then Some (VDict config)
  else if bool_decide (s = list_text) then Some (VList [])
  else None.

Definition feed_externals : Externals :=
  @externals_of library loads decimal service item_feeds.

Definition unreachable : Externals :=
  @externals_of library loads decimal service (λ _, TransportError).

(** A site on which every rendering and every dump succeeds. *)
Definition site : Main.Site :=
  {| Main.publish := λ _ _, Some ();
     Main.isoformat := λ _, pystr_of "1970-01-01T00:00:00+00:00";
     Main.dump := λ _, Some () |}.

Definition loaded_sources : list Source :=
  default [] (@RSSSources._load_sources feed_externals
                (RSSSources.FileText config_text)).

Definition item_articles : list Article :=
  default [] (@RSSFetcher.fetch_all feed_externals loaded_sources).

End Cases.

(* ================================================================== *)
(** * Fetching *)
(* ================================================================== *)

Section Fetch.
Import RSSFetcher.
Context `{Externals}.

Lemma fetch_feed_returns i (source : Source) :
  is_Some (source !! "url") → is_Some (source !! "name") →
  ∃ articles, fetch_feed i source = Some articles ∧
              (http_get i = TransportError → articles = []).
Proof.
  intros [url Hurl] [name Hname]. unfold fetch_feed.
  rewrite Hurl, Hname. simpl. eexists. split; [done|].
  by intros ->.
Qed.

Lemma fetch_all_loop_concat sources : ∀ i all_articles,
  described sources = true →
  ∃ per_source,
    fetch_all_loop i sources all_articles
      = Some (all_articles ++ concat per_source) ∧
    length per_source = length sources ∧
    ∀ k source, sources !! k = Some source →
      ∃ articles, per_source !! k = Some articles ∧
                  fetch_feed (i + k) source = Some articles ∧
                  (http_get (i + k) = TransportError → articles = []).
Proof.
  induction sources as [|source rest IH]; intros i acc Hdesc.
  - exists []. simpl. rewrite app_nil_r. split; [done|]. split; [done|].
    intros k source Hk. by rewrite lookup_nil in Hk.
  - simpl in Hdesc. apply andb_prop in Hdesc as [Hsrc Hrest].
    apply andb_prop in Hsrc as [Hurl Hname].
    apply bool_decide_eq_true in Hurl, Hname.
    destruct (fetch_feed_returns i source Hurl Hname)
      as (articles & Hfeed & Hfail).
    destruct (IH (S i) (acc ++ articles) Hrest)
      as (per & Hloop & Hlen & Heach).
    exists (articles :: per). simpl. rewrite Hfeed. simpl.
    rewrite Hloop, <- app_assoc. split; [done|]. split; [by rewrite Hlen|].
    intros [|k] src Hk; simpl in Hk.
    + injection Hk as <-. exists articles. rewrite Nat.add_0_r. done.
    + destruct (Heach k src Hk) as (arts & Hper & Hfetch & Hempty).
      exists arts. replace (i + S k) with (S i + k) by lia. done.
Qed.

(** C8.  On sources that have a url and a name, [fetch_all] returns
    the concatenation, in source order, of what [fetch_feed] returns
    for each source, and [fetch_feed] returns the empty list for a
    source whose request fails: the failure of one source neither
    raises nor stops the loop. *)
Theorem fetch_all_isolates_failures (sources : list Source) :
  described sources = true →
  ∃ per_source,
    fetch_all sources = Some (concat per_source) ∧
    length per_source = length sources ∧
    ∀ i source, sources !! i = Some source →
      ∃ articles, per_source !! i = Some articles ∧
                  fetch_feed i source = Some articles ∧
                  (http_get i = TransportError → articles = []).
Proof.
  intros Hdesc.
  destruct (fetch_all_loop_concat sources 0 [] Hdesc)
    as (per & Hloop & Hlen & Heach).
  exists per. done.
Qed.
End Fetch.

(* ================================================================== *)
(** * The fields and the functions that read them *)
(* ================================================================== *)

Section Fields.
Import RSSFetcher AIProcessor ReportGenerator.
Implicit Types (a : Article) (articles : list Article).

Lemma article_key_fields a :
  match a !! "title", a !! "link" with
  | Some (VStr _), Some (VStr _) => true
  | _, _ => false
  end = true →
  ∃ t l, a !! "title" = Some (VStr t) ∧ a !! "link" = Some (VStr l) ∧
         article_key a = Some (t, l).
Proof.
  unfold article_key.
  destruct (a !! "title") as [[| | | |t| | |]|]; try done.
  destruct (a !! "link") as [[| | | |l| | |]|]; try done.
  intros _. by exists t, l.
Qed.

Lemma text_keyed_keyed articles :
  text_keyed articles = true → keyed articles = true.
Proof.
  unfold text_keyed, keyed. rewrite !forallb_forall. intros Hall a Ha.
  destruct (article_key_fields a (Hall a Ha)) as (t & l & _ & _ & Hkey).
  apply bool_decide_eq_true. by eexists.
Qed.

Lemma title_link_of_key a key :
  article_key a = Some key → title_link a = fields_of_key (Some key).
Proof.
  unfold article_key, title_link. destruct key as [t l].
  destruct (a !! "title") as [[| | | |t'| | |]|]; try done;
    destruct (a !! "link") as [[| | | |l'| | |]|]; try done.
  by intros [= -> ->].
Qed.

Lemma fields_of_key_inj : Inj (=) (=) fields_of_key.
Proof.
  intros [[t l]|] [[t' l']|]; simpl; try done. by intros [= -> ->].
Qed.

Lemma title_link_fmap articles :
  Forall (λ a, is_Some (article_key a)) articles →
  title_link <$> articles = fields_of_key <$> (article_key <$> articles).
Proof.
  induction 1 as [|a l [key Hkey] _ IH]; [done|].
  rewrite !fmap_cons, IH, Hkey. f_equal. by apply title_link_of_key.
Qed.

Lemma first_occurrence_fmap {K L} (f : K → L) `{!Inj (=) (=) f}
    (keys : list K) (i : nat) :
  first_occurrence (f <$> keys) i ↔ first_occurrence keys i.
Proof.
  unfold first_occurrence. rewrite length_fmap.
  split; intros [Hi Hfirst]; (split; [done|]); intros j Hj Heq;
    apply (Hfirst j Hj).
  - by rewrite !list_lookup_fmap, Heq.
  - rewrite !list_lookup_fmap in Heq.
    destruct (keys !! j), (keys !! i); simpl in Heq; try done.
    injection Heq as Heq. by apply (inj f) in Heq as ->.
Qed.

Lemma score_field a : score a = field_score a.
Proof.
  unfold score, field_score, hot_score_of.
  by destruct (a !! "hot_score") as [[| [] | | | | | |]|].
Qed.

Lemma int_scored_scored articles :
  int_scored articles = true → scored articles = true.
Proof.
  unfold int_scored, scored. rewrite !forallb_forall. intros Hall a Ha.
  specialize (Hall a Ha). apply bool_decide_eq_true. unfold hot_score_of.
  destruct (a !! "hot_score") as [[]|]; try done; by eexists.
Qed.

Lemma sum_of_scores_score articles :
  sum_of_scores articles = foldr Z.add 0%Z (score <$> articles).
Proof.
  unfold sum_of_scores. f_equal. apply list_fmap_ext.
  intros i a _. by rewrite score_field.
Qed.

Lemma category_of_field a :
  text_or_missing (a !! "category") = true →
  category_of a = Some (field_category a).
Proof.
  unfold category_of, field_category, field_text.
  by destruct (a !! "category") as [[]|].
Qed.

Lemma source_of_field a :
  text_or_missing (a !! "source") = true →
  source_of a = Some (field_source a).
Proof.
  unfold source_of, field_source, field_text.
  by destruct (a !! "source") as [[]|].
Qed.

Lemma text_labelled_Forall articles :
  text_labelled articles = true →
  Forall (λ a, category_of a = Some (field_category a) ∧
               source_of a = Some (field_source a)) articles.
Proof.
  unfold text_labelled. rewrite forallb_forall, Forall_forall.
  intros Hall a Ha. apply list_elem_of_In in Ha.
  destruct (andb_prop _ _ (Hall a Ha)) as [Hc Hs].
  split; [by apply category_of_field|by apply source_of_field].
Qed.

Lemma presentable_parts articles :
  presentable articles = true →
  text_labelled articles = true ∧ int_scored articles = true ∧
  mean_fits articles = true ∧ reportable articles = true.
Proof.
  unfold presentable. intros [[Hl Hs]%andb_prop Hm]%andb_prop.
  split; [done|]. split; [done|]. split; [done|].
  unfold reportable, categorized, sourced.
  rewrite (int_scored_scored _ Hs).
  apply text_labelled_Forall in Hl.
  apply andb_true_intro. split; [apply andb_true_intro; split; [|done]|].
  - apply forallb_forall. intros a Ha%list_elem_of_In.
    rewrite Forall_forall in Hl. destruct (Hl a Ha) as [-> _].
    by apply bool_decide_eq_true.
  - apply forallb_forall. intros a Ha%list_elem_of_In.
    rewrite Forall_forall in Hl. destruct (Hl a Ha) as [_ ->].
    by apply bool_decide_eq_true.
Qed.

Lemma filter_field_category (c : pystr) articles :
  text_labelled articles = true →
  filter (λ a, category_of a = Some c) articles
  = filter (λ a, field_category a = c) articles.
Proof.
  intros Hall%text_labelled_Forall.
  induction Hall as [|a l [Ha _] _ IH]; [done|].
  rewrite !filter_cons, IH, Ha.
  destruct (decide (Some (field_category a) = Some c)) as [[= Heq]|Hne].
  - by rewrite decide_True.
  - rewrite decide_False; [done|]. intros Heq. apply Hne. by f_equal.
Qed.

Lemma filter_field_score (P : Z → Prop) `{∀ z, Decision (P z)} articles :
  filter (λ a, P (score a)) articles
  = filter (λ a, P (field_score a)) articles.
Proof.
  apply list_filter_iff. intros a. by rewrite score_field.
Qed.

Lemma sorted_field_score (R : relation Z) articles :
  StronglySorted (λ a b, R (score a) (score b)) articles →
  StronglySorted (λ a b, R (field_score a) (field_score b)) articles.
Proof.
  induction 1 as [|a l _ IH Hall]; constructor; [done|].
  eapply Forall_impl; [exact Hall|]. intros b. by rewrite !score_field.
Qed.
End Fields.

(* ================================================================== *)
(** * The division of two [int]s *)
(* ================================================================== *)

Section Division.
#[local] Open Scope Z_scope.

Lemma Zdigits2_log2 (p : positive) :
  Zdigits2 (Zpos p) = Z.log2 (Zpos p) + 1.
Proof.
  unfold Zdigits2.
  assert (H : ∀ q, Zpos (digits2_pos q) = Zpos (Pos.size q)).
  { induction q as [q IH|q IH|]; simpl; try reflexivity;
      rewrite !Pos2Z.inj_succ, IH; reflexivity. }
  rewrite H. destruct p as [p|p|]; simpl; try reflexivity;
    rewrite Pos2Z.inj_succ; lia.
Qed.

Lemma fexp_small (e : Z) : -1021 ≤ e → fexp 53 1024 e = e - 53.
Proof. intros He. unfold fexp, emin. lia. Qed.

Lemma shr_fexp_keep (Q ex : Z) :
  fexp 53 1024 (Zdigits2 Q + ex) = ex →
  shr_fexp 53 1024 Q ex loc_Exact
  = ({| shr_m := Q; shr_r := false; shr_s := false |}, ex).
Proof.
  intros H. unfold shr_fexp. rewrite H, Z.sub_diag. reflexivity.
Qed.

Lemma shr_fexp_halve (p : positive) (ex : Z) :
  fexp 53 1024 (Zdigits2 (Zpos p~0) + ex) = ex + 1 →
  shr_fexp 53 1024 (Zpos p~0) ex loc_Exact
  = ({| shr_m := Zpos p; shr_r := false; shr_s := false |}, ex + 1).
Proof.
  intros H. unfold shr_fexp. rewrite H.
  replace (ex + 1 - ex) with 1 by lia. reflexivity.
Qed.

(** The quotient of [K * n] by [n], for [K] below 2^53, is [K] on 53
    bits: no bit of it is lost. *)
Lemma SFdiv_exact (s : bool) (K n : positive) :
  Zpos K < 2 ^ 53 →
  SFdiv 53 1024 (S754_finite s (K * n) 0) (S754_finite false n 0)
  = S754_finite s (Z.to_pos (Zpos K * 2 ^ (52 - Z.log2 (Zpos K))))
                  (Z.log2 (Zpos K) - 52).
Proof.
  intros HK.
  set (lk := Z.log2 (Zpos K)).
  assert (Hlk : 0 ≤ lk ≤ 52).
  { split; [apply Z.log2_nonneg|]. unfold lk.
    assert (Z.log2 (Zpos K) < 53); [|lia].
    apply Z.log2_lt_pow2; lia. }
  set (ln := Z.log2 (Zpos n)).
  set (la := Z.log2 (Zpos (K * n))).
  assert (Hla : la = lk + ln ∨ la = lk + ln + 1).
  { unfold la, lk, ln. rewrite Pos2Z.inj_mul.
    pose proof (Z.log2_mul_below (Zpos K) (Zpos n)).
    pose proof (Z.log2_mul_above (Zpos K) (Zpos n)). lia. }
  set (M := Zpos K * 2 ^ (52 - lk)).
  assert (HM : 0 < M).
  { unfold M. apply Z.mul_pos_pos; [lia|apply Z.pow_pos_nonneg; lia]. }
  assert (HlM : Z.log2 M = 52).
  { unfold M. rewrite <- Z.shiftl_mul_pow2 by lia.
    rewrite Z.log2_shiftl by lia. fold lk. lia. }
  assert (Hround : ∀ Q ex,
            (Q = M ∧ ex = lk - 52) ∨ (Q = 2 * M ∧ ex = lk - 53) →
            binary_round_aux 53 1024 s Q ex loc_Exact
            = S754_finite s (Z.to_pos M) (lk - 52)).
  { assert (Hkeep : shr_fexp 53 1024 M (lk - 52) loc_Exact
                    = ({| shr_m := M; shr_r := false; shr_s := false |},
                       lk - 52)).
    { apply shr_fexp_keep. destruct M as [|m|m]; try lia.
      rewrite Zdigits2_log2, HlM, fexp_small by lia. lia. }
    assert (Hend : ∀ m0, m0 = M →
              (let '(mrs', e') :=
                 ({| shr_m := m0; shr_r := false; shr_s := false |}, lk - 52) in
               let '(mrs'', e'') :=
                 shr_fexp 53 1024
                   (round_nearest_even (shr_m mrs') (loc_of_shr_record mrs'))
                   e' loc_Exact in
               match shr_m mrs'' with
               | 0 => S754_zero s
               | Zpos m => if e'' <=? 1024 - 53 then S754_finite s m e''
                           else S754_infinity s
               | Zneg _ => S754_nan
               end) = S754_finite s (Z.to_pos M) (lk - 52)).
    { intros m0 ->. cbn [shr_m loc_of_shr_record round_nearest_even].
      rewrite Hkeep. cbn [shr_m]. destruct M as [|m|m]; try lia.
      replace (lk - 52 <=? 1024 - 53) with true
        by (symmetry; apply Z.leb_le; lia).
      reflexivity. }
    intros Q ex [[-> ->] | [-> ->]]; unfold binary_round_aux.
    - rewrite Hkeep. by apply Hend.
    - destruct M as [|m|m]; try lia.
      change (2 * Zpos m) with (Zpos m~0).
      rewrite shr_fexp_halve.
      + replace (lk - 53 + 1) with (lk - 52) by lia. by apply Hend.
      + rewrite Zdigits2_log2. change (Zpos m~0) with (2 * Zpos m).
        rewrite Z.log2_double by lia. rewrite HlM, fexp_small by lia. lia. }
  unfold SFdiv, SFdiv_core_binary.
  rewrite !Zdigits2_log2. fold la ln.
  rewrite (Z.add_0_r (la + 1)), (Z.add_0_r (ln + 1)), Z.sub_0_r.
  replace (la + 1 - (ln + 1)) with (la - ln) by lia.
  rewrite fexp_small by lia.
  rewrite Z.min_l by lia. rewrite Z.sub_0_l.
  replace (- (la - ln - 53)) with (53 - (la - ln)) by lia.
  assert (Hdiv : ∀ j, 0 ≤ j →
            Z.div_eucl (Zpos (K * n) * 2 ^ j) (Zpos n) = (Zpos K * 2 ^ j, 0)).
  { intros j Hj.
    pose proof (Z.div_eucl_eq (Zpos (K * n) * 2 ^ j) (Zpos n)) as Heq.
    pose proof (Z.mod_pos_bound (Zpos (K * n) * 2 ^ j) (Zpos n)) as Hb.
    unfold Z.modulo in Hb.
    destruct (Z.div_eucl _ _) as [q r]. simpl in Hb.
    specialize (Heq ltac:(lia)). specialize (Hb ltac:(lia)).
    rewrite Pos2Z.inj_mul in Heq.
    assert (Hq : q = Zpos K * 2 ^ j).
    { assert (0 < 2 ^ j) by (apply Z.pow_pos_nonneg; lia). nia. }
    subst q. f_equal. nia. }
  assert (Hloc : new_location (Zpos n) 0 = loc_Exact).
  { unfold new_location, new_location_even, new_location_odd.
    by destruct (Z.even _). }
  destruct Hla as [Hla | Hla].
  - replace (53 - (la - ln)) with (53 - lk) by lia.
    destruct (53 - lk) as [|j|j] eqn:Hj; try lia.
    rewrite Z.shiftl_mul_pow2 by lia. rewrite <- Hj.
    rewrite Hdiv by lia. rewrite Hloc.
    rewrite xorb_false_r. apply Hround. right. split; [|lia].
    unfold M. replace (53 - lk) with (1 + (52 - lk)) by lia.
    rewrite Z.pow_add_r by lia. lia.
  - replace (53 - (la - ln)) with (52 - lk) by lia.
    assert (Hcore : match 52 - lk with
                    | 0 => Zpos (K * n)
                    | Zpos _ => Z.shiftl (Zpos (K * n)) (52 - lk)
                    | Zneg _ => 0
                    end = Zpos (K * n) * 2 ^ (52 - lk)).
    { destruct (52 - lk) as [|j|j] eqn:Hj; try lia.
      by rewrite Z.shiftl_mul_pow2. }
    rewrite Hcore, Hdiv by lia. rewrite Hloc.
    rewrite xorb_false_r. apply Hround. left. split; [reflexivity|lia].
Qed.

(** When the count divides the sum, and the quotient is below 2^53 in
    magnitude, the division gives the quotient itself. *)
Lemma py_true_divide_exact (k n : Z) :
  0 < n → Z.abs k < 2 ^ 53 →
  py_true_divide (k * n) n = Some (float_of_int k).
Proof.
  intros Hn Hk. unfold py_true_divide, float_of_int.
  destruct n as [|n|n]; try lia.
  destruct k as [|K|K].
  - done.
  - change (Zpos K * Zpos n) with (Zpos (K * n)).
    change (Z.to_pos (Z.abs (Zpos (K * n)))) with (K * n)%positive.
    change (Z.to_pos (Z.abs (Zpos n))) with n.
    change (Zpos (K * n) <? 0) with false. change (Zpos n <? 0) with false.
    change (Zpos K <? 0) with false. change (Z.abs (Zpos K)) with (Zpos K).
    by rewrite SFdiv_exact.
  - change (Zneg K * Zpos n) with (Zneg (K * n)).
    change (Z.to_pos (Z.abs (Zneg (K * n)))) with (K * n)%positive.
    change (Z.to_pos (Z.abs (Zpos n))) with n.
    change (Zneg (K * n) <? 0) with true. change (Zpos n <? 0) with false.
    change (Zneg K <? 0) with true. change (Z.abs (Zneg K)) with (Zpos K).
    by rewrite SFdiv_exact.
Qed.

Lemma float_value_scaled (s : bool) (K : positive) (j : Z) :
  0 ≤ j →
  float_value (S754_finite s (Z.to_pos (Zpos K * 2 ^ j)) (- j))
  = Some (Qc_of_Z (if s then Zneg K else Zpos K)).
Proof.
  intros Hj. unfold float_value. f_equal. apply Qc_is_canon.
  assert (Hpow : 0 < 2 ^ j) by (apply Z.pow_pos_nonneg; lia).
  destruct (Zpos K * 2 ^ j) as [|m|m] eqn:Hm; try lia.
  simpl Z.to_pos. unfold Qc_of_Z. cbn [this Q2Qc]. rewrite Qred_correct.
  assert (Hq : (inject_Z (Zpos m) * 2 ^ (- j) == inject_Z (Zpos K))%Q).
  { rewrite <- Hm, inject_Z_mult, Qpower_opp, Zpower_Qpower by done.
    change (inject_Z 2) with 2%Q. field.
    apply Qpower_not_0. done. }
  destruct s; [|exact Hq].
  change (Zneg m) with (- Zpos m). change (Zneg K) with (- Zpos K).
  rewrite !inject_Z_opp. rewrite <- Hq. ring.
Qed.

Lemma float_of_int_value (k : Z) :
  Z.abs k < 2 ^ 53 → float_value (float_of_int k) = Some (Qc_of_Z k).
Proof.
  intros Hk. destruct k as [|K|K];
    [simpl; f_equal; by apply Qc_is_canon|..]; unfold float_of_int.
  all: change (Z.abs _) with (Zpos K) in *.
  all: assert (Hl : 0 ≤ 52 - Z.log2 (Zpos K)) by
         (assert (Z.log2 (Zpos K) < 53); [apply Z.log2_lt_pow2; lia|lia]).
  all: replace (Z.log2 (Zpos K) - 52) with (- (52 - Z.log2 (Zpos K))) by lia.
  - change (Zpos K <? 0) with false. by rewrite float_value_scaled.
  - change (Zneg K <? 0) with true. by rewrite float_value_scaled.
Qed.

End Division.

(* ================================================================== *)
(** * Deduplication *)
(* ================================================================== *)

Section Deduplicate.
Import RSSFetcher.

Lemma keyed_Forall articles :
  keyed articles = true ↔ Forall (λ a, is_Some (article_key a)) articles.
Proof.
  unfold keyed. rewrite forallb_forall, Forall_forall.
  split; intros Hk a Ha.
  - apply list_elem_of_In in Ha. apply Hk in Ha.
    by apply bool_decide_eq_true in Ha.
  - apply list_elem_of_In in Ha. apply bool_decide_eq_true. by apply Hk.
Qed.

Lemma first_occurrence_app_l {K} (keys : list K) (k : K) i :
  i < length keys →
  first_occurrence (keys ++ [k]) i ↔ first_occurrence keys i.
Proof.
  intros Hi. unfold first_occurrence. rewrite length_app. simpl.
  split; intros [_ Hfirst]; (split; [lia|]); intros j Hj.
  - specialize (Hfirst j Hj).
    by rewrite !lookup_app_l in Hfirst by lia.
  - rewrite !lookup_app_l by lia. by apply Hfirst.
Qed.

Lemma first_occurrence_last {K} (keys : list K) (k : K) :
  first_occurrence (keys ++ [k]) (length keys) ↔ k ∉ keys.
Proof.
  unfold first_occurrence. rewrite length_app. simpl.
  rewrite list_lookup_middle by done. split.
  - intros [_ Hfirst] Hin.
    apply list_elem_of_lookup in Hin as [j Hj].
    apply (Hfirst j); [by eapply lookup_lt_Some|].
    rewrite lookup_app_l by (by eapply lookup_lt_Some). done.
  - intros Hnot. split; [lia|]. intros j Hj Heq.
    rewrite lookup_app_l in Heq by done.
    apply Hnot, list_elem_of_lookup. eauto.
Qed.

Lemma dedup_inv_step pre seen unique idx a key :
  article_key a = Some key →
  dedup_inv pre seen unique idx →
  if decide (key ∈ seen)
  then dedup_inv (pre ++ [a]) seen unique idx
  else dedup_inv (pre ++ [a]) ({[key]} ∪ seen) (unique ++ [a])
                 (idx ++ [length pre]).
Proof.
  intros Hkey (Hseen & [Hsorted Hsel] & Hidx & Hnodup & Hlen).
  assert (Hlt : ∀ i, i ∈ idx → i < length pre).
  { intros i Hi. apply Hidx in Hi as [Hi _].
    by rewrite length_fmap in Hi. }
  assert (Hsel' : Forall2 (λ i b, (pre ++ [a]) !! i = Some b) idx unique).
  { eapply Forall2_impl; [exact Hsel|]. simpl. intros i b Hb.
    by apply lookup_app_l_Some. }
  assert (Hold : ∀ i, i < length pre →
    first_occurrence (article_key <$> pre ++ [a]) i ↔
    first_occurrence (article_key <$> pre) i).
  { intros i Hi. rewrite fmap_app. simpl.
    apply first_occurrence_app_l. by rewrite length_fmap. }
  assert (Hlast : first_occurrence (article_key <$> pre ++ [a]) (length pre)
                  ↔ key ∉ seen).
  { rewrite fmap_app. simpl. rewrite Hkey.
    rewrite <- (length_fmap article_key pre).
    rewrite first_occurrence_last. by rewrite Hseen. }
  assert (Hmem : ∀ k, Some k ∈ article_key <$> pre ++ [a] ↔
                      k = key ∨ Some k ∈ article_key <$> pre).
  { intros k. rewrite fmap_app. simpl. rewrite Hkey.
    rewrite elem_of_app, list_elem_of_singleton.
    split; [intros [?|?]; [by right|left; congruence]|].
    intros [->|?]; [by right|by left]. }
  assert (Hcases : ∀ i, first_occurrence (article_key <$> pre ++ [a]) i →
                        i < length pre ∨ i = length pre).
  { intros i [Hi _]. rewrite length_fmap, length_app in Hi.
    simpl in Hi. lia. }
  unfold dedup_inv, selects.
  destruct (decide (key ∈ seen)) as [Hin|Hnotin]; repeat apply conj.
  - intros k. rewrite Hmem, Hseen. split; [by right|].
    intros [->|Hk]; [by apply Hseen|done].
  - done.
  - done.
  - intros i. split.
    + intros Hi. rewrite Hold by auto. by apply Hidx.
    + intros Hfirst. destruct (Hcases _ Hfirst) as [Hi| ->].
      * apply Hidx. by apply Hold.
      * by apply Hlast in Hfirst.
  - done.
  - rewrite length_app. simpl. lia.
  - intros k. rewrite Hmem, elem_of_union, elem_of_singleton, Hseen. done.
  - apply StronglySorted_app_2; [|done|repeat constructor].
    intros i j Hi Hj. apply list_elem_of_singleton in Hj as ->. auto.
  - apply Forall2_app; [done|]. constructor; [|done].
    by apply list_lookup_middle.
  - intros i. rewrite elem_of_app, list_elem_of_singleton. split.
    + intros [Hi| ->].
      * pose proof (Hlt _ Hi). apply Hold; [done|]. by apply Hidx.
      * by apply Hlast.
    + intros Hfirst. destruct (Hcases _ Hfirst) as [Hi| ->].
      * left. apply Hidx. by apply Hold.
      * by right.
  - rewrite fmap_app. simpl. apply NoDup_app. split; [done|].
    split; [|apply NoDup_singleton].
    intros k Hk Hk'. apply list_elem_of_singleton in Hk' as ->.
    rewrite Hkey in Hk. apply list_elem_of_fmap in Hk as (b & Hb & Hbin).
    apply list_elem_of_lookup in Hbin as [n Hn].
    destruct (Forall2_lookup_r _ _ _ _ _ Hsel Hn) as (i & Hi & Hpre).
    apply Hnotin, Hseen. rewrite Hb.
    apply list_elem_of_fmap. exists b. split; [done|].
    apply list_elem_of_lookup. eauto.
  - rewrite !length_app. simpl. lia.
Qed.

Lemma deduplicate_loop_inv rest : ∀ pre seen unique idx,
  Forall (λ a, is_Some (article_key a)) rest →
  dedup_inv pre seen unique idx →
  ∃ unique' seen' idx',
    deduplicate_loop rest seen unique = Some unique' ∧
    dedup_inv (pre ++ rest) seen' unique' idx'.
Proof.
  induction rest as [|a rest IH]; intros pre seen unique idx Hkeys Hinv.
  - exists unique, seen, idx. by rewrite app_nil_r.
  - apply Forall_cons in Hkeys as [[key Hkey] Hkeys]. simpl. rewrite Hkey.
    simpl. pose proof (dedup_inv_step _ _ _ _ _ _ Hkey Hinv) as Hstep.
    rewrite (cons_middle a pre rest), app_assoc.
    destruct (decide (key ∈ seen)); by eapply IH.
Qed.

(** What [deduplicate] returns, in the words of its keys. *)
Lemma deduplicate_by_key (articles : list Article) :
  keyed articles = true →
  ∃ unique idx,
    deduplicate articles = Some unique ∧
    NoDup (article_key <$> unique) ∧
    length unique ≤ length articles ∧
    selects articles idx unique ∧
    ∀ i, i ∈ idx ↔ first_occurrence (article_key <$> articles) i.
Proof.
  intros Hkeyed. apply keyed_Forall in Hkeyed.
  destruct (deduplicate_loop_inv articles [] ∅ [] [] Hkeyed)
    as (unique & seen & idx & Hrun & _ & Hsel & Hidx & Hnodup & Hlen).
  { unfold dedup_inv, selects. repeat apply conj.
    - intros k. rewrite elem_of_empty. simpl. by rewrite elem_of_nil.
    - constructor.
    - constructor.
    - intros i. rewrite elem_of_nil. split; [done|].
      intros [Hi _]. simpl in Hi. lia.
    - constructor.
    - done. }
  exists unique, idx. done.
Qed.

Lemma selects_Forall {A} (P : A → Prop) (l : list A) idx sub :
  selects l idx sub → Forall P l → Forall P sub.
Proof.
  intros [_ Hsel] Hall. rewrite Forall_forall in Hall.
  induction Hsel as [|i a idx sub Hi _ IH]; constructor; [|done].
  apply Hall. by eapply list_elem_of_lookup_2.
Qed.

(** C1.  On articles that hold a [str] under ['title'] and under
    ['link'], [deduplicate] returns a list [unique] in which no two
    elements hold the same title and the same link, not longer than its
    input, and made of the input's elements at the increasing positions
    [idx], which are exactly the positions where a pair of title and
    link occurs for the first time in the input. *)
Theorem deduplicate_first_occurrences (articles : list Article) :
  text_keyed articles = true →
  ∃ unique idx,
    deduplicate articles = Some unique ∧
    NoDup (title_link <$> unique) ∧
    length unique ≤ length articles ∧
    selects articles idx unique ∧
    ∀ i, i ∈ idx ↔ first_occurrence (title_link <$> articles) i.
Proof.
  intros Hkeyed%text_keyed_keyed.
  destruct (deduplicate_by_key articles Hkeyed)
    as (unique & idx & Hrun & Hnodup & Hlen & Hsel & Hidx).
  apply keyed_Forall in Hkeyed. pose proof fields_of_key_inj.
  exists unique, idx. split; [done|]. split; [|split; [done|split; [done|]]].
  - rewrite title_link_fmap by (by eapply selects_Forall).
    by apply (NoDup_fmap_2 fields_of_key).
  - intros i. rewrite Hidx, title_link_fmap by done.
    symmetry. by apply first_occurrence_fmap.
Qed.
End Deduplicate.

(* ================================================================== *)
(** * The stable sort *)
(* ================================================================== *)

Section SortKeyed.
Import AIProcessor.
Context {A : Type} (reverse : bool).
Implicit Types (x y : Z * A) (l : list (Z * A)).

Lemma goes_before_in_order k1 k2 :
  goes_before reverse k1 k2 = true ↔ in_order reverse k1 k2.
Proof.
  unfold goes_before, in_order.
  destruct reverse; by rewrite bool_decide_eq_true.
Qed.

Lemma in_order_trans k1 k2 k3 :
  in_order reverse k1 k2 → in_order reverse k2 k3 → in_order reverse k1 k3.
Proof. unfold in_order. destruct reverse; lia. Qed.

Lemma in_order_total k1 k2 :
  ¬ in_order reverse k1 k2 → in_order reverse k2 k1.
Proof. unfold in_order. destruct reverse; lia. Qed.

(** Elements with equal keys are never swapped: [x] passes [y] only
    when it has to. *)
Lemma in_order_strict k1 k2 :
  ¬ in_order reverse k1 k2 → k1 ≠ k2.
Proof. unfold in_order. destruct reverse; lia. Qed.

Lemma insert_keyed_perm x l : insert_keyed reverse x l ≡ₚ x :: l.
Proof.
  induction l as [|y l IH]; simpl; [done|].
  destruct (goes_before reverse x.1 y.1); [done|].
  rewrite IH. apply Permutation_swap.
Qed.

Lemma sort_keyed_perm l : sort_keyed reverse l ≡ₚ l.
Proof.
  induction l as [|x l IH]; simpl; [done|].
  by rewrite insert_keyed_perm, IH.
Qed.

Lemma insert_keyed_sorted x l :
  StronglySorted (λ p q, in_order reverse p.1 q.1) l →
  StronglySorted (λ p q, in_order reverse p.1 q.1) (insert_keyed reverse x l).
Proof.
  induction 1 as [|y l Hsorted IH Hy]; simpl.
  - repeat constructor.
  - destruct (goes_before reverse x.1 y.1) eqn:Hxy.
    + apply goes_before_in_order in Hxy.
      constructor; [by constructor|]. constructor; [done|].
      eapply Forall_impl; [exact Hy|]. simpl. intros q Hq.
      by eapply in_order_trans.
    + constructor; [done|]. rewrite insert_keyed_perm.
      constructor; [|done]. apply in_order_total.
      intros Hxy'. apply goes_before_in_order in Hxy'. congruence.
Qed.

Lemma sort_keyed_sorted l :
  StronglySorted (λ p q, in_order reverse p.1 q.1) (sort_keyed reverse l).
Proof.
  induction l as [|x l IH]; simpl; [constructor|].
  by apply insert_keyed_sorted.
Qed.

Lemma insert_keyed_stable (z : Z) x l :
  filter (λ p, p.1 = z) (insert_keyed reverse x l)
  = filter (λ p, p.1 = z) (x :: l).
Proof.
  induction l as [|y l IH]; simpl; [done|].
  destruct (goes_before reverse x.1 y.1) eqn:Hxy; [done|].
  assert (x.1 ≠ y.1) as Hne.
  { apply in_order_strict. intros Hxy'.
    apply goes_before_in_order in Hxy'. congruence. }
  rewrite (filter_cons _ y (insert_keyed _ _ _)), IH.
  rewrite !filter_cons.
  destruct (decide (x.1 = z)), (decide (y.1 = z)); congruence.
Qed.

Lemma sort_keyed_stable (z : Z) l :
  filter (λ p, p.1 = z) (sort_keyed reverse l) = filter (λ p, p.1 = z) l.
Proof.
  induction l as [|x l IH]; simpl; [done|].
  rewrite insert_keyed_stable, !filter_cons, IH. done.
Qed.
End SortKeyed.

(* ================================================================== *)
(** * Filtering and sorting the scored articles *)
(* ================================================================== *)

Section ScoreOps.
Import AIProcessor.

Lemma scored_Forall articles :
  scored articles = true ↔ Forall (λ a, is_Some (hot_score_of a)) articles.
Proof.
  unfold scored. rewrite forallb_forall, Forall_forall.
  split; intros Hs a Ha.
  - apply list_elem_of_In in Ha. apply Hs in Ha.
    by apply bool_decide_eq_true in Ha.
  - apply list_elem_of_In in Ha. apply bool_decide_eq_true. by apply Hs.
Qed.

Lemma hot_score_of_score a :
  is_Some (hot_score_of a) → hot_score_of a = Some (score a).
Proof. intros [z Hz]. unfold score. by rewrite Hz. Qed.

Lemma score_missing (a : Article) :
  a !! "hot_score" = None → hot_score_of a = Some 0%Z.
Proof. intros Hnone. unfold hot_score_of. by rewrite Hnone. Qed.

Lemma mapM_with_key articles :
  scored articles = true →
  mapM with_key articles = Some ((λ a, (score a, a)) <$> articles).
Proof.
  intros Hs. apply scored_Forall in Hs. apply mapM_Some_2.
  apply Forall2_fmap_r, Forall_Forall2_diag.
  eapply Forall_impl; [exact Hs|]. simpl. intros a Ha.
  unfold with_key. by rewrite (hot_score_of_score a Ha).
Qed.

Lemma filter_by_hot_score_filter articles (threshold : Z) :
  scored articles = true →
  filter_by_hot_score articles threshold
  = Some (filter (λ a, (threshold ≤ score a)%Z) articles).
Proof.
  intros Hs. apply scored_Forall in Hs.
  induction Hs as [|a rest Ha _ IH]; simpl; [done|].
  rewrite (hot_score_of_score a Ha), IH. simpl.
  case_bool_decide;
    [rewrite filter_cons_True by done|rewrite filter_cons_False by done];
    done.
Qed.

Lemma filter_keyed_fmap (z : Z) (l : list Article) :
  filter (λ p : Z * Article, p.1 = z) ((λ a, (score a, a)) <$> l)
  = (λ a, (score a, a)) <$> filter (λ a, score a = z) l.
Proof.
  induction l as [|a l IH]; [done|].
  rewrite fmap_cons, !filter_cons, IH. cbn [fst].
  by destruct (decide (score a = z)).
Qed.

Lemma keyed_snd (l : list Article) : ((λ a, (score a, a)) <$> l).*2 = l.
Proof. rewrite <- list_fmap_compose. apply list_fmap_id. Qed.

(** A permutation of keyed articles is the keyed form of its second
    components. *)
Lemma keyed_perm (l : list Article) (k : list (Z * Article)) :
  k ≡ₚ (λ a, (score a, a)) <$> l → k = (λ a, (score a, a)) <$> k.*2.
Proof.
  intros Hperm.
  assert (Forall (λ p : Z * Article, p = (score p.2, p.2)) k) as Hall.
  { rewrite Hperm. apply Forall_fmap, Forall_forall. done. }
  clear Hperm. induction Hall as [|p k Hp _ IH]; [done|].
  rewrite !fmap_cons. by f_equal.
Qed.

Lemma sorted_keyed_fmap (R : relation Z) (l : list Article) :
  StronglySorted (λ p q : Z * Article, R p.1 q.1)
                 ((λ a, (score a, a)) <$> l) →
  StronglySorted (λ a b, R (score a) (score b)) l.
Proof.
  induction l as [|a l IH]; simpl; [constructor|].
  intros [Hall Hsorted]%StronglySorted_cons.
  constructor; [by apply IH|]. rewrite Forall_fmap in Hall.
  eapply Forall_impl; [exact Hall|]. done.
Qed.

Lemma sort_by_hot_score_stable articles reverse :
  scored articles = true →
  ∃ sorted,
    sort_by_hot_score articles reverse = Some sorted ∧
    sorted ≡ₚ articles ∧
    StronglySorted (λ a b, in_order reverse (score a) (score b)) sorted ∧
    ∀ z, filter (λ a, score a = z) sorted = filter (λ a, score a = z) articles.
Proof.
  intros Hs. unfold sort_by_hot_score. rewrite (mapM_with_key _ Hs). simpl.
  set (keyed := (λ a, (score a, a)) <$> articles).
  eexists. split; [done|].
  pose proof (sort_keyed_perm reverse keyed) as Hperm.
  pose proof (keyed_perm _ _ Hperm) as Hform.
  split; [|split].
  - rewrite Hperm. unfold keyed. by rewrite keyed_snd.
  - apply sorted_keyed_fmap. rewrite <- Hform. apply sort_keyed_sorted.
  - intros z.
    pose proof (sort_keyed_stable reverse z keyed) as Hstable.
    rewrite Hform in Hstable. unfold keyed in Hstable.
    rewrite !filter_keyed_fmap in Hstable.
    apply (f_equal (fmap snd)) in Hstable.
    by rewrite !keyed_snd in Hstable.
Qed.

(** C5.  On articles that hold an [int] under ['hot_score'] or
    nothing, the score of an article being the [int] it holds and 0
    when it holds none: [filter_by_hot_score] returns exactly the
    articles with a score of at least the threshold, in their order;
    [sort_by_hot_score] returns a permutation of its input in which
    scores never increase and articles of equal score keep their
    order. *)
Theorem filter_and_sort_by_hot_score articles (threshold : Z) :
  int_scored articles = true →
  (∀ (a : Article) z, a !! "hot_score" = Some (VInt z) → field_score a = z) ∧
  (∀ a : Article, a !! "hot_score" = None → field_score a = 0%Z) ∧
  filter_by_hot_score articles threshold
    = Some (filter (λ a, (threshold ≤ field_score a)%Z) articles) ∧
  ∃ sorted,
    sort_by_hot_score articles true = Some sorted ∧
    sorted ≡ₚ articles ∧
    StronglySorted (λ a b, (field_score b ≤ field_score a)%Z) sorted ∧
    ∀ z, filter (λ a, field_score a = z) sorted
         = filter (λ a, field_score a = z) articles.
Proof.
  intros Hs%int_scored_scored.
  split; [by intros a z Ha; unfold field_score; rewrite Ha|].
  split; [by intros a Ha; unfold field_score; rewrite Ha|].
  split.
  - rewrite <- (filter_field_score (λ s, (threshold ≤ s)%Z)).
    by apply filter_by_hot_score_filter.
  - destruct (sort_by_hot_score_stable articles true Hs)
      as (sorted & Hrun & Hperm & Hsorted & Hstable).
    exists sorted. split; [done|]. split; [done|]. split.
    + by apply (sorted_field_score (λ x y, (y ≤ x)%Z)).
    + intros z.
      transitivity (filter (λ a, score a = z) sorted);
        [apply list_filter_iff; intros a; by rewrite score_field|].
      rewrite Hstable. apply list_filter_iff. intros a.
      by rewrite score_field.
Qed.
End ScoreOps.

(* ================================================================== *)
(** * The report: grouping by category *)
(* ================================================================== *)

Section Grouping.
Import AIProcessor ReportGenerator.
Implicit Types (cat c : pystr) (article a : Article) (cats : buckets).

Lemma add_bucket_keys c cats :
  (add_bucket c cats).*1
  = cats.*1 ++ (if decide (c ∈ cats.*1) then [] else [c]).
Proof.
  unfold add_bucket. case_bool_decide; case_decide; try done.
  - by rewrite app_nil_r.
  - by rewrite fmap_app.
Qed.

Lemma add_bucket_elem c cats c' b :
  (c', b) ∈ add_bucket c cats
  ↔ (c', b) ∈ cats ∨ (c ∉ cats.*1) ∧ c' = c ∧ b = [].
Proof.
  unfold add_bucket. case_bool_decide as Hin.
  - split; [by left|]. by intros [?|[? _]].
  - rewrite elem_of_app, list_elem_of_singleton. split.
    + intros [?|[= -> ->]]; [by left|by right].
    + intros [?|(_ & -> & ->)]; [by left|by right].
Qed.

Lemma append_to_bucket_keys c a cats :
  (append_to_bucket c a cats).*1 = cats.*1.
Proof.
  unfold append_to_bucket. rewrite <- list_fmap_compose.
  apply list_fmap_ext. intros _ b _. simpl. by case_bool_decide.
Qed.

Lemma append_to_bucket_elem c a cats c' b' :
  (c', b') ∈ append_to_bucket c a cats
  ↔ ∃ b0, (c', b0) ∈ cats ∧ b' = if decide (c' = c) then b0 ++ [a] else b0.
Proof.
  unfold append_to_bucket. rewrite list_elem_of_fmap. split.
  - intros ([c0 b0] & Heq & Hin). simpl in Heq.
    case_bool_decide as Hc; simplify_eq.
    + exists b0. by rewrite decide_True.
    + exists b0. by rewrite decide_False.
  - intros (b0 & Hin & ->). exists (c', b0). split; [|done]. simpl.
    case_bool_decide; case_decide; done.
Qed.

Lemma append_to_bucket_absent c a cats :
  c ∉ cats.*1 → append_to_bucket c a cats = cats.
Proof.
  intros Hnot. unfold append_to_bucket.
  induction cats as [|[c0 b0] cats IH]; [done|].
  rewrite fmap_cons in Hnot. apply not_elem_of_cons in Hnot as [Hne Hnot].
  rewrite fmap_cons, IH by done. simpl in *.
  by rewrite bool_decide_eq_false_2 by done.
Qed.

Lemma append_to_bucket_sizes c a cats :
  NoDup cats.*1 → c ∈ cats.*1 →
  bucket_sizes (append_to_bucket c a cats) = S (bucket_sizes cats).
Proof.
  unfold bucket_sizes.
  induction cats as [|[c0 b0] cats IH]; intros Hnodup Hin.
  - by apply elem_of_nil in Hin.
  - rewrite fmap_cons in Hnodup, Hin. simpl in Hnodup, Hin.
    apply NoDup_cons in Hnodup as [Hfresh Hnodup].
    change (append_to_bucket c a ((c0, b0) :: cats))
      with ((if bool_decide (c0 = c) then (c0, b0 ++ [a]) else (c0, b0))
            :: append_to_bucket c a cats).
    case_bool_decide as Hc.
    + subst c0. rewrite append_to_bucket_absent by done.
      simpl. rewrite length_app. simpl. lia.
    + apply elem_of_cons in Hin as [->|Hin]; [done|].
      rewrite fmap_cons. csimpl. rewrite IH by done. lia.
Qed.

Lemma add_bucket_sizes c cats :
  bucket_sizes (add_bucket c cats) = bucket_sizes cats.
Proof.
  unfold add_bucket, bucket_sizes. case_bool_decide; [done|].
  rewrite fmap_app, sum_list_with_app. simpl. lia.
Qed.

Lemma group_step_keys c a cats :
  (group_step c a cats).*1
  = cats.*1 ++ (if decide (c ∈ cats.*1) then [] else [c]).
Proof. unfold group_step. by rewrite append_to_bucket_keys, add_bucket_keys. Qed.

Lemma group_step_NoDup c a cats :
  NoDup cats.*1 → NoDup (group_step c a cats).*1.
Proof.
  intros Hnodup. rewrite group_step_keys. case_decide.
  - by rewrite app_nil_r.
  - apply NoDup_app. split; [done|]. split; [|apply NoDup_singleton].
    intros c' Hc' ->%list_elem_of_singleton. done.
Qed.

Lemma group_step_sizes c a cats :
  NoDup cats.*1 → bucket_sizes (group_step c a cats) = S (bucket_sizes cats).
Proof.
  intros Hnodup. unfold group_step. rewrite append_to_bucket_sizes.
  - by rewrite add_bucket_sizes.
  - rewrite add_bucket_keys. case_decide; [by rewrite app_nil_r|].
    apply NoDup_app. split; [done|]. split; [|apply NoDup_singleton].
    intros c' Hc' ->%list_elem_of_singleton. done.
  - rewrite add_bucket_keys. apply elem_of_app.
    case_decide; [by left|right; by apply list_elem_of_singleton].
Qed.

Lemma group_step_elem c a cats c' b' :
  (c', b') ∈ group_step c a cats
  ↔ ∃ b0, ((c', b0) ∈ cats ∨ (c ∉ cats.*1) ∧ c' = c ∧ b0 = [])
          ∧ b' = if decide (c' = c) then b0 ++ [a] else b0.
Proof.
  unfold group_step. rewrite append_to_bucket_elem.
  by setoid_rewrite add_bucket_elem.
Qed.

Lemma forallb_is_Some {X Y} (f : X → option Y) (l : list X) :
  forallb (λ x, bool_decide (is_Some (f x))) l = true
  ↔ Forall (λ x, is_Some (f x)) l.
Proof.
  rewrite forallb_forall, Forall_forall. split; intros Hall x Hx.
  - apply list_elem_of_In in Hx. apply Hall in Hx.
    by apply bool_decide_eq_true in Hx.
  - apply list_elem_of_In in Hx. apply bool_decide_eq_true. by apply Hall.
Qed.

Lemma group_loop_returns articles : ∀ cats,
  categorized articles = true → is_Some (group_loop articles cats).
Proof.
  intros cats Hcat. apply forallb_is_Some in Hcat. revert cats.
  induction Hcat as [|a rest [c Hc] _ IH]; intros cats; simpl; [done|].
  rewrite Hc. simpl. apply IH.
Qed.

(** What a bucket holds after the loop: what it held before, followed
    by the articles of its category, in their order. *)
Lemma group_loop_contents articles : ∀ cats grouped,
  group_loop articles cats = Some grouped →
  ∀ c b, (c, b) ∈ grouped →
    ∃ b0, ((c, b0) ∈ cats ∨ (c ∉ cats.*1) ∧ b0 = [])
          ∧ b = b0 ++ filter (λ a, category_of a = Some c) articles.
Proof.
  induction articles as [|a rest IH]; intros cats grouped Hrun c b Hin.
  - simpl in Hrun. injection Hrun as <-. exists b.
    rewrite app_nil_r. split; [by left|done].
  - simpl in Hrun. destruct (category_of a) as [ca|] eqn:Hca; [|done].
    simpl in Hrun. fold (group_step ca a cats) in Hrun.
    destruct (IH _ _ Hrun c b Hin) as (b1 & Hb1 & ->).
    destruct (decide (c = ca)) as [->|Hne].
    + rewrite filter_cons_True by done.
      destruct Hb1 as [Hb1|[Hnew _]].
      * apply group_step_elem in Hb1 as (b0 & Hb0 & ->).
        rewrite decide_True by done. exists b0.
        rewrite <- app_assoc. split; [|done].
        destruct Hb0 as [?|(? & _ & ?)]; [by left|by right].
      * exfalso. apply Hnew. rewrite group_step_keys. apply elem_of_app.
        case_decide; [by left|right; by apply list_elem_of_singleton].
    + rewrite filter_cons_False by congruence.
      destruct Hb1 as [Hb1|[Hnew ->]].
      * apply group_step_elem in Hb1 as (b0 & Hb0 & ->).
        rewrite decide_False by done. exists b0. split; [|done].
        destruct Hb0 as [?|(_ & ? & _)]; [by left|done].
      * exists []. split; [|done]. right. split; [|done].
        intros Hc. apply Hnew. rewrite group_step_keys.
        apply elem_of_app. by left.
Qed.

(** The names of the buckets after the loop: those it started with,
    then the categories met that were not among them. *)
Lemma group_loop_keys articles : ∀ cats grouped,
  group_loop articles cats = Some grouped →
  ∃ extras,
    grouped.*1 = cats.*1 ++ extras ∧
    (NoDup cats.*1 → NoDup grouped.*1) ∧
    ∀ c, c ∈ extras ↔
         (∃ a, a ∈ articles ∧ category_of a = Some c) ∧ c ∉ cats.*1.
Proof.
  induction articles as [|a rest IH]; intros cats grouped Hrun.
  - simpl in Hrun. injection Hrun as <-. exists [].
    rewrite app_nil_r. split; [done|]. split; [done|].
    intros c. rewrite elem_of_nil. split; [done|].
    intros [(a & Ha & _) _]. by apply elem_of_nil in Ha.
  - simpl in Hrun. destruct (category_of a) as [ca|] eqn:Hca; [|done].
    simpl in Hrun. fold (group_step ca a cats) in Hrun.
    destruct (IH _ _ Hrun) as (extras & Hkeys & Hnodup & Hextras).
    rewrite group_step_keys in Hkeys, Hextras.
    exists ((if decide (ca ∈ cats.*1) then [] else [ca]) ++ extras).
    split; [by rewrite app_assoc|].
    split; [intros Hnd; by apply Hnodup, group_step_NoDup|].
    intros c. rewrite elem_of_app, Hextras. split.
    + intros [Hc|[(a' & Ha' & Hcat) Hnot]].
      * case_decide; [by apply elem_of_nil in Hc|].
        apply list_elem_of_singleton in Hc as ->.
        split; [|done]. exists a. split; [by left|done].
      * split; [exists a'; split; [by right|done]|].
        intros Hc. apply Hnot, elem_of_app. by left.
    + intros [(a' & Ha' & Hcat) Hnot].
      destruct (decide (c = ca)) as [->|Hne].
      * left. rewrite decide_False by done. by left.
      * right. apply elem_of_cons in Ha' as [->|Ha']; [congruence|].
        split; [by exists a'|].
        intros [Hc|Hc]%elem_of_app; [done|].
        case_decide; [by apply elem_of_nil in Hc|].
        by apply list_elem_of_singleton in Hc.
Qed.

Lemma group_loop_sizes articles : ∀ cats grouped,
  group_loop articles cats = Some grouped → NoDup cats.*1 →
  bucket_sizes grouped = bucket_sizes cats + length articles.
Proof.
  induction articles as [|a rest IH]; intros cats grouped Hrun Hnodup.
  - simpl in Hrun. injection Hrun as <-. simpl. lia.
  - simpl in Hrun. destruct (category_of a) as [ca|] eqn:Hca; [|done].
    simpl in Hrun. fold (group_step ca a cats) in Hrun.
    rewrite (IH _ _ Hrun) by (by apply group_step_NoDup).
    rewrite group_step_sizes by done. simpl. lia.
Qed.
End Grouping.

(* ================================================================== *)
(** * The report: buckets and statistics *)
(* ================================================================== *)

Section Report.
Import AIProcessor ReportGenerator.
Implicit Types (c : pystr) (cats : buckets) (articles : list Article).

Lemma sort_buckets_sorted cats :
  Forall (λ b, scored b.2 = true) cats →
  ∃ sorted, sort_buckets cats = Some sorted ∧
            Forall2 bucket_sorted cats sorted.
Proof.
  unfold sort_buckets.
  induction 1 as [|[c b] cats Hb _ (sorted & Hrun & Hall)]; simpl.
  - by exists [].
  - destruct (sort_by_hot_score_stable b true Hb)
      as (sb & Hsb & Hperm & Hsorted & _).
    rewrite Hsb. simpl. rewrite Hrun. simpl.
    exists ((c, sb) :: sorted). split; [done|].
    constructor; [|done]. by split.
Qed.

Lemma bucket_sorted_keys cats sorted :
  Forall2 bucket_sorted cats sorted → sorted.*1 = cats.*1.
Proof.
  induction 1 as [|g s cats sorted [Hkey _] _ IH]; [done|].
  rewrite !fmap_cons. by f_equal.
Qed.

Lemma bucket_sorted_sizes cats sorted :
  Forall2 bucket_sorted cats sorted → bucket_sizes sorted = bucket_sizes cats.
Proof.
  unfold bucket_sizes.
  induction 1 as [|g s cats sorted (_ & Hperm & _) _ IH]; [done|].
  rewrite !fmap_cons. csimpl. by rewrite IH, Hperm.
Qed.

Lemma bucket_sorted_elem cats sorted c sb :
  Forall2 bucket_sorted cats sorted → (c, sb) ∈ sorted →
  ∃ b, (c, b) ∈ cats ∧ sb ≡ₚ b ∧
       StronglySorted (λ a1 a2, (score a2 ≤ score a1)%Z) sb.
Proof.
  intros Hall [i Hi]%list_elem_of_lookup.
  destruct (Forall2_lookup_r _ _ _ _ _ Hall Hi)
    as ([c' b] & Hg & Hkey & Hperm & Hsorted).
  simpl in *. subst c'. exists b. split; [|done].
  apply list_elem_of_lookup. eauto.
Qed.

Lemma scored_filter (P : Article → Prop) `{∀ a, Decision (P a)} articles :
  scored articles = true → scored (filter P articles) = true.
Proof.
  rewrite !scored_Forall, !Forall_forall. intros Hall a Ha.
  apply list_elem_of_filter in Ha as [_ Ha]. by apply Hall.
Qed.

Lemma category_order_NoDup : NoDup category_order.
Proof. apply (bool_decide_unpack _). by vm_compute. Qed.

(** The buckets handed to the template. *)
Lemma report_buckets articles :
  categorized articles = true → scored articles = true →
  ∃ sorted extras,
    group_loop articles ((λ cat, (cat, [])) <$> category_order)
      ≫= sort_buckets = Some sorted ∧
    sorted.*1 = category_order ++ extras ∧
    NoDup sorted.*1 ∧
    (∀ c, c ∈ extras ↔
          (∃ a, a ∈ articles ∧ category_of a = Some c)
          ∧ c ∉ category_order) ∧
    (∀ c b, (c, b) ∈ sorted →
       b ≡ₚ filter (λ a, category_of a = Some c) articles ∧
       StronglySorted (λ a1 a2, (score a2 ≤ score a1)%Z) b) ∧
    bucket_sizes sorted = length articles.
Proof.
  intros Hcat Hscored.
  set (init := (λ cat, (cat, [])) <$> category_order).
  assert (Hinit : init.*1 = category_order).
  { unfold init. rewrite <- list_fmap_compose. apply list_fmap_id. }
  destruct (group_loop_returns articles init Hcat) as [grouped Hrun].
  destruct (group_loop_keys _ _ _ Hrun) as (extras & Hkeys & Hnodup & Hex).
  rewrite Hinit in Hkeys, Hnodup, Hex.
  pose proof (group_loop_contents _ _ _ Hrun) as Hcontents.
  assert (Hbucket : ∀ c b, (c, b) ∈ grouped →
            b = filter (λ a, category_of a = Some c) articles).
  { intros c b Hin. destruct (Hcontents c b Hin) as (b0 & Hb0 & ->).
    destruct Hb0 as [Hb0|[_ ->]]; [|done].
    unfold init in Hb0. apply list_elem_of_fmap in Hb0 as (? & [= _ ->] & _).
    done. }
  destruct (sort_buckets_sorted grouped) as (sorted & Hsort & Hall).
  { apply Forall_forall. intros [c b] Hin. simpl.
    rewrite (Hbucket c b Hin). by apply scored_filter. }
  exists sorted, extras. rewrite Hrun. simpl.
  rewrite (bucket_sorted_keys _ _ Hall), (bucket_sorted_sizes _ _ Hall).
  split; [done|]. split; [done|].
  split; [apply Hnodup, category_order_NoDup|].
  split; [done|]. split.
  - intros c sb Hin.
    destruct (bucket_sorted_elem _ _ _ _ Hall Hin)
      as (b0 & Hb0 & Hperm & Hsorted).
    split; [|done]. by rewrite Hperm, (Hbucket _ _ Hb0).
  - rewrite (group_loop_sizes _ _ _ Hrun).
    + by unfold init.
    + rewrite Hinit. apply category_order_NoDup.
Qed.

Lemma mapM_omap {X Y} (f : X → option Y) (l : list X) (k : list Y) :
  mapM f l = Some k → omap f l = k.
Proof.
  intros Hall%mapM_Some_1.
  induction Hall as [|x y l k Hx _ IH]; [done|].
  csimpl. rewrite Hx. by f_equal.
Qed.

Lemma mapM_hot_score_of articles :
  scored articles = true →
  mapM hot_score_of articles = Some (score <$> articles).
Proof.
  intros Hs%scored_Forall. apply mapM_Some_2, Forall2_fmap_r.
  apply Forall_Forall2_diag. eapply Forall_impl; [exact Hs|].
  intros a Ha. by apply hot_score_of_score.
Qed.

(** The average, from the scores the articles hold. *)
Lemma average_quotient articles :
  scored articles = true →
  average articles
  = match articles with
    | [] => Some (VInt 0)
    | _ => VFloat <$> py_true_divide (sum_of_scores articles)
                                     (Z.of_nat (length articles))
    end.
Proof.
  intros Hs. destruct articles as [|a rest]; [done|].
  unfold average. rewrite (mapM_hot_score_of _ Hs). simpl.
  by rewrite sum_of_scores_score.
Qed.

Lemma average_returns articles :
  scored articles = true → mean_fits articles = true →
  ∃ avg, average articles = Some avg.
Proof.
  intros Hs Hfits. rewrite (average_quotient _ Hs).
  destruct articles as [|a rest]; [by eexists|].
  apply bool_decide_eq_true in Hfits as [f Hf]. rewrite Hf. by eexists.
Qed.

Lemma average_overflows articles :
  scored articles = true → mean_fits articles = false →
  average articles = None.
Proof.
  intros Hs Hfits. rewrite (average_quotient _ Hs).
  destruct articles as [|a rest]; [done|].
  apply bool_decide_eq_false in Hfits.
  destruct (py_true_divide _ _) as [f|]; [|done].
  destruct Hfits. by eexists.
Qed.

Lemma size_list_to_set_remove_dups (names : list pystr) :
  size (list_to_set names : gset pystr) = length (remove_dups names).
Proof.
  rewrite <- (size_list_to_set (C:=gset pystr) (remove_dups names))
    by apply NoDup_remove_dups.
  f_equal. apply set_eq. intros x.
  by rewrite !elem_of_list_to_set, elem_of_remove_dups.
Qed.

Lemma count_sources_distinct articles :
  sourced articles = true →
  count_sources articles
  = Some (length (remove_dups (omap source_of articles))).
Proof.
  intros Hs%forallb_is_Some. unfold count_sources.
  destruct (mapM_is_Some_2 source_of articles Hs) as [names Hnames].
  rewrite Hnames. simpl. rewrite (mapM_omap _ _ _ Hnames).
  by rewrite size_list_to_set_remove_dups.
Qed.

(** The buckets that are not empty are those of the categories that
    occur. *)
Lemma count_categories_distinct articles sorted extras :
  categorized articles = true →
  sorted.*1 = category_order ++ extras →
  NoDup sorted.*1 →
  (∀ c, c ∈ extras ↔
        (∃ a, a ∈ articles ∧ category_of a = Some c) ∧ c ∉ category_order) →
  (∀ c b, (c, b) ∈ sorted →
     b ≡ₚ filter (λ a, category_of a = Some c) articles) →
  count_categories sorted
  = length (remove_dups (omap category_of articles)).
Proof.
  intros Hcat Hkeys Hnodup Hextras Hbuckets. unfold count_categories.
  rewrite <- (length_fmap fst). apply Permutation_length, NoDup_Permutation.
  - eapply sublist_NoDup; [exact Hnodup|].
    apply (fmap_sublist fst), sublist_filter.
  - apply NoDup_remove_dups.
  - intros c. rewrite elem_of_remove_dups, list_elem_of_omap. split.
    + intros ([c' b] & -> & [Hne Hin]%list_elem_of_filter)%list_elem_of_fmap.
      simpl in *. pose proof (Hbuckets _ _ Hin) as Hperm.
      destruct b as [|a b]; [done|].
      assert (a ∈ filter (λ a, category_of a = Some c') articles) as Ha.
      { rewrite <- Hperm. by left. }
      apply list_elem_of_filter in Ha as [Hc Ha]. by exists a.
    + intros (a & Ha & Hc).
      assert (c ∈ sorted.*1) as Hin.
      { rewrite Hkeys, elem_of_app.
        destruct (decide (c ∈ category_order)); [by left|right].
        apply Hextras. split; [by exists a|done]. }
      apply list_elem_of_fmap in Hin as ([c' b] & -> & Hin). simpl in *.
      apply list_elem_of_fmap. exists (c', b). split; [done|].
      apply list_elem_of_filter. split; [|done]. simpl. intros ->.
      pose proof (Hbuckets _ _ Hin) as Hperm.
      symmetry in Hperm. apply Permutation_nil_r in Hperm.
      assert (a ∈ filter (λ a, category_of a = Some c') articles) as Hmem.
      { apply list_elem_of_filter. done. }
      rewrite Hperm in Hmem. by apply elem_of_nil in Hmem.
Qed.

Lemma reportable_parts articles :
  reportable articles = true →
  categorized articles = true ∧ scored articles = true
  ∧ sourced articles = true.
Proof.
  unfold reportable. intros [[? ?]%andb_prop ?]%andb_prop. done.
Qed.

(** The report, in the words of the functions that read the fields. *)
Lemma report_by_accessors articles :
  reportable articles = true → mean_fits articles = true →
  ∃ r extras,
    generate_report articles = Some r ∧
    average articles = Some (avg_hot_score r) ∧
    total_articles r = length articles ∧
    (categories r).*1 = category_order ++ extras ∧
    NoDup (categories r).*1 ∧
    (∀ c, c ∈ extras ↔
          (∃ a, a ∈ articles ∧ category_of a = Some c)
          ∧ c ∉ category_order) ∧
    (∀ c b, (c, b) ∈ categories r →
       b ≡ₚ filter (λ a, category_of a = Some c) articles ∧
       StronglySorted (λ a1 a2, (score a2 ≤ score a1)%Z) b) ∧
    bucket_sizes (categories r) = length articles ∧
    total_sources r = length (remove_dups (omap source_of articles)) ∧
    total_categories r = count_categories (categories r) ∧
    total_categories r = length (remove_dups (omap category_of articles)).
Proof.
  intros (Hcat & Hscored & Hsourced)%reportable_parts Hfits.
  destruct (report_buckets articles Hcat Hscored)
    as (sorted & extras & Hrun & Hkeys & Hnodup & Hextras & Hbuckets & Hsize).
  destruct (average_returns articles Hscored Hfits) as (avg & Havg).
  unfold generate_report.
  destruct (group_loop articles _) as [grouped|]; [|done]. simpl in Hrun |- *.
  rewrite Hrun, Havg, (count_sources_distinct _ Hsourced). simpl.
  eexists _, extras. split; [done|]. simpl.
  repeat (split; [done|]).
  eapply count_categories_distinct; try done.
  intros c b Hin. by destruct (Hbuckets c b Hin).
Qed.

Lemma omap_total {X Y} (f : X → option Y) (g : X → Y) (l : list X) :
  Forall (λ x, f x = Some (g x)) l → omap f l = g <$> l.
Proof.
  induction 1 as [|x l Hx _ IH]; [done|].
  csimpl. rewrite Hx. simpl. by rewrite IH.
Qed.

(** The same, in the words of the fields. *)
Lemma report_by_fields articles :
  presentable articles = true →
  ∃ r extras,
    generate_report articles = Some r ∧
    average articles = Some (avg_hot_score r) ∧
    total_articles r = length articles ∧
    (categories r).*1 = category_order ++ extras ∧
    NoDup (categories r).*1 ∧
    (∀ c, c ∈ extras ↔
          (∃ a, a ∈ articles ∧ field_category a = c) ∧ c ∉ category_order) ∧
    (∀ c b, (c, b) ∈ categories r →
       b ≡ₚ filter (λ a, field_category a = c) articles ∧
       StronglySorted (λ a1 a2, (field_score a2 ≤ field_score a1)%Z) b) ∧
    bucket_sizes (categories r) = length articles ∧
    total_sources r = length (remove_dups (field_source <$> articles)) ∧
    total_categories r = count_categories (categories r) ∧
    total_categories r = length (remove_dups (field_category <$> articles)).
Proof.
  intros (Hlabel & Hint & Hfits & Hrep)%presentable_parts.
  destruct (report_by_accessors articles Hrep Hfits)
    as (r & extras & Hrun & Havg & Htotal & Hkeys & Hnodup & Hextras
        & Hbuckets & Hsize & Hsources & Hcount & Hcats).
  pose proof (text_labelled_Forall _ Hlabel) as Hfields.
  exists r, extras. repeat (split; [done|]).
  split; [|split; [|split; [done|split; [|split; [done|]]]]].
  - intros c. rewrite Hextras. split; intros [(a & Ha & Hc) Hnot];
      (split; [|done]); exists a; (split; [done|]);
      rewrite Forall_forall in Hfields; destruct (Hfields a Ha) as [Hcat _].
    + rewrite Hcat in Hc. by injection Hc.
    + by rewrite Hcat, Hc.
  - intros c b Hin. destruct (Hbuckets c b Hin) as [Hperm Hsorted].
    split.
    + by rewrite <- filter_field_category.
    + by apply (sorted_field_score (λ x y, (y ≤ x)%Z)).
  - rewrite Hsources. f_equal. f_equal. apply omap_total.
    eapply Forall_impl; [exact Hfields|]. by intros a [_ ?].
  - rewrite Hcats. f_equal. f_equal. apply omap_total.
    eapply Forall_impl; [exact Hfields|]. by intros a [? _].
Qed.

(** [generate_report] raises when the average does. *)
Lemma report_overflows articles :
  scored articles = true → mean_fits articles = false →
  generate_report articles = None.
Proof.
  intros Hs Hfits. unfold generate_report.
  rewrite (average_overflows _ Hs Hfits).
  destruct (group_loop _ _) as [grouped|]; [|done]. simpl.
  by destruct (sort_buckets grouped).
Qed.

(** C7.  On articles that hold a [str] or nothing under ['category']
    and ['source'], an [int] or nothing under ['hot_score'], and whose
    average fits a float, [generate_report] builds buckets with
    distinct names: the five categories of [category_order], in that
    order, followed by the other categories that the articles hold.
    The category of an article is the [str] it holds under ['category'],
    the fallback category when it holds none.  Every bucket holds, up
    to order, exactly the articles of its category, so each article is
    in the one bucket named by its category and the sizes add up to the
    number of articles; in every bucket the scores the articles hold
    never increase. *)
Theorem report_partitions_by_category articles :
  presentable articles = true →
  ∃ r extras,
    generate_report articles = Some r ∧
    (categories r).*1 = category_order ++ extras ∧
    NoDup (categories r).*1 ∧
    (∀ c, c ∈ extras ↔
          (∃ a, a ∈ articles ∧ field_category a = c)
          ∧ c ∉ category_order) ∧
    (∀ (a : Article) c, a !! "category" = Some (VStr c) →
                        field_category a = c) ∧
    (∀ a : Article, a !! "category" = None →
                    field_category a = fallback_category) ∧
    (∀ a, a ∈ articles →
       ∃ b, (field_category a, b) ∈ categories r ∧ a ∈ b) ∧
    (∀ c b, (c, b) ∈ categories r →
       b ≡ₚ filter (λ a, field_category a = c) articles ∧
       StronglySorted (λ a1 a2, (field_score a2 ≤ field_score a1)%Z) b) ∧
    bucket_sizes (categories r) = length articles.
Proof.
  intros Hpres.
  destruct (report_by_fields articles Hpres)
    as (r & extras & Hrun & _ & _ & Hkeys & Hnodup & Hextras
        & Hbuckets & Hsize & _).
  exists r, extras. repeat (split; [done|]).
  split; [|split; [|split; [|done]]].
  - intros a c Hc. unfold field_category, field_text. by rewrite Hc.
  - intros a Hc. unfold field_category, field_text. by rewrite Hc.
  - intros a Ha.
    assert (field_category a ∈ (categories r).*1) as Hin.
    { rewrite Hkeys, elem_of_app.
      destruct (decide (field_category a ∈ category_order)); [by left|right].
      apply Hextras. split; [by exists a|done]. }
    apply list_elem_of_fmap in Hin as ([c b] & Hc & Hin). simpl in Hc.
    subst c. exists b. split; [done|].
    destruct (Hbuckets _ _ Hin) as [Hperm _]. rewrite Hperm.
    by apply list_elem_of_filter.
Qed.

(** C6, as amended.  On articles that hold a [str] or nothing under
    ['category'] and ['source'] and an [int] or nothing under
    ['hot_score'], [generate_report] raises when the quotient of the
    sum of the scores by the number of articles is too large for a
    float.  Otherwise its statistics are: the number of articles; an
    average that is the [int] 0 for the empty list and otherwise the
    float that the division of the sum of the scores by their number
    gives, which is the arithmetic mean itself when the mean is an
    integer below 2^53 in magnitude; the number of distinct texts held
    under ['source'] (the empty text for an article that holds none);
    the number of buckets that are not empty, which is the number of
    distinct categories of the articles. *)
Theorem report_statistics articles :
  text_labelled articles = true →
  int_scored articles = true →
  (mean_fits articles = false → generate_report articles = None) ∧
  (mean_fits articles = true →
   ∃ r,
     generate_report articles = Some r ∧
     total_articles r = length articles ∧
     (articles = [] → avg_hot_score r = VInt 0) ∧
     (articles ≠ [] →
      ∃ f, py_true_divide (sum_of_scores articles)
                          (Z.of_nat (length articles)) = Some f ∧
           avg_hot_score r = VFloat f) ∧
     (∀ k : Z, articles ≠ [] →
        sum_of_scores articles = (k * Z.of_nat (length articles))%Z →
        (Z.abs k < 2 ^ 53)%Z →
        avg_hot_score r = VFloat (float_of_int k) ∧
        number_value (avg_hot_score r) = Some (Qc_of_Z k)) ∧
     total_sources r = length (remove_dups (field_source <$> articles)) ∧
     total_categories r = length (filter (λ b, b.2 ≠ []) (categories r)) ∧
     total_categories r
       = length (remove_dups (field_category <$> articles))).
Proof.
  intros Hlabel Hint. pose proof (int_scored_scored _ Hint) as Hscored.
  split; [by apply report_overflows|]. intros Hfits.
  destruct (report_by_fields articles)
    as (r & extras & Hrun & Havg & Htotal & _ & _ & _ & _ & _
        & Hsources & Hcount & Hcats).
  { unfold presentable. by rewrite Hlabel, Hint, Hfits. }
  rewrite (average_quotient _ Hscored) in Havg.
  exists r. split; [done|]. split; [done|].
  split; [|split; [|split; [|done]]].
  - intros ->. by injection Havg.
  - intros Hne. destruct articles as [|a rest]; [done|].
    destruct (py_true_divide _ _) as [f|]; [|done].
    exists f. split; [done|]. by injection Havg.
  - intros k Hne Hsum Hk. destruct articles as [|a rest]; [done|].
    rewrite Hsum, py_true_divide_exact in Havg by (done || simpl; lia).
    injection Havg as <-. split; [done|]. simpl.
    by apply float_of_int_value.
Qed.
End Report.

(* ================================================================== *)
(** * The analysis of one article *)
(* ================================================================== *)

Section Analysis.
Import AIProcessor.
Context `{Externals}.
Implicit Types (a article : Article) (an analysis : pydict) (w : World).
#[local] Arguments build_analysis : simpl never.
#[local] Arguments _get_default_analysis : simpl never.
#[local] Arguments clean_reply : simpl never.
#[local] Arguments strip : simpl never.

Lemma summarized_parts a :
  summarized a = true →
  (∃ s, a !! "summary" = Some s) ∧ has_list_tags a = true.
Proof.
  unfold summarized. intros [Hs Ht]%andb_prop.
  by apply bool_decide_eq_true in Hs.
Qed.

Lemma fetched_parts a :
  fetched a = true →
  summarized a = true ∧ ∃ t, a !! "title" = Some (VStr t).
Proof.
  unfold fetched. intros [Hs Ht]%andb_prop. split; [done|].
  destruct (a !! "title") as [[]|]; try done. by eexists.
Qed.

(** The default analysis, field by field. *)
Lemma default_analysis_fields a s :
  a !! "summary" = Some s → has_list_tags a = true →
  _get_default_analysis a
  = Some (<["category" := VStr fallback_category]>
          (<["summary" := s]>
          (<["hot_score" := VInt 50]>
          (<["keywords" := first_tags a]>
          (<["reasoning" := VStr unavailable_marker]> ∅))))).
Proof.
  intros Hs Ht. unfold _get_default_analysis, first_tags, has_list_tags in *.
  rewrite Hs. simpl.
  destruct (a !! "tags") as [[| | | | |l| |]|]; simpl; try done.
  by destruct l.
Qed.

Lemma five_fields_other (k : string) (v1 v2 v3 v4 v5 : pyval) :
  k ∉ analysis_keys →
  (<["category" := v1]> (<["summary" := v2]> (<["hot_score" := v3]>
    (<["keywords" := v4]> (<["reasoning" := v5]> (∅ : pydict)))))) !! k
  = None.
Proof.
  unfold analysis_keys. intros Hk.
  repeat (rewrite lookup_insert_ne;
          [|intros <-; apply Hk; repeat constructor]).
  apply lookup_empty.
Qed.

Lemma default_analysis_well_formed a an :
  _get_default_analysis a = Some an →
  well_formed_analysis an ∧ an !! "hot_score" = Some (VInt 50).
Proof.
  unfold _get_default_analysis. intros Hdef.
  destruct (a !! "summary") as [s|]; [|done]. simpl in Hdef.
  destruct (if py_truthy _ then _ else _) as [kw|]; [|done].
  injection Hdef as <-. split; [|done]. split; [|split].
  - intros k Hk. by apply five_fields_other.
  - by eexists.
  - exists 50%Z. split; [done|lia].
Qed.

Lemma build_analysis_well_formed result a an :
  build_analysis result a = Some an → well_formed_analysis an.
Proof.
  unfold build_analysis. intros Hbuild.
  destruct result as [| | | | | |d|]; try done.
  destruct (a !! "summary") as [s|]; [|done]. simpl in Hbuild.
  destruct (py_slice_to 100 s) as [short|]; [|done]. simpl in Hbuild.
  destruct (py_int _) as [v|]; [|done]. simpl in Hbuild.
  destruct (py_slice_to 5 _) as [kw|]; [|done].
  injection Hbuild as <-. split; [|split].
  - intros k Hk. by apply five_fields_other.
  - by eexists.
  - eexists. split; [done|lia].
Qed.

Lemma build_analysis_missing_score d a an :
  d !! "hot_score" = None →
  build_analysis (VDict d) a = Some an → an !! "hot_score" = Some (VInt 50).
Proof.
  unfold build_analysis. intros Hnone Hbuild. rewrite Hnone in Hbuild.
  destruct (a !! "summary") as [s|]; [|done]. simpl in Hbuild.
  destruct (py_slice_to 100 s) as [short|]; [|done]. simpl in Hbuild.
  destruct (py_slice_to 5 _) as [kw|]; [|done].
  by injection Hbuild as <-.
Qed.

(** [_analyze_article] returns on every article that has a default
    analysis; it leaves the store alone, makes at most one request
    (none without a key) and returns a well-formed analysis. *)
Lemma analyze_article_returns self a w :
  summarized a = true →
  ∃ an w',
    _analyze_article self a w = Some (an, w') ∧
    heap w' = heap w ∧
    (no_api_key self = true → calls w' = calls w) ∧
    well_formed_analysis an.
Proof.
  intros [[s Hs] Ht]%summarized_parts.
  pose proof (default_analysis_fields a s Hs Ht) as Hdef.
  destruct (default_analysis_well_formed _ _ Hdef) as [Hwf _].
  unfold _analyze_article. destruct (no_api_key self).
  { unfold lift. rewrite Hdef. eexists _, w. done. }
  unfold bind, try_analysis.
  destruct (_create_analysis_prompt a) as [prompt|]; simpl.
  2: { unfold lift. rewrite Hdef. eexists _, w. done. }
  unfold bind, request, ret, lift. simpl.
  destruct (post (calls w)) as [|text]; simpl.
  { rewrite Hdef. eexists _, _. done. }
  destruct (parse_reply text a) as [an|] eqn:Hparse.
  - eexists _, _. split; [done|]. split; [done|]. split; [done|].
    unfold parse_reply in Hparse. destruct text; try done.
    destruct (json_loads _) as [result|]; [|done]. simpl in Hparse.
    by eapply build_analysis_well_formed.
  - rewrite Hdef. eexists _, _. done.
Qed.

Lemma build_analysis_bad_score d a v :
  d !! "hot_score" = Some v → py_int v = None →
  build_analysis (VDict d) a = None.
Proof.
  unfold build_analysis. intros Hv Hint. rewrite Hv. simpl. rewrite Hint.
  destruct (a !! "summary") as [s|]; [|done]. simpl.
  by destruct (py_slice_to 100 s).
Qed.

(** A reply that cannot be decoded, one without a score, or one with a
    score that [int] rejects, leaves the score at 50. *)
Lemma analyze_article_default_score self a w text :
  summarized a = true →
  post (calls w) = Content (VStr text) →
  json_loads (clean_reply (strip text)) = None
  ∨ (∃ d, json_loads (clean_reply (strip text)) = Some (VDict d)
          ∧ d !! "hot_score" = None)
  ∨ (∃ d v, json_loads (clean_reply (strip text)) = Some (VDict d)
            ∧ d !! "hot_score" = Some v ∧ py_int v = None) →
  ∃ an w', _analyze_article self a w = Some (an, w') ∧
           an !! "hot_score" = Some (VInt 50).
Proof.
  intros [[s Hs] Ht]%summarized_parts Hpost Hreply.
  pose proof (default_analysis_fields a s Hs Ht) as Hdef.
  unfold _analyze_article. destruct (no_api_key self).
  { unfold lift. rewrite Hdef. eexists _, w. done. }
  unfold bind, try_analysis.
  destruct (_create_analysis_prompt a) as [prompt|]; simpl.
  2: { unfold lift. rewrite Hdef. eexists _, w. done. }
  unfold bind, request, ret, lift. simpl. rewrite Hpost. simpl.
  destruct Hreply as [Hnone|[(d & Hsome & Hmissing)|(d & v & Hsome & Hv & Hint)]].
  - rewrite Hnone. simpl. rewrite Hdef. eexists _, _. done.
  - rewrite Hsome. simpl.
    destruct (build_analysis (VDict d) a) as [an|] eqn:Hbuild.
    + eexists _, _. split; [done|].
      by eapply build_analysis_missing_score.
    + rewrite Hdef. eexists _, _. done.
  - rewrite Hsome. simpl. rewrite (build_analysis_bad_score d a v Hv Hint).
    rewrite Hdef. eexists _, _. done.
Qed.
End Analysis.

(* ================================================================== *)
(** * The classifier over the store *)
(* ================================================================== *)

Section Store.
Import AIProcessor.
Context `{Externals}.
Implicit Types (a : Article) (an : pydict) (w : World) (r : loc).
#[local] Arguments _get_default_analysis : simpl never.
#[local] Arguments _analyze_article : simpl never.

Lemma evolves_refl w : evolves w w.
Proof. intros r. done. Qed.

Lemma evolves_trans w1 w2 w3 : evolves w1 w2 → evolves w2 w3 → evolves w1 w3.
Proof.
  intros H12 H23 r. destruct (H12 r) as (Hk & Hs & Hr).
  destruct (H23 r) as (Hk' & Hs' & Hr'). split; [|split].
  - intros k Hnot. by rewrite Hk', Hk.
  - auto.
  - auto.
Qed.

Lemma tags_not_analysis : "tags" ∉ analysis_keys.
Proof. apply (bool_decide_unpack _). by vm_compute. Qed.

Lemma title_not_analysis : "title" ∉ analysis_keys.
Proof. apply (bool_decide_unpack _). by vm_compute. Qed.

Lemma evolves_summarized w w' r :
  evolves w w' → summarized (heap w r) = true →
  summarized (heap w' r) = true.
Proof.
  intros Hev [Hs Ht]%andb_prop. destruct (Hev r) as (Hk & Hsum & _).
  apply andb_true_intro. split.
  - apply bool_decide_eq_true. apply bool_decide_eq_true in Hs. auto.
  - unfold has_list_tags in *. by rewrite (Hk _ tags_not_analysis).
Qed.

Lemma evolves_fetched w w' r :
  evolves w w' → fetched (heap w r) = true → fetched (heap w' r) = true.
Proof.
  intros Hev [Hs Ht]%andb_prop. apply andb_true_intro. split.
  - by eapply evolves_summarized.
  - destruct (Hev r) as (Hk & _ & _). by rewrite (Hk _ title_not_analysis).
Qed.

(** [article.update(analysis)] with a well-formed analysis. *)
Lemma update_evolves r an w :
  well_formed_analysis an →
  ∃ w', update r an w = Some ((), w') ∧
        heap w' r = an ∪ heap w r ∧
        (∀ r', r' ≠ r → heap w' r' = heap w r') ∧
        calls w' = calls w ∧
        evolves w w' ∧ score_in_range (heap w' r).
Proof.
  intros (Hother & [s Hs] & (z & Hz & Hrange)).
  eexists. split; [done|]. simpl.
  rewrite decide_True by done. split; [done|].
  split; [intros r' Hr'; by rewrite decide_False|]. split; [done|].
  split.
  - intros r'. simpl. destruct (decide (r' = r)) as [->|]; [|done].
    split; [|split].
    + intros k Hk. by rewrite lookup_union_r by auto.
    + intros _. exists s. by apply lookup_union_Some_l.
    + intros _. exists z. split; [|done]. by apply lookup_union_Some_l.
  - exists z. split; [|done]. by apply lookup_union_Some_l.
Qed.

Lemma process_batch_loop_spec self articles : ∀ processed w,
  Forall (λ r, fetched (heap w r) = true) articles →
  ∃ w', process_batch_loop self articles processed w
          = Some (processed ++ articles, w') ∧
        evolves w w' ∧
        ∀ r, r ∈ articles → score_in_range (heap w' r).
Proof.
  induction articles as [|r rest IH]; intros processed w Hall.
  - exists w. simpl. rewrite app_nil_r. split; [done|].
    split; [apply evolves_refl|]. intros r Hr. by apply elem_of_nil in Hr.
  - apply Forall_cons in Hall as [Hr Hrest].
    destruct (fetched_parts _ Hr) as [Hsum [t Ht]].
    destruct (analyze_article_returns self (heap w r) w Hsum)
      as (an & w1 & Han & Hheap & _ & Hwf).
    destruct (update_evolves r an w1 Hwf)
      as (w2 & Hupd & _ & _ & _ & Hev & Hscore).
    assert (Hev' : evolves w w2).
    { intros r'. destruct (Hev r') as (? & ? & ?). by rewrite <- Hheap. }
    destruct (IH (processed ++ [r]) w2) as (w' & Hloop & Hev2 & Hin).
    { eapply Forall_impl; [exact Hrest|]. simpl. intros r'.
      by apply evolves_fetched. }
    exists w'. split; [|split].
    + simpl. unfold bind at 1. unfold read. unfold bind at 1.
      rewrite Ht. simpl. unfold bind at 1. rewrite Han.
      unfold bind at 1. rewrite Hupd. rewrite Hloop.
      by rewrite <- app_assoc.
    + by eapply evolves_trans.
    + intros r' [->|Hr']%elem_of_cons; [|by apply Hin].
      by apply (Hev2 r).
Qed.

(** The batches of [process_all], put end to end, are the list. *)
Lemma batches_prefix {X} (l : list X) (step m : nat) :
  concat ((λ i, take step (drop i l)) <$> ((λ k, k * step) <$> seq 0 m))
  = take (m * step) l.
Proof.
  induction m as [|m IH]; [done|].
  rewrite seq_S, !fmap_app, concat_app, IH. simpl.
  rewrite app_nil_r, take_take_drop. f_equal. lia.
Qed.

Lemma batches_cover {X} (l : list X) (step : nat) :
  0 < step →
  concat ((λ i, take step (drop i l)) <$> py_range_step (length l) step) = l.
Proof.
  intros Hstep. unfold py_range_step. rewrite batches_prefix.
  apply take_ge.
  pose proof (Nat.div_mod_eq (length l + step - 1) step) as Hdiv.
  pose proof (Nat.mod_upper_bound (length l + step - 1) step) as Hmod.
  rewrite (Nat.mul_comm _ step). lia.
Qed.

Lemma batches_loop_spec self articles starts : ∀ all_processed w,
  Forall (λ r, fetched (heap w r) = true) articles →
  ∃ w', batches_loop self starts articles all_processed w
          = Some (all_processed
                  ++ concat ((λ i, take batch_size (drop i articles))
                             <$> starts), w') ∧
        evolves w w' ∧
        ∀ r, r ∈ concat ((λ i, take batch_size (drop i articles)) <$> starts)
             → score_in_range (heap w' r).
Proof.
  induction starts as [|i rest IH]; intros acc w Hall.
  - exists w. simpl. rewrite app_nil_r. split; [done|].
    split; [apply evolves_refl|]. intros r Hr. by apply elem_of_nil in Hr.
  - set (batch := take batch_size (drop i articles)).
    assert (Hbatch : Forall (λ r, fetched (heap w r) = true) batch).
    { unfold batch. by apply Forall_take, Forall_drop. }
    destruct (process_batch_loop_spec self batch [] w Hbatch)
      as (w1 & Hrun & Hev1 & Hin1).
    destruct (IH (acc ++ batch) w1) as (w' & Hloop & Hev2 & Hin2).
    { eapply Forall_impl; [exact Hall|]. simpl. intros r.
      by apply evolves_fetched. }
    exists w'. split; [|split].
    + simpl. fold batch. unfold bind at 1. unfold process_batch.
      rewrite Hrun. simpl. rewrite Hloop. by rewrite <- app_assoc.
    + by eapply evolves_trans.
    + rewrite fmap_cons. simpl. fold batch.
      intros r [Hr|Hr]%elem_of_app; [|by apply Hin2].
      by apply (Hev2 r), Hin1.
Qed.

Lemma union_twice (m a : pydict) : m ∪ (m ∪ a) = m ∪ a.
Proof.
  apply map_eq. intros k. destruct (m !! k) as [v|] eqn:Hk.
  - by rewrite !(lookup_union_Some_l _ _ _ v).
  - by rewrite !lookup_union_r.
Qed.

(** The default analysis of an article does not change when it is
    written on the article. *)
Lemma with_default_again a :
  summarized a = true →
  ∃ an, _get_default_analysis a = Some an ∧
        with_default a = an ∪ a ∧
        _get_default_analysis (an ∪ a) = Some an ∧
        summarized (an ∪ a) = true.
Proof.
  intros Hsum. destruct (summarized_parts _ Hsum) as [[s Hs] Ht].
  pose proof (default_analysis_fields a s Hs Ht) as Hdef.
  eexists. split; [exact Hdef|]. unfold with_default. rewrite Hdef.
  split; [done|].
  set (an := <["category" := _]> _) in *.
  assert (Hs' : (an ∪ a) !! "summary" = Some s).
  { by apply lookup_union_Some_l. }
  assert (Htags : (an ∪ a) !! "tags" = a !! "tags").
  { by apply lookup_union_r. }
  assert (Ht' : has_list_tags (an ∪ a) = true).
  { unfold has_list_tags in *. by rewrite Htags. }
  split.
  - rewrite (default_analysis_fields _ s Hs' Ht').
    unfold first_tags. by rewrite Htags.
  - apply andb_true_intro. split; [|done].
    apply bool_decide_eq_true. by eexists.
Qed.

Lemma with_default_idemp a :
  summarized a = true → with_default (with_default a) = with_default a.
Proof.
  intros Hsum.
  destruct (with_default_again a Hsum) as (an & _ & -> & Hagain & _).
  unfold with_default. rewrite Hagain. apply union_twice.
Qed.

Lemma default_loop_spec articles : ∀ w,
  Forall (λ r, summarized (heap w r) = true) articles →
  ∃ w', default_loop articles w = Some ((), w') ∧
        calls w' = calls w ∧
        ∀ r, heap w' r = if decide (r ∈ articles)
                         then with_default (heap w r) else heap w r.
Proof.
  induction articles as [|r0 rest IH]; intros w Hall.
  - exists w. split; [done|]. split; [done|]. intros r.
    rewrite decide_False; [done|]. apply not_elem_of_nil.
  - apply Forall_cons in Hall as [Hr0 Hrest].
    destruct (with_default_again _ Hr0) as (an & Hdef & Hwith & _ & Hsum').
    destruct (default_analysis_well_formed _ _ Hdef) as [Hwf _].
    destruct (update_evolves r0 an w Hwf)
      as (w1 & Hupd & Hat & Hother & Hcalls & _ & _).
    rewrite <- Hwith in Hat.
    destruct (IH w1) as (w' & Hloop & Hcalls' & Hheap).
    { apply Forall_forall. intros r Hr. rewrite Forall_forall in Hrest.
      destruct (decide (r = r0)) as [->|Hne].
      - rewrite Hat, Hwith. done.
      - rewrite Hother by done. by apply Hrest. }
    exists w'. split; [|split].
    + simpl. unfold bind at 1. unfold read. unfold bind at 1.
      unfold lift. rewrite Hdef. unfold bind at 1. by rewrite Hupd.
    + congruence.
    + intros r. rewrite Hheap.
      destruct (decide (r = r0)) as [->|Hne].
      * rewrite Hat. rewrite (decide_True (P:=r0 ∈ r0 :: rest))
          by (by left).
        case_decide; [by apply with_default_idemp|done].
      * rewrite Hother by done.
        destruct (decide (r ∈ rest)) as [Hin|Hnot].
        -- by rewrite decide_True by (by right).
        -- rewrite decide_False; [done|].
           by intros [?|?]%elem_of_cons.
Qed.

Lemma forallb_Forall_true {X} (f : X → bool) (l : list X) :
  forallb f l = true ↔ Forall (λ x, f x = true) l.
Proof.
  rewrite forallb_forall, Forall_forall.
  split; intros Hall x Hx; apply Hall; by apply list_elem_of_In.
Qed.

Lemma with_default_evolves a :
  summarized a = true →
  (∀ k, k ∉ analysis_keys → with_default a !! k = a !! k) ∧
  is_Some (with_default a !! "summary") ∧
  score_in_range (with_default a).
Proof.
  intros Hsum.
  destruct (with_default_again a Hsum) as (an & Hdef & -> & _ & _).
  destruct (default_analysis_well_formed _ _ Hdef)
    as [(Hother & [s Hs] & (z & Hz & Hrange)) _].
  split; [|split].
  - intros k Hk. by rewrite lookup_union_r by auto.
  - exists s. by apply lookup_union_Some_l.
  - exists z. split; [|done]. by apply lookup_union_Some_l.
Qed.

(** [process_all], with or without a key, on articles as the fetcher
    makes them: it returns the references it was given, and the store
    has evolved, with a score in range on every article of the list. *)
Lemma process_all_spec self articles w :
  Forall (λ r, fetched (heap w r) = true) articles →
  ∃ w', process_all self articles w = Some (articles, w') ∧
        evolves w w' ∧
        ∀ r, r ∈ articles → score_in_range (heap w' r).
Proof.
  intros Hall. unfold process_all. destruct (no_api_key self).
  - destruct (default_loop_spec articles w) as (w' & Hrun & _ & Hheap).
    { eapply Forall_impl; [exact Hall|]. simpl. intros r Hr.
      by apply fetched_parts in Hr as [? _]. }
    exists w'. split; [|split].
    + unfold bind. by rewrite Hrun.
    + intros r. rewrite Hheap. case_decide as Hin; [|done].
      rewrite Forall_forall in Hall.
      destruct (fetched_parts _ (Hall r Hin)) as [Hsum _].
      destruct (with_default_evolves _ Hsum) as (? & ? & ?). done.
    + intros r Hin. rewrite Hheap, decide_True by done.
      rewrite Forall_forall in Hall.
      destruct (fetched_parts _ (Hall r Hin)) as [Hsum _].
      by destruct (with_default_evolves _ Hsum) as (_ & _ & ?).
  - destruct (batches_loop_spec self articles
                (py_range_step (length articles) batch_size) [] w Hall)
      as (w' & Hrun & Hev & Hin).
    rewrite batches_cover in Hrun, Hin by (unfold batch_size; lia).
    exists w'. done.
Qed.

Lemma fetched_keys_not_analysis k : k ∈ fetched_keys → k ∉ analysis_keys.
Proof.
  unfold fetched_keys. intros Hk Hk'.
  repeat (apply elem_of_cons in Hk as [->|Hk];
          [by apply (bool_decide_pack _) in Hk'|]).
  by apply elem_of_nil in Hk.
Qed.

(** C10.  On articles as the fetcher makes them (a [str] title, a
    summary, tags that are a list or missing), [process_all] returns
    the list of references it was given, so the same article objects
    in the same order; in the store no field of any article has
    changed but [category], [summary], [hot_score], [keywords] and
    [reasoning]: in particular the nine other fields written by the
    fetcher are as they were. *)
Theorem process_all_frame self (articles : list loc) w :
  forallb (λ r, fetched (heap w r)) articles = true →
  ∃ w', process_all self articles w = Some (articles, w') ∧
        (∀ r k, k ∉ analysis_keys → heap w' r !! k = heap w r !! k) ∧
        (∀ r k, k ∈ fetched_keys → heap w' r !! k = heap w r !! k).
Proof.
  intros Hall%forallb_Forall_true.
  destruct (process_all_spec self articles w Hall) as (w' & Hrun & Hev & _).
  exists w'. split; [done|]. split.
  - intros r k Hk. by apply (Hev r).
  - intros r k Hk. by apply (Hev r), fetched_keys_not_analysis.
Qed.

(** C2.  On articles as the fetcher makes them, after [process_all]
    every article of the list holds a score that is an [int] between
    0 and 100, whatever the service replied.  For one article,
    whatever the reply, [_analyze_article] returns an analysis with
    such a score, and the score is 50 when the reply cannot be decoded,
    has no score, or has a score that [int] rejects. *)
Theorem classified_score_in_range self (articles : list loc) w :
  forallb (λ r, fetched (heap w r)) articles = true →
  (∃ w', process_all self articles w = Some (articles, w') ∧
         ∀ r, r ∈ articles → score_in_range (heap w' r)) ∧
  (∀ a w0, summarized a = true →
     ∃ an w1, _analyze_article self a w0 = Some (an, w1) ∧
              score_in_range an) ∧
  (∀ a w0 text, summarized a = true →
     post (calls w0) = Content (VStr text) →
     json_loads (clean_reply (strip text)) = None
     ∨ (∃ d, json_loads (clean_reply (strip text)) = Some (VDict d)
             ∧ d !! "hot_score" = None)
     ∨ (∃ d v, json_loads (clean_reply (strip text)) = Some (VDict d)
               ∧ d !! "hot_score" = Some v ∧ py_int v = None) →
     ∃ an w1, _analyze_article self a w0 = Some (an, w1) ∧
              an !! "hot_score" = Some (VInt 50)).
Proof.
  intros Hall%forallb_Forall_true. split; [|split].
  - destruct (process_all_spec self articles w Hall) as (w' & Hrun & _ & Hin).
    by exists w'.
  - intros a w0 Hsum.
    destruct (analyze_article_returns self a w0 Hsum)
      as (an & w1 & Hrun & _ & _ & (_ & _ & Hrange)).
    by exists an, w1.
  - intros a w0 text. apply analyze_article_default_score.
Qed.

(** C3.  Without a key, on articles that have a summary and tags that
    are a list or missing, [process_all] returns the list it was
    given, sends no request, and leaves on every article of the list
    the default analysis: the fallback category, the score 50, the
    unavailable marker as reasoning, the article's own summary, and as
    keywords the first three of its own tags (none when it has no
    tags). *)
Theorem process_all_without_key self (articles : list loc) w :
  no_api_key self = true →
  forallb (λ r, summarized (heap w r)) articles = true →
  ∃ w', process_all self articles w = Some (articles, w') ∧
        calls w' = calls w ∧
        ∀ r, r ∈ articles →
          ∃ summary,
            heap w r !! "summary" = Some summary ∧
            heap w' r !! "category" = Some (VStr fallback_category) ∧
            heap w' r !! "hot_score" = Some (VInt 50) ∧
            heap w' r !! "reasoning" = Some (VStr unavailable_marker) ∧
            heap w' r !! "summary" = Some summary ∧
            heap w' r !! "keywords"
              = Some (VList (match heap w r !! "tags" with
                             | Some (VList tags) => take 3 tags
                             | _ => []
                             end)).
Proof.
  intros Hkey Hall%forallb_Forall_true.
  destruct (default_loop_spec articles w Hall) as (w' & Hrun & Hcalls & Hheap).
  exists w'. unfold process_all. rewrite Hkey. unfold bind. rewrite Hrun.
  split; [done|]. split; [done|]. intros r Hin.
  rewrite Forall_forall in Hall.
  destruct (summarized_parts _ (Hall r Hin)) as [[s Hs] Ht].
  exists s. split; [done|]. rewrite Hheap, decide_True by done.
  unfold with_default.
  rewrite (default_analysis_fields _ s Hs Ht).
  repeat split; by apply lookup_union_Some_l.
Qed.
End Store.

(* ================================================================== *)
(** * Replies wrapped in a markdown fence *)
(* ================================================================== *)

Section Fence.
Import AIProcessor.
Implicit Types (s p ws : pystr) (c e : N).

Lemma spaces_app ws1 ws2 :
  spaces (ws1 ++ ws2) = spaces ws1 && spaces ws2.
Proof. apply forallb_app. Qed.

Lemma spaces_reverse ws : spaces ws = true → spaces (reverse ws) = true.
Proof.
  unfold spaces. rewrite !forallb_forall. intros Hall c Hc.
  apply Hall. apply list_elem_of_In. apply list_elem_of_In in Hc.
  by rewrite elem_of_reverse in Hc.
Qed.

Lemma lstrip_spaces ws s : spaces ws = true → lstrip (ws ++ s) = lstrip s.
Proof.
  induction ws as [|c ws IH]; [done|]. simpl.
  intros [Hc Hws]%andb_prop. rewrite Hc. auto.
Qed.

Lemma lstrip_head c s : is_space c = false → lstrip (c :: s) = c :: s.
Proof. intros Hc. simpl. by rewrite Hc. Qed.

Lemma rstrip_spaces s ws : spaces ws = true → rstrip (s ++ ws) = rstrip s.
Proof.
  intros Hws. unfold rstrip. rewrite reverse_app.
  by rewrite lstrip_spaces by (by apply spaces_reverse).
Qed.

Lemma rstrip_last s e : is_space e = false → rstrip (s ++ [e]) = s ++ [e].
Proof.
  intros He. unfold rstrip. rewrite reverse_app. simpl. rewrite He.
  by rewrite reverse_cons, reverse_involutive.
Qed.

(** [strip] removes the whitespace around a text that neither starts
    nor ends with whitespace. *)
Lemma strip_core ws1 ws2 c mid e :
  spaces ws1 = true → spaces ws2 = true →
  is_space c = false → is_space e = false →
  strip (ws1 ++ (c :: mid ++ [e]) ++ ws2) = c :: mid ++ [e].
Proof.
  intros H1 H2 Hc He. unfold strip.
  rewrite lstrip_spaces by done.
  change ((c :: mid ++ [e]) ++ ws2) with (c :: (mid ++ [e]) ++ ws2).
  rewrite lstrip_head by done.
  change (c :: (mid ++ [e]) ++ ws2) with ((c :: mid ++ [e]) ++ ws2).
  rewrite rstrip_spaces by done.
  change (c :: mid ++ [e]) with ((c :: mid) ++ [e]).
  by apply rstrip_last.
Qed.

Lemma object_text_braces j :
  is_object_text j = true → ∃ body, j = 123%N :: body ++ [125%N].
Proof.
  unfold is_object_text. intros Hj.
  destruct j as [|c rest]; [done|].
  destruct (decide (c = 123%N)) as [->|Hc].
  - destruct (last rest) as [e|] eqn:Hlast.
    + destruct (decide (e = 125%N)) as [->|He].
      * apply last_Some in Hlast as [body ->]. by exists body.
      * exfalso. revert Hj. clear -He.
        destruct e as [|q]; [done|].
        repeat (destruct q as [q|q|]; try done).
    + done.
  - exfalso. revert Hj. clear -Hc. destruct c as [|q]; [done|].
    repeat (destruct q as [q|q|]; try done).
Qed.

Lemma startswith_app p s : startswith (p ++ s) p = true.
Proof.
  induction p as [|c p IH]; simpl; [by destruct s|].
  by rewrite bool_decide_eq_true_2.
Qed.

Lemma startswith_other c s e p :
  e ≠ c → startswith (c :: s) (e :: p) = false.
Proof. intros Hne. simpl. by rewrite bool_decide_eq_false_2. Qed.

Lemma endswith_app s p : endswith (s ++ p) p = true.
Proof. unfold endswith. rewrite reverse_app. apply startswith_app. Qed.

Lemma endswith_other s c p e :
  e ≠ c → endswith (s ++ [c]) (p ++ [e]) = false.
Proof.
  intros Hne. unfold endswith. rewrite !reverse_app. simpl.
  by rewrite bool_decide_eq_false_2.
Qed.

(** After the opening fence comes whitespace or the brace: neither a
    backquote nor the "j" of "json". *)
Lemma fenced_body_head ws body rest :
  spaces ws = true →
  ∃ c tail, ws ++ (123%N :: body) ++ rest = c :: tail
            ∧ c ≠ 96%N ∧ c ≠ 106%N.
Proof.
  intros Hws. destruct ws as [|c ws].
  - eexists _, _. by split.
  - exists c. eexists. split; [done|].
    simpl in Hws. apply andb_prop in Hws as [Hc _].
    split; intros ->; done.
Qed.

(** The three tests of [clean_reply], one after the other. *)
Lemma clean_reply_steps t t1 t2 t3 :
  t1 = (if startswith t fence_json then drop 7 t else t) →
  t2 = (if startswith t1 fence then drop 3 t1 else t1) →
  t3 = (if endswith t2 fence then take (length t2 - 3) t2 else t2) →
  clean_reply t = strip t3.
Proof. by intros -> -> ->. Qed.

Lemma startswith_fence c tail :
  c ≠ 96%N → startswith (c :: tail) fence = false.
Proof.
  intros Hc. change fence with (96%N :: pystr_of "``").
  apply startswith_other. by intros <-.
Qed.

Lemma startswith_fence_json c tail :
  c ≠ 96%N → startswith (c :: tail) fence_json = false.
Proof.
  intros Hc. change fence_json with (96%N :: pystr_of "``json").
  apply startswith_other. by intros <-.
Qed.

Lemma startswith_fence_then c tail :
  c ≠ 106%N → startswith (fence ++ c :: tail) fence_json = false.
Proof.
  intros Hc.
  change (fence ++ c :: tail) with (96 :: 96 :: 96 :: c :: tail)%N.
  change fence_json with (96 :: 96 :: 96 :: 106 :: pystr_of "son")%N.
  cbn [startswith]. rewrite !(bool_decide_eq_true_2 (96%N = 96%N)) by done.
  by rewrite (bool_decide_eq_false_2 (106%N = c)) by done.
Qed.

Lemma endswith_fence_cut inner :
  (if endswith (inner ++ fence) fence
   then take (length (inner ++ fence) - 3) (inner ++ fence)
   else inner ++ fence) = inner.
Proof.
  rewrite endswith_app, length_app.
  replace (length inner + length fence - 3) with (length inner)
    by (change (length fence) with 3; lia).
  by rewrite take_app_length.
Qed.

(** The fence is removed from a stripped reply that wraps the text of
    an object. *)
Lemma clean_fenced opening ws2 body ws3 :
  opening = fence_json ∨ opening = fence →
  spaces ws2 = true → spaces ws3 = true →
  clean_reply (opening ++ ws2 ++ (123%N :: body ++ [125%N]) ++ ws3 ++ fence)
  = 123%N :: body ++ [125%N].
Proof.
  intros Hopen H2 H3.
  set (inner := ws2 ++ (123%N :: body ++ [125%N]) ++ ws3).
  assert (Hinner : strip inner = 123%N :: body ++ [125%N]).
  { unfold inner. by apply strip_core. }
  assert (Htext : ws2 ++ (123%N :: body ++ [125%N]) ++ ws3 ++ fence
                  = inner ++ fence).
  { unfold inner. by rewrite <- !app_assoc. }
  destruct (fenced_body_head ws2 (body ++ [125%N]) (ws3 ++ fence) H2)
    as (c & tail & Hhead & Hc96 & Hc106).
  rewrite Htext in Hhead |- *.
  transitivity (strip inner); [|exact Hinner]. clear Hinner Htext.
  destruct Hopen as [-> | ->].
  - apply (clean_reply_steps _ (inner ++ fence) (inner ++ fence)).
    + by rewrite startswith_app.
    + rewrite Hhead. by rewrite startswith_fence.
    + by rewrite endswith_fence_cut.
  - apply (clean_reply_steps _ (fence ++ inner ++ fence) (inner ++ fence)).
    + rewrite Hhead. by rewrite startswith_fence_then.
    + by rewrite startswith_app.
    + by rewrite endswith_fence_cut.
Qed.

(** A bare object text goes through the cleaning unchanged. *)
Lemma clean_bare body :
  clean_reply (123%N :: body ++ [125%N]) = 123%N :: body ++ [125%N].
Proof.
  set (j := 123%N :: body ++ [125%N]).
  assert (Hstrip : strip j = j).
  { pose proof (strip_core [] [] 123%N body 125%N) as Hcore.
    simpl in Hcore. rewrite app_nil_r in Hcore. by apply Hcore. }
  transitivity (strip j); [|exact Hstrip]. clear Hstrip.
  apply (clean_reply_steps _ j j).
  - unfold j. by rewrite startswith_fence_json.
  - unfold j. by rewrite startswith_fence.
  - unfold j.
    change (123%N :: body ++ [125%N]) with ((123%N :: body) ++ [125%N]).
    change fence with ([96; 96]%N ++ [96%N]).
    by rewrite endswith_other.
Qed.

Lemma strip_trim ws1 ws2 s c front back e :
  spaces ws1 = true → spaces ws2 = true →
  s = c :: front → is_space c = false →
  s = back ++ [e] → is_space e = false →
  strip (ws1 ++ s ++ ws2) = s.
Proof.
  intros H1 H2 Hfront Hc Hback He. unfold strip.
  rewrite lstrip_spaces by done.
  rewrite Hfront at 1. change ((c :: front) ++ ws2) with (c :: front ++ ws2).
  rewrite lstrip_head by done.
  change (c :: front ++ ws2) with ((c :: front) ++ ws2).
  rewrite <- Hfront, rstrip_spaces by done.
  rewrite Hback. by apply rstrip_last.
Qed.

(** [strip] on a fenced reply leaves the fences and what is between
    them. *)
Lemma strip_fenced opening ws1 inner ws4 :
  opening = fence_json ∨ opening = fence →
  spaces ws1 = true → spaces ws4 = true →
  strip (ws1 ++ (opening ++ inner ++ fence) ++ ws4)
  = opening ++ inner ++ fence.
Proof.
  intros Hopen H1 H4.
  assert (∃ rest, opening = 96%N :: rest) as [rest ->].
  { destruct Hopen as [-> | ->]; by eexists. }
  eapply (strip_trim _ _ _ 96%N _ ((96%N :: rest) ++ inner ++ [96; 96]%N)
                     96%N); try done.
  rewrite <- !app_assoc. done.
Qed.
End Fence.

Section FencedReply.
Import AIProcessor.
Context `{Externals}.
#[local] Arguments build_analysis : simpl never.
#[local] Arguments clean_reply : simpl never.
#[local] Arguments strip : simpl never.

(** C9.  Let [j] be the text of a JSON object.  Whether the service
    returns it bare or between an opening fence (with or without the
    "json" tag) and a closing fence, with any whitespace around the
    text and around the fences, the text given to [json.loads] is [j]
    itself, so both replies yield the same analysis; when [j] decodes,
    the fenced reply is decoded too and does not take the handler of
    the decoding error. *)
Theorem fenced_reply_parsed_as_bare
    (opening j ws1 ws2 ws3 ws4 ws5 ws6 : pystr) (a : Article) :
  opening = fence_json ∨ opening = fence →
  is_object_text j = true →
  forallb spaces [ws1; ws2; ws3; ws4; ws5; ws6] = true →
  clean_reply (strip (ws1 ++ opening ++ ws2 ++ j ++ ws3 ++ fence ++ ws4)) = j ∧
  clean_reply (strip (ws5 ++ j ++ ws6)) = j ∧
  parse_reply (VStr (ws1 ++ opening ++ ws2 ++ j ++ ws3 ++ fence ++ ws4)) a
    = parse_reply (VStr (ws5 ++ j ++ ws6)) a ∧
  (∀ result, json_loads j = Some result →
     parse_reply (VStr (ws1 ++ opening ++ ws2 ++ j ++ ws3 ++ fence ++ ws4)) a
     = build_analysis result a).
Proof.
  intros Hopen [body ->]%object_text_braces Hws. simpl in Hws.
  repeat (apply andb_prop in Hws as [? Hws]).
  assert (Hfenced :
    clean_reply (strip (ws1 ++ opening ++ ws2 ++ (123%N :: body ++ [125%N])
                        ++ ws3 ++ fence ++ ws4))
    = 123%N :: body ++ [125%N]).
  { replace (ws1 ++ opening ++ ws2 ++ (123%N :: body ++ [125%N])
             ++ ws3 ++ fence ++ ws4)
      with (ws1 ++ (opening ++ (ws2 ++ (123%N :: body ++ [125%N]) ++ ws3)
                    ++ fence) ++ ws4)
      by (by rewrite <- !app_assoc).
    rewrite strip_fenced by done. rewrite <- !app_assoc.
    by apply clean_fenced. }
  assert (Hbare :
    clean_reply (strip (ws5 ++ (123%N :: body ++ [125%N]) ++ ws6))
    = 123%N :: body ++ [125%N]).
  { rewrite strip_core by done. apply clean_bare. }
  split; [done|]. split; [done|]. unfold parse_reply.
  rewrite Hfenced, Hbare. split; [done|].
  intros result ->. done.
Qed.
End FencedReply.

(* ================================================================== *)
(** * The fields of an analysis built from a reply *)
(* ================================================================== *)

Section ReplyFields.
Import AIProcessor.
Context `{Externals}.
#[local] Arguments build_analysis : simpl never.
#[local] Arguments _get_default_analysis : simpl never.
#[local] Arguments clean_reply : simpl never.
#[local] Arguments strip : simpl never.

Lemma build_analysis_fields d (a : Article) s v kw :
  a !! "summary" = Some (VStr s) →
  py_int (default (VInt 50) (d !! "hot_score")) = Some v →
  py_slice_to 5 (default (VList []) (d !! "keywords")) = Some kw →
  build_analysis (VDict d) a
  = Some (<["category" := default (VStr fallback_category) (d !! "category")]>
          (<["summary" := default (VStr (take 100 s)) (d !! "summary")]>
          (<["hot_score" := VInt (Z.min 100 (Z.max 0 v))]>
          (<["keywords" := kw]>
          (<["reasoning" := default (VStr []) (d !! "reasoning")]> ∅))))).
Proof.
  intros Hs Hv Hkw. unfold build_analysis.
  rewrite Hs. simpl. rewrite Hv. simpl. by rewrite Hkw.
Qed.

Lemma build_analysis_rejected d (a : Article) s :
  a !! "summary" = Some (VStr s) →
  py_int (default (VInt 50) (d !! "hot_score")) = None
  ∨ py_slice_to 5 (default (VList []) (d !! "keywords")) = None →
  build_analysis (VDict d) a = None.
Proof.
  intros Hs Hbad. unfold build_analysis. rewrite Hs. simpl.
  destruct Hbad as [-> | ->]; [done|].
  by destruct (py_int _).
Qed.

(** C4, amended.  With a key, when the prompt can be built, the
    request is answered by a text that decodes to an object [d] and the
    article has a [str] summary, [_analyze_article] does one of two
    things.  When [int] accepts the score of [d] (50 when [d] has none)
    and the keywords of [d] can be sliced (the empty list when [d] has
    none), it returns the analysis made of: the score clamped into
    [0, 100]; the first five keywords; the category, summary and
    reasoning of [d] as they are, and, for those [d] lacks, the
    fallback category, the first 100 characters of the article's own
    summary, and the empty reasoning.  When [int] rejects the score or
    the keywords cannot be sliced, nothing of [d] is kept: it returns
    the default analysis of the article. *)
Theorem analysis_of_decoded_reply self (a : Article) w prompt text d s :
  no_api_key self = false →
  _create_analysis_prompt a = Some prompt →
  post (calls w) = Content (VStr text) →
  json_loads (clean_reply (strip text)) = Some (VDict d) →
  a !! "summary" = Some (VStr s) →
  (∀ v kw,
     py_int (default (VInt 50) (d !! "hot_score")) = Some v →
     py_slice_to 5 (default (VList []) (d !! "keywords")) = Some kw →
     ∃ an w',
       _analyze_article self a w = Some (an, w') ∧
       an !! "category"
         = Some (default (VStr fallback_category) (d !! "category")) ∧
       an !! "summary" = Some (default (VStr (take 100 s)) (d !! "summary")) ∧
       an !! "reasoning" = Some (default (VStr []) (d !! "reasoning")) ∧
       (∃ z, an !! "hot_score" = Some (VInt z) ∧ (0 ≤ z ≤ 100)%Z ∧
             (v < 0 → z = 0)%Z ∧ (0 ≤ v ≤ 100 → z = v)%Z ∧
             (100 < v → z = 100)%Z) ∧
       (d !! "hot_score" = None → an !! "hot_score" = Some (VInt 50)) ∧
       an !! "keywords" = Some kw ∧
       (∀ l, d !! "keywords" = Some (VList l) →
             kw = VList (take 5 l) ∧ length (take 5 l) ≤ 5) ∧
       (d !! "keywords" = None → kw = VList [])) ∧
  (py_int (default (VInt 50) (d !! "hot_score")) = None
   ∨ py_slice_to 5 (default (VList []) (d !! "keywords")) = None →
   has_list_tags a = true →
   ∃ an w',
     _analyze_article self a w = Some (an, w') ∧
     _get_default_analysis a = Some an).
Proof.
  intros Hkey Hprompt Hpost Hjson Hs.
  assert (Hrun : ∀ res,
            build_analysis (VDict d) a = res →
            _analyze_article self a w
            = match res with
              | Some an => Some (an, {| heap := heap w; calls := S (calls w) |})
              | None =>
                  an ← _get_default_analysis a;
                  Some (an, {| heap := heap w; calls := S (calls w) |})
              end).
  { intros res Hres. unfold _analyze_article. rewrite Hkey.
    unfold bind, try_analysis. rewrite Hprompt. unfold bind, request, ret.
    rewrite Hpost. unfold parse_reply. rewrite Hjson. simpl. rewrite Hres.
    destruct res as [an|]; [done|]. unfold lift.
    by destruct (_get_default_analysis a). }
  split.
  - intros v kw Hv Hkw.
    pose proof (build_analysis_fields d a s v kw Hs Hv Hkw) as Hbuild.
    eexists _, _. split; [exact (Hrun _ Hbuild)|].
    split; [done|]. split; [done|]. split; [done|]. split.
    { eexists. split; [done|]. lia. }
    split.
    { intros Hnone. rewrite Hnone in Hv. simpl in Hv. by injection Hv as <-. }
    split; [done|]. split.
    + intros l Hl. rewrite Hl in Hkw. simpl in Hkw. injection Hkw as <-.
      split; [done|]. rewrite length_take. lia.
    + intros Hnone. rewrite Hnone in Hkw. simpl in Hkw.
      by injection Hkw as <-.
  - intros Hbad Htags.
    rewrite (Hrun None) by (by apply build_analysis_rejected with s).
    rewrite (default_analysis_fields a (VStr s) Hs Htags). simpl.
    by eexists _, _.
Qed.
End ReplyFields.

(* ================================================================== *)
(** * The statements on the sample data *)
(* ================================================================== *)

Section OnSamples.
Import RSSFetcher AIProcessor ReportGenerator Samples.

(** C4 as the specification words it does not hold: on the empty
    object as a reply, the reasoning is the empty text and not the
    unavailable marker of the default analysis (and likewise the
    keywords are the empty list and not the first tags). *)
Lemma missing_fields_counterexample :
  ¬ missing_fields_take_fallback_defaults.
Proof.
  intros Hclaim.
  pose proof (Hclaim externals ∅ article_a _ _ "reasoning" eq_refl eq_refl)
    as Hcx.
  assert ("reasoning" ∈ analysis_keys) as Hin.
  { apply (bool_decide_unpack _). by vm_compute. }
  specialize (Hcx Hin eq_refl). vm_compute in Hcx. discriminate Hcx.
Qed.

(** C6 as the specification words it does not hold: on scores 50, 50
    and 51 the average is the float nearest to 151/3, and no float is
    151/3. *)
Lemma average_is_not_the_mean : ¬ average_is_the_mean.
Proof.
  intros Hclaim.
  destruct (generate_report Cases.uneven_articles) as [r|] eqn:Hrun;
    [|by vm_compute in Hrun].
  destruct (Hclaim _ r Hrun) as (q & Hq & Hmean); [done|].
  vm_compute in Hrun. injection Hrun as <-.
  cbn [avg_hot_score number_value float_value] in Hq. injection Hq as <-.
  apply (f_equal this) in Hmean. vm_compute in Hmean. discriminate Hmean.
Qed.

Lemma deduplicate_first_occurrences_witness :
  ∃ unique idx,
    deduplicate fetched_articles = Some unique ∧
    NoDup (title_link <$> unique) ∧
    length unique ≤ length fetched_articles ∧
    selects fetched_articles idx unique ∧
    ∀ i, i ∈ idx ↔ first_occurrence (title_link <$> fetched_articles) i.
Proof.
  apply (deduplicate_first_occurrences fetched_articles).
  vm_compute. reflexivity.
Defined.

Lemma classified_score_in_range_witness :
  (∃ w', @process_all externals with_key references store
           = Some (references, w') ∧
         ∀ r, r ∈ references → score_in_range (heap w' r)) ∧
  (∀ a w0, summarized a = true →
     ∃ an w1, @_analyze_article externals with_key a w0 = Some (an, w1) ∧
              score_in_range an) ∧
  (∀ a w0 text, summarized a = true →
     service (calls w0) = Content (VStr text) →
     decode (clean_reply (strip text)) = None
     ∨ (∃ d, decode (clean_reply (strip text)) = Some (VDict d)
             ∧ d !! "hot_score" = None)
     ∨ (∃ d v, decode (clean_reply (strip text)) = Some (VDict d)
               ∧ d !! "hot_score" = Some v ∧ @py_int externals v = None) →
     ∃ an w1, @_analyze_article externals with_key a w0 = Some (an, w1) ∧
              an !! "hot_score" = Some (VInt 50)).
Proof.
  apply (@classified_score_in_range externals with_key references store).
  vm_compute. reflexivity.
Defined.

Lemma process_all_without_key_witness :
  ∃ w', @process_all externals without_key references store
          = Some (references, w') ∧
        calls w' = calls store ∧
        ∀ r, r ∈ references →
          ∃ summary,
            heap store r !! "summary" = Some summary ∧
            heap w' r !! "category" = Some (VStr fallback_category) ∧
            heap w' r !! "hot_score" = Some (VInt 50) ∧
            heap w' r !! "reasoning" = Some (VStr unavailable_marker) ∧
            heap w' r !! "summary" = Some summary ∧
            heap w' r !! "keywords"
              = Some (VList (match heap store r !! "tags" with
                             | Some (VList tags) => take 3 tags
                             | _ => []
                             end)).
Proof.
  apply (@process_all_without_key externals without_key references store).
  - vm_compute. reflexivity.
  - vm_compute. reflexivity.
Defined.

Lemma analysis_of_decoded_reply_witness :
  (∀ v kw,
     @py_int externals (default (VInt 50) (decoded_scored !! "hot_score"))
       = Some v →
     py_slice_to 5 (default (VList []) (decoded_scored !! "keywords"))
       = Some kw →
     ∃ an w',
       @_analyze_article externals with_key article_a store = Some (an, w') ∧
       an !! "category"
         = Some (default (VStr fallback_category)
                         (decoded_scored !! "category")) ∧
       an !! "summary"
         = Some (default (VStr (take 100 (pystr_of "text")))
                         (decoded_scored !! "summary")) ∧
       an !! "reasoning"
         = Some (default (VStr []) (decoded_scored !! "reasoning")) ∧
       (∃ z, an !! "hot_score" = Some (VInt z) ∧ (0 ≤ z ≤ 100)%Z ∧
             (v < 0 → z = 0)%Z ∧ (0 ≤ v ≤ 100 → z = v)%Z ∧
             (100 < v → z = 100)%Z) ∧
       (decoded_scored !! "hot_score" = None →
        an !! "hot_score" = Some (VInt 50)) ∧
       an !! "keywords" = Some kw ∧
       (∀ l, decoded_scored !! "keywords" = Some (VList l) →
             kw = VList (take 5 l) ∧ length (take 5 l) ≤ 5) ∧
       (decoded_scored !! "keywords" = None → kw = VList [])) ∧
  (@py_int externals (default (VInt 50) (decoded_scored !! "hot_score"))
     = None
   ∨ py_slice_to 5 (default (VList []) (decoded_scored !! "keywords")) = None →
   has_list_tags article_a = true →
   ∃ an w',
     @_analyze_article externals with_key article_a store = Some (an, w') ∧
     _get_default_analysis article_a = Some an).
Proof.
  apply (@analysis_of_decoded_reply externals with_key article_a store
           (VStr (pystr_of "a"), VStr (pystr_of "one"), VStr (pystr_of "text"))
           fenced_scored decoded_scored (pystr_of "text"));
    vm_compute; reflexivity.
Defined.

Lemma filter_and_sort_by_hot_score_witness :
  (∀ (a : Article) z, a !! "hot_score" = Some (VInt z) → field_score a = z) ∧
  (∀ a : Article, a !! "hot_score" = None → field_score a = 0%Z) ∧
  filter_by_hot_score rated_articles 60
    = Some (filter (λ a, (60 ≤ field_score a)%Z) rated_articles) ∧
  ∃ sorted,
    sort_by_hot_score rated_articles true = Some sorted ∧
    sorted ≡ₚ rated_articles ∧
    StronglySorted (λ a b, (field_score b ≤ field_score a)%Z) sorted ∧
    ∀ z, filter (λ a, field_score a = z) sorted
         = filter (λ a, field_score a = z) rated_articles.
Proof.
  apply (filter_and_sort_by_hot_score rated_articles 60).
  vm_compute. reflexivity.
Defined.

Lemma report_statistics_witness :
  (mean_fits rated_articles = false → generate_report rated_articles = None) ∧
  (mean_fits rated_articles = true →
   ∃ r,
     generate_report rated_articles = Some r ∧
     total_articles r = length rated_articles ∧
     (rated_articles = [] → avg_hot_score r = VInt 0) ∧
     (rated_articles ≠ [] →
      ∃ f, py_true_divide (sum_of_scores rated_articles)
                          (Z.of_nat (length rated_articles)) = Some f ∧
           avg_hot_score r = VFloat f) ∧
     (∀ k : Z, rated_articles ≠ [] →
        sum_of_scores rated_articles
          = (k * Z.of_nat (length rated_articles))%Z →
        (Z.abs k < 2 ^ 53)%Z →
        avg_hot_score r = VFloat (float_of_int k) ∧
        number_value (avg_hot_score r) = Some (Qc_of_Z k)) ∧
     total_sources r
       = length (remove_dups (field_source <$> rated_articles)) ∧
     total_categories r = length (filter (λ b, b.2 ≠ []) (categories r)) ∧
     total_categories r
       = length (remove_dups (field_category <$> rated_articles))).
Proof.
  apply (report_statistics rated_articles); vm_compute; reflexivity.
Defined.

Lemma report_partitions_by_category_witness :
  ∃ r extras,
    generate_report rated_articles = Some r ∧
    (categories r).*1 = category_order ++ extras ∧
    NoDup (categories r).*1 ∧
    (∀ c, c ∈ extras ↔
          (∃ a, a ∈ rated_articles ∧ field_category a = c)
          ∧ c ∉ category_order) ∧
    (∀ (a : Article) c, a !! "category" = Some (VStr c) →
                        field_category a = c) ∧
    (∀ a : Article, a !! "category" = None →
                    field_category a = fallback_category) ∧
    (∀ a, a ∈ rated_articles →
       ∃ b, (field_category a, b) ∈ categories r ∧ a ∈ b) ∧
    (∀ c b, (c, b) ∈ categories r →
       b ≡ₚ filter (λ a, field_category a = c) rated_articles ∧
       StronglySorted (λ a1 a2, (field_score a2 ≤ field_score a1)%Z) b) ∧
    bucket_sizes (categories r) = length rated_articles.
Proof.
  apply (report_partitions_by_category rated_articles).
  vm_compute. reflexivity.
Defined.

Lemma fetch_all_isolates_failures_witness :
  ∃ per_source,
    @fetch_all externals sources = Some (concat per_source) ∧
    length per_source = length sources ∧
    ∀ i source, sources !! i = Some source →
      ∃ articles, per_source !! i = Some articles ∧
                  @fetch_feed externals i source = Some articles ∧
                  (feeds i = TransportError → articles = []).
Proof.
  apply (@fetch_all_isolates_failures externals sources).
  vm_compute. reflexivity.
Defined.

Lemma fenced_reply_parsed_as_bare_witness :
  clean_reply (strip ([32%N] ++ fence_json ++ [10%N] ++ reply_scored
                      ++ [10%N] ++ fence ++ [32; 10]%N)) = reply_scored ∧
  clean_reply (strip ([] ++ reply_scored ++ [10%N])) = reply_scored ∧
  @parse_reply externals
    (VStr ([32%N] ++ fence_json ++ [10%N] ++ reply_scored
           ++ [10%N] ++ fence ++ [32; 10]%N)) article_a
    = @parse_reply externals (VStr ([] ++ reply_scored ++ [10%N])) article_a ∧
  (∀ result, decode reply_scored = Some result →
     @parse_reply externals
       (VStr ([32%N] ++ fence_json ++ [10%N] ++ reply_scored
              ++ [10%N] ++ fence ++ [32; 10]%N)) article_a
     = @build_analysis externals result article_a).
Proof.
  apply (@fenced_reply_parsed_as_bare externals fence_json reply_scored
           [32%N] [10%N] [10%N] [32; 10]%N [] [10%N] article_a).
  - left. reflexivity.
  - vm_compute. reflexivity.
  - vm_compute. reflexivity.
Defined.

Lemma process_all_frame_witness :
  ∃ w', @process_all externals with_key references store
          = Some (references, w') ∧
        (∀ r k, k ∉ analysis_keys → heap w' r !! k = heap store r !! k) ∧
        (∀ r k, k ∈ fetched_keys → heap w' r !! k = heap store r !! k).
Proof.
  apply (@process_all_frame externals with_key references store).
  vm_compute. reflexivity.
Defined.

(** The pipeline on the samples. *)
Example deduplicate_sample :
  deduplicate fetched_articles = Some [article_a; article_b; article_c].
Proof. vm_compute. reflexivity. Qed.

Example coercible_scores :
  @py_int externals (VStr (pystr_of " 85 ")) = Some 85%Z ∧
  @py_int externals (VStr (pystr_of "high")) = None ∧
  @py_int externals (VFloat (S754_finite false 7 (-1))) = Some 3%Z ∧
  @py_int externals (VFloat (S754_finite true 7 (-1))) = Some (-3)%Z ∧
  @py_int externals (VFloat S754_nan) = None ∧
  @py_int externals (VBool true) = Some 1%Z ∧
  @py_int externals VNone = None.
Proof. vm_compute. repeat split. Qed.

Example fenced_reply_sample :
  (λ an, (an !! "hot_score", an !! "keywords", an !! "reasoning"))
    <$> @parse_reply externals (VStr fenced_scored) article_a
  = Some (Some (VInt 100),
          Some (VList [VInt 1; VInt 2; VInt 3; VInt 4; VInt 5]),
          Some (VStr [])).
Proof. vm_compute. reflexivity. Qed.

Example process_all_sample :
  (λ res, (res.1, calls res.2, heap res.2 0 !! "hot_score"))
    <$> @process_all externals with_key references store
  = Some (references, 7, Some (VInt 50)).
Proof. vm_compute. reflexivity. Qed.

Example sort_sample :
  fmap (M:=list) score <$> sort_by_hot_score rated_articles true
  = Some [70; 70; 50; 50; 0]%Z.
Proof. vm_compute. reflexivity. Qed.

Example report_sample :
  (λ r, (total_articles r, total_sources r, total_categories r,
         (λ b, length b.2) <$> categories r))
    <$> generate_report rated_articles
  = Some (5, 1, 3, [0; 2; 0; 0; 0; 2; 1]).
Proof. vm_compute. reflexivity. Qed.
End OnSamples.

(* ================================================================== *)
(** * More on deduplication *)
(* ================================================================== *)

Section DeduplicateMore.
Import RSSFetcher.

Lemma deduplicate_loop_cons a rest seen unique key :
  article_key a = Some key →
  deduplicate_loop (a :: rest) seen unique
  = if decide (key ∈ seen)
    then deduplicate_loop rest seen unique
    else deduplicate_loop rest ({[key]} ∪ seen) (unique ++ [a]).
Proof. intros Hkey. simpl. by rewrite Hkey. Qed.

(** The loop appends to [unique_articles] a sublist of what it reads:
    the articles whose key is neither in [seen] nor met before. *)
Lemma deduplicate_loop_sublist rest : ∀ seen unique,
  Forall (λ a, is_Some (article_key a)) rest →
  ∃ kept,
    deduplicate_loop rest seen unique = Some (unique ++ kept) ∧
    kept `sublist_of` rest ∧
    NoDup (article_key <$> kept) ∧
    ∀ k, Some k ∈ article_key <$> kept
         ↔ Some k ∈ article_key <$> rest ∧ k ∉ seen.
Proof.
  induction rest as [|a rest IH]; intros seen unique Hkeys.
  - exists []. rewrite app_nil_r. split; [done|]. split; [done|].
    split; [constructor|]. intros k. simpl. rewrite elem_of_nil. tauto.
  - apply Forall_cons in Hkeys as [[key Hkey] Hkeys].
    rewrite (deduplicate_loop_cons _ _ _ _ _ Hkey).
    destruct (decide (key ∈ seen)) as [Hin|Hnot].
    + destruct (IH seen unique Hkeys) as (kept & Hrun & Hsub & Hnodup & Hmem).
      exists kept. split; [done|]. split; [by apply sublist_cons|].
      split; [done|]. intros k. rewrite Hmem, fmap_cons, elem_of_cons, Hkey.
      split; [tauto|]. intros [[[= ->]|?] ?]; done.
    + destruct (IH ({[key]} ∪ seen) (unique ++ [a]) Hkeys)
        as (kept & Hrun & Hsub & Hnodup & Hmem).
      exists (a :: kept). rewrite Hrun, <- app_assoc. split; [done|].
      split; [by apply sublist_skip|]. split.
      * rewrite fmap_cons. apply NoDup_cons. split; [|done].
        rewrite Hkey. intros [_ Hk]%Hmem. apply Hk.
        apply elem_of_union. left. by apply elem_of_singleton.
      * intros k. rewrite !fmap_cons, !elem_of_cons, Hkey, Hmem.
        rewrite elem_of_union, elem_of_singleton. split.
        -- intros [[= ->]|[? Hk]]; [by split; [left|]|].
           split; [by right|]. tauto.
        -- intros [[[= ->]|?] ?]; [by left|].
           destruct (decide (k = key)) as [->|]; [by left|right]. tauto.
Qed.

(** An article without a key stops the loop. *)
Lemma deduplicate_loop_raises rest : ∀ seen unique a,
  a ∈ rest → article_key a = None → deduplicate_loop rest seen unique = None.
Proof.
  induction rest as [|b rest IH]; intros seen unique a Hin Hkey.
  - by apply elem_of_nil in Hin.
  - simpl. apply elem_of_cons in Hin as [<-|Hin]; [by rewrite Hkey|].
    destruct (article_key b) as [key|]; [|done]. simpl.
    destruct (decide (key ∈ seen)); by eapply IH.
Qed.

Lemma elem_of_keys (articles : list Article) (o : option (pystr * pystr)) :
  Forall (λ a, is_Some (article_key a)) articles →
  o ∈ article_key <$> articles → ∃ k, o = Some k.
Proof.
  intros Hall (a & -> & Ha)%list_elem_of_fmap.
  rewrite Forall_forall in Hall. by destruct (Hall a Ha) as [k ->]; exists k.
Qed.

(** X1.  On articles that hold a [str] under ['title'] and under
    ['link'], [deduplicate] returns a sublist of its input in which
    every pair of title and link of the input occurs, and no other. *)
Theorem deduplicate_keeps_every_key (articles : list Article) :
  text_keyed articles = true →
  ∃ unique,
    deduplicate articles = Some unique ∧
    unique `sublist_of` articles ∧
    ∀ p, p ∈ title_link <$> unique ↔ p ∈ title_link <$> articles.
Proof.
  intros Hkeyed%text_keyed_keyed%keyed_Forall.
  destruct (deduplicate_loop_sublist articles ∅ [] Hkeyed)
    as (kept & Hrun & Hsub & _ & Hmem).
  assert (Hkept : Forall (λ a, is_Some (article_key a)) kept).
  { rewrite Forall_forall in Hkeyed |- *. intros a Ha.
    by eapply Hkeyed, elem_of_sublist. }
  exists kept. split; [done|]. split; [done|].
  intros p. rewrite !title_link_fmap, !list_elem_of_fmap by done.
  split; intros (o & -> & Ho); exists o; (split; [done|]).
  - destruct (elem_of_keys _ _ Hkept Ho) as [k ->]. by apply Hmem.
  - destruct (elem_of_keys _ _ Hkeyed Ho) as [k ->]. apply Hmem.
    split; [done|]. apply not_elem_of_empty.
Qed.

(** Nothing is dropped from articles whose keys differ from each other
    and from those seen. *)
Lemma deduplicate_loop_distinct rest : ∀ seen unique,
  Forall (λ a, is_Some (article_key a)) rest →
  NoDup (article_key <$> rest) →
  (∀ k, Some k ∈ article_key <$> rest → k ∉ seen) →
  deduplicate_loop rest seen unique = Some (unique ++ rest).
Proof.
  induction rest as [|a rest IH]; intros seen unique Hkeys Hnodup Hfresh.
  - by rewrite app_nil_r.
  - apply Forall_cons in Hkeys as [[key Hkey] Hkeys].
    rewrite fmap_cons in Hnodup, Hfresh.
    apply NoDup_cons in Hnodup as [Hhead Hnodup].
    rewrite (deduplicate_loop_cons _ _ _ _ _ Hkey).
    rewrite decide_False by (apply Hfresh; rewrite Hkey; by left).
    rewrite IH, <- app_assoc; [done..|].
    intros k Hk [->%elem_of_singleton|Hseen]%elem_of_union.
    + by rewrite Hkey in Hhead.
    + apply (Hfresh k); [by right|done].
Qed.

(** X2.  On articles that hold a [str] under ['title'] and under
    ['link'], [deduplicate] returns unchanged a list in which no two
    articles hold the same title and the same link, and so it returns
    its own result unchanged: applying it twice is applying it once. *)
Theorem deduplicate_idempotent (articles : list Article) :
  text_keyed articles = true →
  (NoDup (title_link <$> articles) → deduplicate articles = Some articles) ∧
  ∃ unique, deduplicate articles = Some unique ∧
            deduplicate unique = Some unique.
Proof.
  intros Hkeyed%text_keyed_keyed%keyed_Forall.
  assert (Hfixed : ∀ l, Forall (λ a, is_Some (article_key a)) l →
            NoDup (article_key <$> l) → deduplicate l = Some l).
  { intros l Hl Hnodup. unfold deduplicate.
    rewrite deduplicate_loop_distinct; [done..|].
    intros k _. apply not_elem_of_empty. }
  split.
  - intros Hnodup. apply Hfixed; [done|].
    rewrite title_link_fmap in Hnodup by done.
    by apply NoDup_fmap_1 in Hnodup.
  - destruct (deduplicate_loop_sublist articles ∅ [] Hkeyed)
      as (kept & Hrun & Hsub & Hnodup & _).
    exists kept. split; [done|]. apply Hfixed; [|done].
    rewrite Forall_forall in Hkeyed |- *. intros a Ha.
    by eapply Hkeyed, elem_of_sublist.
Qed.

(** X3.  An article without a title or without a link makes
    [deduplicate] raise, wherever it stands in the list. *)
Theorem deduplicate_raises_on_missing_key (articles : list Article) a :
  a ∈ articles →
  a !! "title" = None ∨ a !! "link" = None →
  deduplicate articles = None.
Proof.
  intros Hin Hmiss. apply (deduplicate_loop_raises articles ∅ [] a Hin).
  unfold article_key. destruct Hmiss as [-> | Hlink]; [done|].
  rewrite Hlink. by destruct (a !! "title").
Qed.
End DeduplicateMore.

(* ================================================================== *)
(** * More on filtering and sorting *)
(* ================================================================== *)

Section SortKeyedMore.
Import AIProcessor.
Context {A : Type} (reverse : bool).
Implicit Types (x y : Z * A) (l : list (Z * A)).

Lemma insert_keyed_first x l :
  Forall (λ y, in_order reverse x.1 y.1) l →
  insert_keyed reverse x l = x :: l.
Proof.
  destruct l as [|y l]; [done|]. intros [Hy _]%Forall_cons. simpl.
  apply goes_before_in_order in Hy. by rewrite Hy.
Qed.

Lemma sort_keyed_sorted_id l :
  StronglySorted (λ p q, in_order reverse p.1 q.1) l →
  sort_keyed reverse l = l.
Proof.
  induction 1 as [|x l _ IH Hx]; [done|].
  simpl. rewrite IH. by apply insert_keyed_first.
Qed.

Lemma filter_insert_keyed (P : Z * A → Prop) `{∀ p, Decision (P p)} x l :
  StronglySorted (λ p q, in_order reverse p.1 q.1) l →
  filter P (insert_keyed reverse x l)
  = if decide (P x) then insert_keyed reverse x (filter P l) else filter P l.
Proof.
  induction 1 as [|y l Hsorted IH Hy]; simpl.
  - rewrite filter_cons. by destruct (decide (P x)).
  - destruct (goes_before reverse x.1 y.1) eqn:Hxy.
    + rewrite (filter_cons _ x). destruct (decide (P x)); [|done].
      symmetry. apply insert_keyed_first.
      apply goes_before_in_order in Hxy.
      assert (Forall (λ q, in_order reverse x.1 q.1) (y :: l)) as Hall.
      { constructor; [done|]. eapply Forall_impl; [exact Hy|]. simpl.
        intros q Hq. by eapply in_order_trans. }
      rewrite Forall_forall in Hall |- *. intros q Hq.
      apply Hall. by apply list_elem_of_filter in Hq as [_ ?].
    + rewrite (filter_cons _ y (insert_keyed _ _ _)), IH.
      rewrite (filter_cons _ y l).
      destruct (decide (P x)), (decide (P y)); try done.
      simpl. by rewrite Hxy.
Qed.

Lemma sort_keyed_filter (P : Z * A → Prop) `{∀ p, Decision (P p)} l :
  sort_keyed reverse (filter P l) = filter P (sort_keyed reverse l).
Proof.
  induction l as [|x l IH]; [done|]. simpl.
  rewrite filter_insert_keyed by apply sort_keyed_sorted.
  rewrite filter_cons. destruct (decide (P x)); [|done].
  simpl. by rewrite IH.
Qed.
End SortKeyedMore.

Section ScoreOpsMore.
Import AIProcessor.

Lemma scored_perm l k : l ≡ₚ k → scored l = true → scored k = true.
Proof. rewrite !scored_Forall. by intros ->. Qed.

Lemma sort_by_hot_score_keyed articles reverse :
  scored articles = true →
  sort_by_hot_score articles reverse
  = Some ((sort_keyed reverse ((λ a, (score a, a)) <$> articles)).*2).
Proof.
  intros Hs. unfold sort_by_hot_score. by rewrite (mapM_with_key _ Hs).
Qed.

Lemma keyed_sorted (R : relation Z) (l : list Article) :
  StronglySorted (λ a b, R (score a) (score b)) l →
  StronglySorted (λ p q : Z * Article, R p.1 q.1) ((λ a, (score a, a)) <$> l).
Proof.
  apply (StronglySorted_fmap (λ a, (score a, a))). done.
Qed.

Lemma sort_by_hot_score_sorted_id articles reverse :
  scored articles = true →
  StronglySorted (λ a b, in_order reverse (score a) (score b)) articles →
  sort_by_hot_score articles reverse = Some articles.
Proof.
  intros Hs Hsorted. rewrite sort_by_hot_score_keyed by done.
  rewrite sort_keyed_sorted_id by (by apply keyed_sorted).
  by rewrite keyed_snd.
Qed.

Lemma filter_score_keyed (threshold : Z) (l : list Article) :
  filter (λ p : Z * Article, (threshold ≤ p.1)%Z) ((λ a, (score a, a)) <$> l)
  = (λ a, (score a, a)) <$> filter (λ a, (threshold ≤ score a)%Z) l.
Proof.
  induction l as [|a l IH]; [done|].
  rewrite fmap_cons, !filter_cons, IH. cbn [fst].
  by destruct (decide (threshold ≤ score a)%Z).
Qed.

Lemma filter_score_snd (threshold : Z) (k : list (Z * Article)) :
  k = (λ a, (score a, a)) <$> k.*2 →
  (filter (λ p : Z * Article, (threshold ≤ p.1)%Z) k).*2
  = filter (λ a, (threshold ≤ score a)%Z) k.*2.
Proof.
  intros Hk. rewrite Hk at 1. by rewrite filter_score_keyed, keyed_snd.
Qed.

(** X4.  On articles whose score is an [int] or missing, sorting commutes
    with filtering: filtering the sorted list gives what sorting the
    filtered list gives, in either direction of the sort. *)
Theorem filter_commutes_with_sort articles (threshold : Z) (reverse : bool) :
  scored articles = true →
  ∃ sorted kept,
    sort_by_hot_score articles reverse = Some sorted ∧
    filter_by_hot_score articles threshold = Some kept ∧
    filter_by_hot_score sorted threshold = sort_by_hot_score kept reverse.
Proof.
  intros Hs.
  set (keyed := (λ a, (score a, a)) <$> articles).
  pose proof (sort_keyed_perm reverse keyed) as Hperm.
  pose proof (keyed_perm _ _ Hperm) as Hform.
  assert (Hperm' : (sort_keyed reverse keyed).*2 ≡ₚ articles).
  { rewrite Hperm. unfold keyed. by rewrite keyed_snd. }
  eexists _, _. split; [by apply sort_by_hot_score_keyed|].
  split; [by apply filter_by_hot_score_filter|].
  rewrite filter_by_hot_score_filter
    by (eapply scored_perm; [symmetry; exact Hperm'|done]).
  rewrite sort_by_hot_score_keyed by (by apply scored_filter).
  f_equal. fold keyed. rewrite <- filter_score_keyed. fold keyed.
  rewrite sort_keyed_filter. symmetry. by apply filter_score_snd.
Qed.

(** X5.  On such articles, a list already in the order asked for is
    returned unchanged by [sort_by_hot_score], and so is its own result:
    sorting twice is sorting once. *)
Theorem sort_by_hot_score_idempotent articles (reverse : bool) :
  scored articles = true →
  (StronglySorted (λ a b, in_order reverse (score a) (score b)) articles →
   sort_by_hot_score articles reverse = Some articles) ∧
  ∃ sorted, sort_by_hot_score articles reverse = Some sorted ∧
            sort_by_hot_score sorted reverse = Some sorted.
Proof.
  intros Hs. split; [by apply sort_by_hot_score_sorted_id|].
  destruct (sort_by_hot_score_stable articles reverse Hs)
    as (sorted & Hrun & Hperm & Hsorted & _).
  exists sorted. split; [done|].
  apply sort_by_hot_score_sorted_id; [|done].
  eapply scored_perm; [symmetry; exact Hperm|done].
Qed.

(** X6.  On articles that hold an [int] under ['hot_score'] or
    nothing, with [reverse=False], [sort_by_hot_score] returns a
    permutation of its input in which the scores the articles hold
    never decrease and articles of equal score keep their order. *)
Theorem sort_by_hot_score_ascending articles :
  int_scored articles = true →
  ∃ sorted,
    sort_by_hot_score articles false = Some sorted ∧
    sorted ≡ₚ articles ∧
    StronglySorted (λ a b, (field_score a ≤ field_score b)%Z) sorted ∧
    ∀ z, filter (λ a, field_score a = z) sorted
         = filter (λ a, field_score a = z) articles.
Proof.
  intros Hs%int_scored_scored.
  destruct (sort_by_hot_score_stable articles false Hs)
    as (sorted & Hrun & Hperm & Hsorted & Hstable).
  exists sorted. split; [done|]. split; [done|]. split.
  - by apply (sorted_field_score (λ x y, (x ≤ y)%Z)).
  - intros z.
    transitivity (filter (λ a, score a = z) sorted);
      [apply list_filter_iff; intros a; by rewrite score_field|].
    rewrite Hstable. apply list_filter_iff. intros a.
    by rewrite score_field.
Qed.

(** X7.  On such articles, raising the threshold of
    [filter_by_hot_score] keeps a sublist of what was kept, and
    filtering what was kept gives the same as filtering the input. *)
Theorem filter_by_hot_score_thresholds articles (low high : Z) :
  scored articles = true → (low ≤ high)%Z →
  ∃ kept_low kept_high,
    filter_by_hot_score articles low = Some kept_low ∧
    filter_by_hot_score articles high = Some kept_high ∧
    kept_high `sublist_of` kept_low ∧
    kept_low `sublist_of` articles ∧
    filter_by_hot_score kept_low high = Some kept_high.
Proof.
  intros Hs Hle. eexists _, _.
  split; [by apply filter_by_hot_score_filter|].
  split; [by apply filter_by_hot_score_filter|].
  assert (Hagain :
    filter (λ a, (high ≤ score a)%Z) (filter (λ a, (low ≤ score a)%Z) articles)
    = filter (λ a, (high ≤ score a)%Z) articles).
  { clear Hs. induction articles as [|a l IH]; [done|].
    rewrite !filter_cons.
    destruct (decide (low ≤ score a)%Z), (decide (high ≤ score a)%Z);
      rewrite ?filter_cons_True, ?filter_cons_False by done;
      try rewrite IH; try done; lia. }
  split; [rewrite <- Hagain; apply sublist_filter|].
  split; [apply sublist_filter|].
  rewrite filter_by_hot_score_filter by (by apply scored_filter).
  by rewrite Hagain.
Qed.
End ScoreOpsMore.

(* ================================================================== *)
(** * More on the report *)
(* ================================================================== *)

Section ReportMore.
Import AIProcessor ReportGenerator.
Implicit Types (c : pystr) (cats : buckets) (articles : list Article).

Lemma sort_buckets_equations cats :
  Forall (λ b, scored b.2 = true) cats →
  ∃ sorted, sort_buckets cats = Some sorted ∧
            Forall2 (λ g s, s.1 = g.1 ∧ sort_by_hot_score g.2 true = Some s.2)
                    cats sorted.
Proof.
  unfold sort_buckets.
  induction 1 as [|[c b] cats Hb _ (sorted & Hrun & Hall)]; simpl.
  - by exists [].
  - destruct (sort_by_hot_score_stable b true Hb) as (sb & Hsb & _).
    rewrite Hsb. simpl. rewrite Hrun. simpl.
    exists ((c, sb) :: sorted). split; [done|]. by constructor.
Qed.

Lemma StronglySorted_filter {X} (R : relation X) (P : X → Prop)
    `{∀ x, Decision (P x)} (l : list X) :
  StronglySorted R l → StronglySorted R (filter P l).
Proof.
  induction 1 as [|x l _ IH Hx]; [constructor|].
  rewrite filter_cons. destruct (decide (P x)); [|done].
  constructor; [done|]. rewrite Forall_forall in Hx |- *.
  intros y [_ Hy]%list_elem_of_filter. by apply Hx.
Qed.

(** The buckets of the report, each as the sort of the articles of its
    category, under the names left by the grouping loop. *)
Lemma report_bucket_equations articles :
  reportable articles = true → mean_fits articles = true →
  ∃ r grouped,
    generate_report articles = Some r ∧
    group_loop articles ((λ cat, (cat, [])) <$> category_order)
      = Some grouped ∧
    (categories r).*1 = grouped.*1 ∧
    ∀ c b, (c, b) ∈ categories r →
      sort_by_hot_score (filter (λ a, category_of a = Some c) articles) true
      = Some b.
Proof.
  intros (Hcat & Hscored & Hsourced)%reportable_parts Hfits.
  unfold generate_report.
  set (init := (λ cat, (cat, [])) <$> category_order).
  destruct (group_loop_returns articles init Hcat) as [grouped Hrun].
  pose proof (group_loop_contents _ _ _ Hrun) as Hcontents.
  assert (Hbucket : ∀ c b, (c, b) ∈ grouped →
            b = filter (λ a, category_of a = Some c) articles).
  { intros c b Hin. destruct (Hcontents c b Hin) as (b0 & Hb0 & ->).
    destruct Hb0 as [Hb0|[_ ->]]; [|done].
    unfold init in Hb0. apply list_elem_of_fmap in Hb0 as (? & [= _ ->] & _).
    done. }
  destruct (sort_buckets_equations grouped) as (sorted & Hsort & Hall).
  { apply Forall_forall. intros [c b] Hin. simpl.
    rewrite (Hbucket c b Hin). by apply scored_filter. }
  destruct (average_returns articles Hscored Hfits) as (avg & Havg).
  rewrite Hrun. simpl.
  rewrite Hsort, Havg, (count_sources_distinct _ Hsourced). simpl.
  eexists _, grouped. split; [done|]. split; [done|]. simpl. split.
  - clear -Hall. induction Hall as [|g s ? ? [Hk _] _ IH]; [done|].
    rewrite !fmap_cons. by f_equal.
  - intros c b [i Hi]%list_elem_of_lookup.
    destruct (Forall2_lookup_r _ _ _ _ _ Hall Hi)
      as ([c' b0] & Hg & Hkey & Heq).
    simpl in *. subst c'. rewrite <- (Hbucket c b0); [done|].
    apply list_elem_of_lookup. eauto.
Qed.

(** X8.  On articles that hold a [str] or nothing under ['category']
    and ['source'], an [int] or nothing under ['hot_score'], and whose
    average fits a float: when the articles come with the scores they
    hold never increasing, as [main] passes them, every bucket of the
    report holds exactly the articles that hold its category (the
    fallback category for those that hold none), in the order of the
    input. *)
Theorem report_of_sorted_articles articles :
  presentable articles = true →
  StronglySorted (λ a b, (field_score b ≤ field_score a)%Z) articles →
  ∃ r, generate_report articles = Some r ∧
       ∀ c b, (c, b) ∈ categories r →
              b = filter (λ a, field_category a = c) articles.
Proof.
  intros (Hlabel & Hint & Hfits & Hrep)%presentable_parts Hsorted.
  destruct (report_bucket_equations articles Hrep Hfits)
    as (r & grouped & Hrun & _ & _ & Hbuckets).
  exists r. split; [done|]. intros c b Hin.
  apply reportable_parts in Hrep as (_ & Hscored & _).
  pose proof (Hbuckets c b Hin) as Hsort.
  rewrite <- filter_field_category by done.
  rewrite sort_by_hot_score_sorted_id in Hsort.
  - by injection Hsort as <-.
  - by apply scored_filter.
  - apply (StronglySorted_filter (λ a b, (score b ≤ score a)%Z)).
    clear -Hsorted. induction Hsorted as [|a l _ IH Hall]; constructor; [done|].
    eapply Forall_impl; [exact Hall|]. intros b. by rewrite !score_field.
Qed.

Lemma group_loop_app pre post : ∀ cats,
  group_loop (pre ++ post) cats = group_loop pre cats ≫= group_loop post.
Proof.
  induction pre as [|a pre IH]; intros cats; [done|]. simpl.
  destruct (category_of a); [|done]. simpl. apply IH.
Qed.

Lemma reportable_app pre post :
  reportable (pre ++ post) = true →
  reportable pre = true ∧ reportable post = true.
Proof.
  unfold reportable, categorized, scored, sourced.
  rewrite !forallb_app. intros [[H1 H2]%andb_prop H3]%andb_prop.
  apply andb_prop in H1 as [? ?]. apply andb_prop in H2 as [? ?].
  apply andb_prop in H3 as [? ?].
  split; repeat (apply andb_true_intro; split); done.
Qed.

(** X9.  Articles added at the end of the input never move a bucket:
    the names of the buckets of the report of a list are a prefix of
    the names of the buckets of the report of the list extended, so a
    category outside the five gets its bucket at its first appearance,
    after those that appeared before.  Both reports are made when both
    averages fit a float. *)
Theorem report_buckets_only_appended pre post :
  reportable (pre ++ post) = true →
  mean_fits pre = true →
  mean_fits (pre ++ post) = true →
  ∃ r_pre r,
    generate_report pre = Some r_pre ∧
    generate_report (pre ++ post) = Some r ∧
    (categories r_pre).*1 `prefix_of` (categories r).*1.
Proof.
  intros Hrep Hfits1 Hfits. destruct (reportable_app _ _ Hrep) as [Hpre _].
  destruct (report_bucket_equations pre Hpre Hfits1)
    as (r1 & g1 & Hr1 & Hg1 & Hk1 & _).
  destruct (report_bucket_equations _ Hrep Hfits) as (r & g & Hr & Hg & Hk & _).
  exists r1, r. split; [done|]. split; [done|].
  rewrite Hk1, Hk. rewrite group_loop_app, Hg1 in Hg. simpl in Hg.
  destruct (group_loop_keys _ _ _ Hg) as (extras & -> & _).
  by apply prefix_app_r.
Qed.

Lemma length_remove_dups {X} `{EqDecision X} (l : list X) :
  length (remove_dups l) ≤ length l ∧ (l ≠ [] → 1 ≤ length (remove_dups l)).
Proof.
  split.
  - apply submseteq_length, NoDup_submseteq; [apply NoDup_remove_dups|].
    intros x. by rewrite elem_of_remove_dups.
  - destruct l as [|x l]; [done|]. intros _.
    assert (x ∈ remove_dups (x :: l)) as Hx.
    { apply elem_of_remove_dups. by left. }
    destruct (remove_dups (x :: l)); [by apply elem_of_nil in Hx|].
    simpl. lia.
Qed.

(** X10.  On a report of at least one article, the count of the
    sources and the count of the categories lie between 1 and the
    count of the articles, which is the length of the list. *)
Theorem report_statistics_bounds articles :
  presentable articles = true →
  articles ≠ [] →
  ∃ r, generate_report articles = Some r ∧
       total_articles r = length articles ∧
       1 ≤ total_sources r ≤ total_articles r ∧
       1 ≤ total_categories r ≤ total_articles r.
Proof.
  intros Hpres Hne.
  destruct (report_by_fields articles Hpres)
    as (r & extras & Hrun & _ & Htotal & _ & _ & _ & _ & _
        & Hsources & _ & Hcats).
  exists r. split; [done|]. split; [done|].
  rewrite Hsources, Hcats, Htotal.
  assert (∀ (f : Article → pystr),
            1 ≤ length (remove_dups (f <$> articles)) ≤ length articles)
    as Hcount.
  { intros f. destruct (length_remove_dups (f <$> articles)) as [Hle Hge].
    rewrite length_fmap in Hle. split; [|done]. apply Hge.
    by destruct articles. }
  split; apply Hcount.
Qed.
End ReportMore.

(* ================================================================== *)
(** * More on the classifier *)
(* ================================================================== *)

Section ClassifierMore.
Import AIProcessor.
Context `{Externals}.
Implicit Types (a : Article) (an : pydict) (w : World) (r : loc).
#[local] Arguments build_analysis : simpl never.
#[local] Arguments _get_default_analysis : simpl never.
#[local] Arguments _analyze_article : simpl never.
#[local] Arguments clean_reply : simpl never.
#[local] Arguments strip : simpl never.

(** [_analyze_article], case by case. *)
Lemma analyze_article_cases self a w :
  _analyze_article self a w
  = if no_api_key self then lift (_get_default_analysis a) w
    else if promptable a then
      match match post (calls w) with
            | Failed => None
            | Content text => parse_reply text a
            end with
      | Some an => Some (an, {| heap := heap w; calls := S (calls w) |})
      | None => lift (_get_default_analysis a)
                     {| heap := heap w; calls := S (calls w) |}
      end
    else lift (_get_default_analysis a) w.
Proof.
  unfold _analyze_article, promptable. destruct (no_api_key self); [done|].
  unfold bind, try_analysis.
  destruct (_create_analysis_prompt a) as [prompt|] eqn:Hprompt.
  - rewrite bool_decide_eq_true_2 by (by eexists).
    unfold bind, request, ret. by destruct (post (calls w)) as [|text];
      [|destruct (parse_reply text a)].
  - rewrite bool_decide_eq_false_2 by (by intros [? ?]). done.
Qed.

Lemma parse_reply_unusable a :
  (∀ v, (∀ s, v ≠ VStr s) → parse_reply v a = None) ∧
  (∀ s, json_loads (clean_reply (strip s)) = None →
        parse_reply (VStr s) a = None) ∧
  (∀ s result, json_loads (clean_reply (strip s)) = Some result →
               (∀ d, result ≠ VDict d) → parse_reply (VStr s) a = None).
Proof.
  split; [|split].
  - intros v Hv. destruct v; try done. by destruct (Hv s).
  - intros s Hs. unfold parse_reply. by rewrite Hs.
  - intros s result Hs Hd. unfold parse_reply. rewrite Hs. simpl.
    destruct result; try done. by destruct (Hd d).
Qed.

(** X11.  On an article with a summary and list tags, when the request
    fails or its reply yields no analysis (the content is not a [str],
    does not decode, or decodes to something that is not an object),
    [_analyze_article] returns exactly the default analysis of the
    article. *)
Theorem analyze_article_falls_back self a w :
  summarized a = true →
  post (calls w) = Failed
  ∨ (∃ text, post (calls w) = Content text ∧ parse_reply text a = None) →
  (∃ an w', _analyze_article self a w = Some (an, w') ∧
            _get_default_analysis a = Some an) ∧
  (∀ v, (∀ s, v ≠ VStr s) → parse_reply v a = None) ∧
  (∀ s, json_loads (clean_reply (strip s)) = None →
        parse_reply (VStr s) a = None) ∧
  (∀ s result, json_loads (clean_reply (strip s)) = Some result →
               (∀ d, result ≠ VDict d) → parse_reply (VStr s) a = None).
Proof.
  intros [[s Hs] Ht]%summarized_parts Hfail.
  split; [|apply parse_reply_unusable].
  pose proof (default_analysis_fields a s Hs Ht) as Hdef.
  rewrite analyze_article_cases. unfold lift. rewrite Hdef.
  destruct (no_api_key self); [by eexists _, _|].
  destruct (promptable a); [|by eexists _, _].
  destruct Hfail as [-> | (text & -> & ->)]; by eexists _, _.
Qed.

(** The requests of one analysis: one when there is a key and the
    prompt can be built, none otherwise. *)
Lemma analyze_article_calls self a w an w' :
  _analyze_article self a w = Some (an, w') →
  heap w' = heap w ∧
  calls w' = calls w + (if no_api_key self then 0
                        else if promptable a then 1 else 0).
Proof.
  rewrite analyze_article_cases. unfold lift.
  destruct (no_api_key self).
  { destruct (_get_default_analysis a); [|done]. intros [= _ <-].
    split; [done|lia]. }
  destruct (promptable a).
  - destruct (match post (calls w) with Failed => _ | _ => _ end).
    + intros [= _ <-]. simpl. split; [done|lia].
    + destruct (_get_default_analysis a); [|done]. intros [= _ <-].
      simpl. split; [done|lia].
  - destruct (_get_default_analysis a); [|done]. intros [= _ <-].
    split; [done|lia].
Qed.

Lemma analyze_article_no_summary self a w :
  a !! "summary" = None → _analyze_article self a w = None.
Proof.
  intros Hnone.
  assert (_get_default_analysis a = None) as Hdef.
  { unfold _get_default_analysis. by rewrite Hnone. }
  assert (∀ text, parse_reply text a = None) as Hparse.
  { intros text. unfold parse_reply. destruct text; try done.
    destruct (json_loads _) as [result|]; [|done]. simpl.
    unfold build_analysis. destruct result; try done. by rewrite Hnone. }
  rewrite analyze_article_cases. unfold lift. rewrite Hdef.
  destruct (no_api_key self); [done|]. destruct (promptable a); [|done].
  destruct (post (calls w)); [done|]. by rewrite Hparse.
Qed.

(** One turn of the loop of [process_batch]. *)
Lemma process_batch_loop_cons self r rest processed w :
  process_batch_loop self (r :: rest) processed w
  = match heap w r !! "title" ≫= py_slice_to 50 with
    | None => None
    | Some _ =>
        match _analyze_article self (heap w r) w with
        | None => None
        | Some (an, w1) =>
            process_batch_loop self rest (processed ++ [r])
              {| heap := λ r', if decide (r' = r) then an ∪ heap w1 r
                               else heap w1 r';
                 calls := calls w1 |}
        end
    end.
Proof.
  simpl. unfold bind at 1. unfold read. unfold bind at 1. unfold lift.
  destruct (heap w r !! "title" ≫= py_slice_to 50); [|done].
  unfold bind at 1. destruct (_analyze_article self (heap w r) w) as [[an w1]|];
    [|done].
  unfold bind at 1. done.
Qed.

Lemma default_loop_cons r rest w :
  default_loop (r :: rest) w
  = match _get_default_analysis (heap w r) with
    | None => None
    | Some an =>
        default_loop rest
          {| heap := λ r', if decide (r' = r) then an ∪ heap w r
                           else heap w r';
             calls := calls w |}
    end.
Proof.
  simpl. unfold bind at 1. unfold read. unfold bind at 1. unfold lift.
  destruct (_get_default_analysis (heap w r)); [|done].
  unfold bind at 1. done.
Qed.

Lemma analyze_article_well_formed self a w an w' :
  _analyze_article self a w = Some (an, w') → well_formed_analysis an.
Proof.
  rewrite analyze_article_cases. unfold lift.
  assert (∀ w0, match _get_default_analysis a with
                | Some x => Some (x, w0)
                | None => None
                end = Some (an, w') → well_formed_analysis an) as Hdef.
  { intros w0. destruct (_get_default_analysis a) as [d|] eqn:Hd; [|done].
    intros [= <- _]. by destruct (default_analysis_well_formed _ _ Hd). }
  destruct (no_api_key self); [apply Hdef|].
  destruct (promptable a); [|apply Hdef].
  destruct (post (calls w)) as [|text]; [apply Hdef|].
  destruct (parse_reply text a) as [built|] eqn:Hparse; [|apply Hdef].
  intros [= <- _]. unfold parse_reply in Hparse. destruct text; try done.
  destruct (json_loads _) as [result|]; [|done]. simpl in Hparse.
  by eapply build_analysis_well_formed.
Qed.

Lemma evolves_promptable w w' r :
  evolves w w' → promptable (heap w' r) = promptable (heap w r).
Proof.
  intros Hev. destruct (Hev r) as (Hk & _ & _).
  unfold promptable, _create_analysis_prompt.
  rewrite !Hk; [done|..]; apply (bool_decide_unpack _); by vm_compute.
Qed.

Lemma filter_promptable_evolves w w' (l : list loc) :
  evolves w w' →
  filter (λ r, promptable (heap w' r) = true) l
  = filter (λ r, promptable (heap w r) = true) l.
Proof.
  intros Hev. induction l as [|r l IH]; [done|].
  rewrite !filter_cons, IH, (evolves_promptable _ _ r Hev). done.
Qed.

(** The world after [article.update(analysis)] at [r]. *)
Lemma updated_world r an w1 w :
  well_formed_analysis an → heap w1 = heap w →
  let w2 := {| heap := λ r', if decide (r' = r) then an ∪ heap w1 r
                             else heap w1 r';
               calls := calls w1 |} in
  evolves w w2 ∧ (∀ r', r' ≠ r → heap w2 r' = heap w r').
Proof.
  intros Hwf Hheap w2.
  destruct (update_evolves r an w1 Hwf) as (w' & [= <-] & _ & Hother & _ & Hev & _).
  split.
  - intros r'. destruct (Hev r') as (? & ? & ?). by rewrite <- Hheap.
  - intros r' Hr'. rewrite <- Hheap. by apply Hother.
Qed.

(** What a run of the loop of [process_batch] that returns has done. *)
Lemma process_batch_loop_facts self articles : ∀ processed w res w',
  process_batch_loop self articles processed w = Some (res, w') →
  res = processed ++ articles ∧
  evolves w w' ∧
  (∀ r, r ∉ articles → heap w' r = heap w r) ∧
  calls w' = calls w + (if no_api_key self then 0
                        else length (filter (λ r, promptable (heap w r) = true)
                                            articles)).
Proof.
  induction articles as [|r rest IH]; intros processed w res w' Hrun.
  - injection Hrun as <- <-. rewrite app_nil_r. split; [done|].
    split; [apply evolves_refl|]. split; [done|]. destruct (no_api_key self); simpl; lia.
  - rewrite process_batch_loop_cons in Hrun.
    destruct (heap w r !! "title" ≫= py_slice_to 50); [|done].
    destruct (_analyze_article self (heap w r) w) as [[an w1]|] eqn:Han; [|done].
    pose proof (analyze_article_well_formed _ _ _ _ _ Han) as Hwf.
    destruct (analyze_article_calls _ _ _ _ _ Han) as [Hheap Hcalls].
    destruct (updated_world r an w1 w Hwf Hheap) as [Hev Hother].
    destruct (IH _ _ _ _ Hrun) as (-> & Hev' & Hother' & Hcalls').
    split; [by rewrite <- app_assoc|]. split; [by eapply evolves_trans|].
    split.
    + intros r' [Hne Hnot]%not_elem_of_cons.
      rewrite Hother' by done. by apply Hother.
    + rewrite Hcalls', (filter_promptable_evolves _ _ rest Hev), filter_cons.
      simpl calls. rewrite Hcalls.
      destruct (no_api_key self); [lia|].
      destruct (promptable (heap w r)); simpl; lia.
Qed.

Lemma batches_loop_cons self i rest articles all_processed w :
  batches_loop self (i :: rest) articles all_processed w
  = match process_batch_loop self (take batch_size (drop i articles)) [] w with
    | None => None
    | Some (processed, w1) =>
        batches_loop self rest articles (all_processed ++ processed) w1
    end.
Proof.
  simpl. unfold bind at 1. unfold process_batch.
  by destruct (process_batch_loop self _ [] w) as [[processed w1]|].
Qed.



(** X13.  Without a key, running [process_all] a second time changes
    nothing: the store after the second run is the store after the
    first. *)
Theorem process_all_without_key_idempotent self (articles : list loc) w :
  no_api_key self = true →
  forallb (λ r, summarized (heap w r)) articles = true →
  ∃ w1 w2,
    process_all self articles w = Some (articles, w1) ∧
    process_all self articles w1 = Some (articles, w2) ∧
    calls w2 = calls w ∧
    ∀ r, heap w2 r = heap w1 r.
Proof.
  intros Hkey Hall%forallb_Forall_true.
  destruct (default_loop_spec articles w Hall) as (w1 & Hrun1 & Hc1 & Hh1).
  destruct (default_loop_spec articles w1) as (w2 & Hrun2 & Hc2 & Hh2).
  { rewrite Forall_forall in Hall |- *. intros r Hr.
    rewrite Hh1, decide_True by done.
    by destruct (with_default_again _ (Hall r Hr)) as (an & _ & -> & _ & ?). }
  exists w1, w2. unfold process_all. rewrite Hkey. unfold bind.
  rewrite Hrun1, Hrun2. split; [done|]. split; [done|].
  split; [congruence|]. intros r. rewrite Hh2. case_decide as Hin; [|done].
  rewrite Hh1, decide_True by done. apply with_default_idemp.
  rewrite Forall_forall in Hall. by apply Hall.
Qed.

Lemma default_loop_raises articles : ∀ w r,
  r ∈ articles → heap w r !! "summary" = None → default_loop articles w = None.
Proof.
  induction articles as [|r0 rest IH]; intros w r Hin Hnone.
  - by apply elem_of_nil in Hin.
  - rewrite default_loop_cons.
    destruct (_get_default_analysis (heap w r0)) as [an|] eqn:Hdef; [|done].
    assert (r ≠ r0) as Hne.
    { intros ->. unfold _get_default_analysis in Hdef. by rewrite Hnone in Hdef. }
    apply elem_of_cons in Hin as [?|Hin]; [done|].
    apply (IH _ r Hin). simpl. by rewrite decide_False.
Qed.

Lemma process_batch_loop_raises self articles : ∀ processed w r,
  r ∈ articles → heap w r !! "summary" = None →
  process_batch_loop self articles processed w = None.
Proof.
  induction articles as [|r0 rest IH]; intros processed w r Hin Hnone.
  - by apply elem_of_nil in Hin.
  - rewrite process_batch_loop_cons.
    destruct (heap w r0 !! "title" ≫= py_slice_to 50); [|done].
    destruct (_analyze_article self (heap w r0) w) as [[an w1]|] eqn:Han; [|done].
    assert (r ≠ r0) as Hne.
    { intros ->. by rewrite analyze_article_no_summary in Han. }
    destruct (analyze_article_calls _ _ _ _ _ Han) as [Hheap _].
    apply elem_of_cons in Hin as [?|Hin]; [done|].
    apply (IH _ _ r Hin). simpl. rewrite decide_False by done.
    by rewrite Hheap.
Qed.

Lemma batches_loop_raises self articles starts : ∀ all_processed w r,
  r ∈ concat ((λ i, take batch_size (drop i articles)) <$> starts) →
  heap w r !! "summary" = None →
  batches_loop self starts articles all_processed w = None.
Proof.
  induction starts as [|i rest IH]; intros acc w r Hin Hnone.
  - by apply elem_of_nil in Hin.
  - rewrite batches_loop_cons. rewrite fmap_cons in Hin. simpl in Hin.
    destruct (decide (r ∈ take batch_size (drop i articles))) as [Hb|Hb].
    { by rewrite (process_batch_loop_raises _ _ _ _ r Hb Hnone). }
    destruct (process_batch_loop self _ [] w) as [[processed w1]|] eqn:Hbatch;
      [|done].
    destruct (process_batch_loop_facts _ _ _ _ _ _ Hbatch) as (_ & _ & Hother & _).
    apply elem_of_app in Hin as [?|Hin]; [done|].
    apply (IH _ _ r Hin). by rewrite Hother.
Qed.

(** X14.  An article without a summary makes [process_all] raise,
    with or without a key and whatever the service replies. *)
Theorem process_all_raises_without_summary self (articles : list loc) w r :
  r ∈ articles → heap w r !! "summary" = None →
  process_all self articles w = None.
Proof.
  intros Hin Hnone. unfold process_all. destruct (no_api_key self).
  - unfold bind. by rewrite (default_loop_raises _ _ r Hin Hnone).
  - apply (batches_loop_raises _ _ _ _ _ r); [|done].
    by rewrite batches_cover by (unfold batch_size; lia).
Qed.

(** X15.  After [process_all], on articles as the fetcher makes them,
    every score is an [int]: [sort_by_hot_score] and
    [filter_by_hot_score] return on the processed articles, a threshold
    of 0 or less keeps them all and a threshold above 100 keeps none. *)
Theorem classified_articles_can_be_sorted self (articles : list loc) w :
  forallb (λ r, fetched (heap w r)) articles = true →
  ∃ w' sorted,
    process_all self articles w = Some (articles, w') ∧
    sort_by_hot_score (heap w' <$> articles) true = Some sorted ∧
    sorted ≡ₚ heap w' <$> articles ∧
    (∀ t, (t ≤ 0)%Z →
          filter_by_hot_score (heap w' <$> articles) t
          = Some (heap w' <$> articles)) ∧
    (∀ t, (100 < t)%Z →
          filter_by_hot_score (heap w' <$> articles) t = Some []).
Proof.
  intros Hall%forallb_Forall_true.
  destruct (process_all_spec self articles w Hall) as (w' & Hrun & _ & Hrange).
  assert (Hscores : Forall (λ a, ∃ z, hot_score_of a = Some z ∧ score a = z
                                     ∧ (0 ≤ z ≤ 100)%Z)
                           (heap w' <$> articles)).
  { apply Forall_fmap, Forall_forall. intros r Hr. simpl.
    destruct (Hrange r Hr) as (z & Hz & Hzr). exists z.
    unfold score, hot_score_of. rewrite Hz. done. }
  assert (Hscored : scored (heap w' <$> articles) = true).
  { apply scored_Forall. eapply Forall_impl; [exact Hscores|]. simpl.
    intros a (z & Hz & _). by eexists. }
  destruct (sort_by_hot_score_stable _ true Hscored)
    as (sorted & Hsort & Hperm & _).
  exists w', sorted. split; [done|]. split; [done|]. split; [done|].
  split; intros t Ht; rewrite filter_by_hot_score_filter by done; f_equal.
  - clear -Hscores Ht.
    induction Hscores as [|a l (z & _ & Hz & Hzr) _ IH]; [done|].
    rewrite filter_cons_True by lia. by rewrite IH.
  - clear -Hscores Ht.
    induction Hscores as [|a l (z & _ & Hz & Hzr) _ IH]; [done|].
    rewrite filter_cons_False by lia. done.
Qed.
End ClassifierMore.

(* ================================================================== *)
(** * More on the fences *)
(* ================================================================== *)

Section FenceMore.
Import AIProcessor.
Implicit Types (s p t ws : pystr).

Lemma startswith_longer t p q :
  startswith t p = false → startswith t (p ++ q) = false.
Proof.
  revert t. induction p as [|c p IH]; intros t; [by destruct t|].
  destruct t as [|d t]; [done|]. simpl.
  destruct (bool_decide (c = d)); [apply IH|done].
Qed.

Lemma endswith_longer t p q :
  endswith t p = false → endswith t (q ++ p) = false.
Proof.
  unfold endswith. rewrite reverse_app. apply startswith_longer.
Qed.

Lemma lstrip_idemp s : lstrip (lstrip s) = lstrip s.
Proof.
  induction s as [|c s IH]; [done|]. simpl.
  destruct (is_space c) eqn:Hc; [done|]. simpl. by rewrite Hc.
Qed.

Lemma lstrip_suffix s : ∃ ws, s = ws ++ lstrip s.
Proof.
  induction s as [|c s [ws IH]]; [by exists []|]. simpl.
  destruct (is_space c); [|by exists []].
  exists (c :: ws). simpl. by f_equal.
Qed.

Lemma lstrip_head_kept c s : is_space c = false → lstrip (c :: s) = c :: s.
Proof. intros Hc. simpl. by rewrite Hc. Qed.

Lemma lstrip_result s :
  lstrip s = [] ∨ ∃ c t, lstrip s = c :: t ∧ is_space c = false.
Proof.
  induction s as [|c s IH]; [by left|]. simpl.
  destruct (is_space c) eqn:Hc; [done|]. right. by exists c, s.
Qed.

Lemma rstrip_idemp t : rstrip (rstrip t) = rstrip t.
Proof. unfold rstrip. by rewrite reverse_involutive, lstrip_idemp. Qed.

Lemma rstrip_prefix t : ∃ ws, t = rstrip t ++ ws.
Proof.
  unfold rstrip. destruct (lstrip_suffix (reverse t)) as [ws Hws].
  exists (reverse ws). rewrite <- reverse_app, <- Hws.
  by rewrite reverse_involutive.
Qed.

Lemma strip_idemp s : strip (strip s) = strip s.
Proof.
  unfold strip.
  assert (lstrip (rstrip (lstrip s)) = rstrip (lstrip s)) as ->;
    [|apply rstrip_idemp].
  destruct (lstrip_result s) as [-> | (c & t & Ht & Hc)]; [done|].
  rewrite Ht. destruct (rstrip_prefix (c :: t)) as [ws Hws].
  destruct (rstrip (c :: t)) as [|c' u]; [done|].
  injection Hws as <- _. by apply lstrip_head_kept.
Qed.

(** X16.  A reply whose text, once the whitespace around it is
    stripped, neither begins nor ends with a backquote comes out of
    the cleaning of lines 84 to 95 as that stripped text: nothing else
    is removed from it. *)
Theorem clean_reply_without_fence reply :
  startswith (strip reply) (pystr_of "`") = false →
  endswith (strip reply) (pystr_of "`") = false →
  clean_reply (strip reply) = strip reply.
Proof.
  intros Hstart Hend. rewrite <- (strip_idemp reply) at 2.
  set (t := strip reply) in *. apply (clean_reply_steps t t t t).
  - change fence_json with (pystr_of "`" ++ pystr_of "``json").
    by rewrite startswith_longer.
  - change fence with (pystr_of "`" ++ pystr_of "``").
    by rewrite startswith_longer.
  - change fence with (pystr_of "``" ++ pystr_of "`").
    by rewrite endswith_longer.
Qed.

(** X17.  The three tests of the cleaning are independent: the text of
    an object is recovered from a reply that has the opening fence
    only, as when the reply is cut short, and from a reply that has the
    closing fence only. *)
Theorem one_sided_fence_is_removed (opening j ws1 ws2 ws3 : pystr) :
  opening = fence_json ∨ opening = fence →
  is_object_text j = true →
  forallb spaces [ws1; ws2; ws3] = true →
  clean_reply (strip (ws1 ++ opening ++ ws2 ++ j ++ ws3)) = j ∧
  clean_reply (strip (ws1 ++ j ++ ws2 ++ fence ++ ws3)) = j.
Proof.
  intros Hopen [body ->]%object_text_braces Hws. simpl in Hws.
  repeat (apply andb_prop in Hws as [? Hws]).
  set (j := 123%N :: body ++ [125%N]).
  assert (Hj : ∀ ws, spaces ws = true → strip (ws ++ j) = j).
  { intros ws Hs. pose proof (strip_core ws [] 123%N body 125%N Hs) as Hcore.
    rewrite app_nil_r in Hcore. by apply Hcore. }
  assert (Hj' : ∀ ws, spaces ws = true → strip (j ++ ws) = j).
  { intros ws Hs. by apply (strip_core [] ws 123%N body 125%N). }
  split.
  - assert (∃ rest, opening = 96%N :: rest) as [rest Hrest].
    { destruct Hopen as [-> | ->]; by eexists. }
    assert (strip (ws1 ++ opening ++ ws2 ++ j ++ ws3) = opening ++ ws2 ++ j)
      as ->.
    { replace (ws1 ++ opening ++ ws2 ++ j ++ ws3)
        with (ws1 ++ (opening ++ ws2 ++ j) ++ ws3)
        by (by rewrite <- !app_assoc).
      apply (strip_trim _ _ _ 96%N (rest ++ ws2 ++ j)
                        (opening ++ ws2 ++ 123%N :: body) 125%N); try done.
      + by rewrite Hrest.
      + unfold j. rewrite <- !app_assoc. done. }
    destruct (fenced_body_head ws2 (body ++ [125%N]) [])
      as (c & tail & Hhead & Hc96 & Hc106); [done|].
    rewrite app_nil_r in Hhead. fold j in Hhead.
    transitivity (strip (ws2 ++ j)); [|by apply Hj].
    assert (Hend : endswith (ws2 ++ j) fence = false).
    { unfold j.
      replace (ws2 ++ 123%N :: body ++ [125%N])
        with ((ws2 ++ 123%N :: body) ++ [125%N])
        by (by rewrite <- app_assoc).
      change fence with ([96; 96]%N ++ [96%N]). by apply endswith_other. }
    destruct Hopen as [-> | ->].
    + apply (clean_reply_steps _ (ws2 ++ j) (ws2 ++ j)).
      * by rewrite startswith_app.
      * rewrite Hhead. by rewrite startswith_fence.
      * by rewrite Hend.
    + apply (clean_reply_steps _ (fence ++ ws2 ++ j) (ws2 ++ j)).
      * rewrite Hhead. by rewrite startswith_fence_then.
      * by rewrite startswith_app.
      * by rewrite Hend.
  - assert (strip (ws1 ++ j ++ ws2 ++ fence ++ ws3) = j ++ ws2 ++ fence) as ->.
    { replace (ws1 ++ j ++ ws2 ++ fence ++ ws3)
        with (ws1 ++ (j ++ ws2 ++ fence) ++ ws3)
        by (by rewrite <- !app_assoc).
      apply (strip_trim _ _ _ 123%N ((body ++ [125%N]) ++ ws2 ++ fence)
                        (j ++ ws2 ++ [96; 96]%N) 96%N); try done.
      rewrite <- !app_assoc. done. }
    transitivity (strip (j ++ ws2)); [|by apply Hj'].
    apply (clean_reply_steps _ (j ++ ws2 ++ fence) (j ++ ws2 ++ fence)).
    + change (j ++ ws2 ++ fence)
        with (123%N :: (body ++ [125%N]) ++ ws2 ++ fence).
      by rewrite startswith_fence_json.
    + change (j ++ ws2 ++ fence)
        with (123%N :: (body ++ [125%N]) ++ ws2 ++ fence).
      by rewrite startswith_fence.
    + rewrite (app_assoc j ws2 fence). by rewrite endswith_fence_cut.
Qed.
End FenceMore.

(* ================================================================== *)
(** * More on fetching *)
(* ================================================================== *)

Section FetchMore.
Import RSSFetcher.
Context `{Externals}.

Lemma fetch_all_loop_raises sources : ∀ i all_articles source,
  source ∈ sources →
  source !! "url" = None ∨ source !! "name" = None →
  fetch_all_loop i sources all_articles = None.
Proof.
  induction sources as [|s rest IH]; intros i acc source Hin Hmiss.
  - by apply elem_of_nil in Hin.
  - simpl. apply elem_of_cons in Hin as [<-|Hin].
    + unfold fetch_feed. destruct Hmiss as [-> | Hname]; [done|].
      rewrite Hname. by destruct (source !! "url").
    + destruct (fetch_feed i s); [|done]. simpl. by eapply IH.
Qed.

Lemma elem_of_concat {A} (x : A) (ls : list (list A)) :
  x ∈ concat ls → ∃ l, l ∈ ls ∧ x ∈ l.
Proof.
  induction ls as [|l ls IH]; simpl; [by intros ?%elem_of_nil|].
  intros [Hx|Hx]%elem_of_app.
  - exists l. split; [left|done].
  - destruct (IH Hx) as (l' & Hl' & Hx'). exists l'. split; [by right|done].
Qed.

(** X18.  A source without a url or without a name makes [fetch_all]
    raise, whatever the requests come to: the isolation of failures
    covers the requests, not the descriptions of the sources. *)
Theorem fetch_all_raises_on_undescribed_source (sources : list Source) source :
  source ∈ sources →
  source !! "url" = None ∨ source !! "name" = None →
  fetch_all sources = None.
Proof. apply fetch_all_loop_raises. Qed.

(** Where the articles of [fetch_all] come from. *)
Lemma fetch_all_parsed (sources : list Source) :
  described sources = true →
  ∃ articles,
    fetch_all sources = Some articles ∧
    (∀ a, a ∈ articles →
       ∃ i source entries e,
         sources !! i = Some source ∧ http_get i = Feed entries ∧
         e ∈ entries ∧ _parse_entry e source = Some a) ∧
    ((∀ i, i < length sources → http_get i = TransportError) →
     articles = []).
Proof.
  intros Hdesc.
  destruct (fetch_all_loop_concat sources 0 [] Hdesc)
    as (per & Hrun & Hlen & Heach).
  exists (concat per). split; [done|]. split.
  - intros a (l & Hl & Ha)%elem_of_concat.
    apply list_elem_of_lookup in Hl as [i Hi].
    destruct (lookup_lt_is_Some_2 sources i) as [source Hsrc].
    { rewrite <- Hlen. by eapply lookup_lt_Some. }
    destruct (Heach i source Hsrc) as (l' & Hl' & Hfeed & _).
    simpl in Hfeed. rewrite Hi in Hl'. injection Hl' as <-.
    unfold fetch_feed in Hfeed.
    destruct (source !! "url"); [|done]. destruct (source !! "name"); [|done].
    simpl in Hfeed. injection Hfeed as Hfeed.
    destruct (http_get i) as [|entries] eqn:Hget.
    { subst l. by apply elem_of_nil in Ha. }
    subst l. apply list_elem_of_omap in Ha as (e & He & Hparse).
    by exists i, source, entries, e.
  - intros Hfail. apply concat_nil_Forall, Forall_forall.
    intros l [i Hi]%list_elem_of_lookup.
    destruct (lookup_lt_is_Some_2 sources i) as [source Hsrc].
    { rewrite <- Hlen. by eapply lookup_lt_Some. }
    destruct (Heach i source Hsrc) as (l' & Hl' & _ & Hempty).
    simpl in Hempty. rewrite Hi in Hl'. injection Hl' as <-.
    apply Hempty, Hfail. by eapply lookup_lt_Some.
Qed.

(** X19.  On sources with a url and a name, every article that
    [fetch_all] returns was made by [_parse_entry] from an entry of the
    feed of one of the sources; when every request fails it returns the
    empty list. *)
Theorem fetch_all_returns_parsed_entries (sources : list Source) :
  described sources = true →
  ∃ articles,
    fetch_all sources = Some articles ∧
    (∀ a, a ∈ articles →
       ∃ i source entries e,
         sources !! i = Some source ∧ http_get i = Feed entries ∧
         e ∈ entries ∧ _parse_entry e source = Some a) ∧
    ((∀ i, i < length sources → http_get i = TransportError) →
     articles = []).
Proof. apply fetch_all_parsed. Qed.
End FetchMore.

(* ================================================================== *)
(** * The sources *)
(* ================================================================== *)

Section Sources.
Import RSSSources RSSFetcher.
Context `{Externals}.

Lemma default_sources_described : described _get_default_sources = true.
Proof. apply (bool_decide_unpack _). by vm_compute. Qed.

Lemma default_sources_enabled :
  Forall (λ s, enabled s = true) _get_default_sources.
Proof. repeat constructor. Qed.

(** X20.  When the config file is missing, or holds a text that does
    not decode, the fetcher takes the default sources: they are enabled
    and [fetch_all] returns on them whatever the requests come to. *)
Theorem load_sources_falls_back (file : file_outcome) :
  file = NotFound ∨ (∃ text, file = FileText text ∧ json_loads text = None) →
  _load_sources file = Some _get_default_sources ∧
  Forall (λ s, enabled s = true) _get_default_sources ∧
  ∃ articles, fetch_all _get_default_sources = Some articles.
Proof.
  intros Hfile. split; [|split].
  - destruct Hfile as [-> | (text & -> & Hbad)]; [done|].
    unfold _load_sources. by rewrite Hbad.
  - apply default_sources_enabled.
  - destruct (fetch_all_loop_concat _get_default_sources 0 []
                default_sources_described) as (per & Hrun & _).
    by eexists.
Qed.

(** X21.  From a config that decodes to a dict whose sources are dicts,
    [_load_sources] returns the listed sources in their order, without
    those whose [enabled] is present and false: a source that does not
    say is taken. *)
Theorem load_sources_keeps_enabled text (config : pydict)
    (listed : list Source) :
  json_loads text = Some (VDict config) →
  records_of (default (VList []) (config !! "sources")) = Some listed →
  ∃ sources,
    _load_sources (FileText text) = Some sources ∧
    sources `sublist_of` listed ∧
    ∀ s, s ∈ sources ↔
         s ∈ listed ∧ ∀ v, s !! "enabled" = Some v → py_truthy v = true.
Proof.
  intros Hconfig Hlisted. unfold _load_sources. rewrite Hconfig, Hlisted.
  eexists. split; [done|]. split; [apply sublist_filter|].
  intros s. rewrite list_elem_of_filter. unfold enabled.
  split; intros [Hen Hin]; (split; [|done]) || split; try done.
  - intros v Hv. by rewrite Hv in Hen.
  - destruct (s !! "enabled") as [v|]; [by apply Hin|done].
Qed.

(** X22.  Only the missing file and the text that does not decode are
    caught: a config that decodes to something else than a dict, or that
    lists a source that is not a dict, makes [_load_sources] raise, and
    the default sources are not taken. *)
Theorem load_sources_raises_on_malformed_config text (v : pyval) :
  json_loads text = Some v →
  (∀ config, v ≠ VDict config) ∨
  (∃ config listed x,
     v = VDict config ∧ config !! "sources" = Some (VList listed) ∧
     x ∈ listed ∧ ∀ d, x ≠ VDict d) →
  _load_sources (FileText text) = None.
Proof.
  intros Hloads Hbad. unfold _load_sources. rewrite Hloads.
  destruct Hbad as [Hnot | (config & listed & x & -> & Hsources & Hx & Hnot)].
  - destruct v as [| | | | | |config|]; try done. by destruct (Hnot config).
  - rewrite Hsources. simpl.
    rewrite (mapM_None_2 _ listed); [done|].
    apply Exists_exists. exists x. split; [done|].
    destruct x as [| | | | | |d|]; try done. by destruct (Hnot d).
Qed.
End Sources.

(* ================================================================== *)
(** * The entries of a feed *)
(* ================================================================== *)

Section Entries.
Import FeedEntry RSSFetcher AIProcessor ReportGenerator.
Context `{FeedLibrary}.

Ltac lookup_field :=
  repeat (rewrite lookup_insert_ne by done);
  first [rewrite lookup_insert_eq | rewrite lookup_empty].

(** What [_parse_entry] returns: the dict literal, on a content that
    can be sliced and a source that has a name. *)
Lemma parse_entry_parts (e : entry) (source : Source) (a : Article) :
  _parse_entry e source = Some a →
  ∃ pub_date content long short name authors tags,
    py_slice_to 5000 content = Some long ∧
    py_slice_to 300 content = Some short ∧
    source !! "name" = Some name ∧
    a = <["title" := default (VStr no_title) (entry_get e "title")]>
        (<["link" := default (VStr []) (entry_get e "link")]>
        (<["content" := long]>
        (<["summary" := short]>
        (<["published" := pub_date]>
        (<["source" := name]>
        (<["source_category" := default (VStr other) (source !! "category")]>
        (<["language" := default (VStr en) (source !! "language")]>
        (<["authors" := VList authors]>
        (<["tags" := VList tags]> ∅))))))))).
Proof.
  unfold _parse_entry. intros Hparse.
  apply bind_Some in Hparse as (pub_date & _ & Hparse).
  apply bind_Some in Hparse as (first & _ & Hparse).
  apply bind_Some in Hparse as (value & _ & Hparse).
  cbv zeta in Hparse.
  apply bind_Some in Hparse as (content & _ & Hparse).
  apply bind_Some in Hparse as (authors & _ & Hparse).
  apply bind_Some in Hparse as (long & Hlong & Hparse).
  apply bind_Some in Hparse as (short & Hshort & Hparse).
  apply bind_Some in Hparse as (name & Hname & Hparse).
  apply bind_Some in Hparse as (tags & _ & Hparse).
  injection Hparse as <-.
  by exists pub_date, content, long, short, name, authors, tags.
Qed.

(** X23.  An article made by [_parse_entry] has the ten fields of the
    fetcher and no other.  Its summary and its content are the first
    300 and the first 5000 elements of one text, its tags and its
    authors are lists, its title and its link are those of the entry or
    the defaults, its source is the name of the source; having no
    analysis yet, it counts with score 0 and the fallback category. *)
Theorem parse_entry_article (e : entry) (source : Source) (a : Article) :
  _parse_entry e source = Some a →
  (∀ k, is_Some (a !! k) ↔ k ∈ entry_keys) ∧
  a !! "title" = Some (default (VStr no_title) (entry_get e "title")) ∧
  a !! "link" = Some (default (VStr []) (entry_get e "link")) ∧
  a !! "source" = source !! "name" ∧
  (∃ content, a !! "content" = py_slice_to 5000 content ∧
              a !! "summary" = py_slice_to 300 content) ∧
  (∃ tags authors, a !! "tags" = Some (VList tags) ∧
                   a !! "authors" = Some (VList authors)) ∧
  summarized a = true ∧
  hot_score_of a = Some 0%Z ∧
  category_of a = Some fallback_category.
Proof.
  intros (pub_date & content & long & short & name & authors & tags
          & Hlong & Hshort & Hname & ->)%parse_entry_parts.
  split; [|repeat apply conj].
  - intros k. unfold entry_keys, fetched_keys.
    rewrite !lookup_insert_is_Some', lookup_empty, !elem_of_cons,
      elem_of_nil, is_Some_alt.
    intuition congruence.
  - by lookup_field.
  - by lookup_field.
  - by lookup_field.
  - exists content. split; by lookup_field.
  - exists tags, authors. split; by lookup_field.
  - unfold summarized, has_list_tags. apply andb_true_intro. split.
    + apply bool_decide_eq_true. lookup_field. by eexists.
    + by lookup_field.
  - unfold hot_score_of. by lookup_field.
  - unfold category_of. by lookup_field.
Qed.

(** With a title and a link that are [str] or missing on the entry and
    a name that is a [str] on the source, the article has what the later
    stages read. *)
Lemma parsed_article_typed (e : entry) (source : Source) (a : Article) :
  _parse_entry e source = Some a →
  text_or_missing (entry_get e "title") = true →
  text_or_missing (entry_get e "link") = true →
  text_or_missing (source !! "name") = true →
  fetched a = true ∧ is_Some (article_key a) ∧ is_Some (source_of a).
Proof.
  intros (pub_date & content & long & short & name & authors & tags
          & Hlong & Hshort & Hname & Ha)%parse_entry_parts Ht Hl Hn.
  rewrite Hname in Hn.
  assert (∃ t, a !! "title" = Some (VStr t)) as [t Htitle].
  { subst a. lookup_field.
    destruct (entry_get e "title") as [[]|]; try done; by eexists. }
  assert (∃ l, a !! "link" = Some (VStr l)) as [l Hlink].
  { subst a. lookup_field.
    destruct (entry_get e "link") as [[]|]; try done; by eexists. }
  assert (∃ n, a !! "source" = Some (VStr n)) as [n Hsource].
  { subst a. lookup_field. destruct name; try done. by eexists. }
  assert (a !! "summary" = Some short) as Hsummary.
  { subst a. by lookup_field. }
  assert (a !! "tags" = Some (VList tags)) as Htags.
  { subst a. by lookup_field. }
  clear Ha. split; [|split].
  - unfold fetched, summarized, has_list_tags.
    rewrite Hsummary, Htags, Htitle. done.
  - unfold article_key. rewrite Htitle, Hlink. by eexists.
  - unfold source_of. rewrite Hsource. by eexists.
Qed.
End Entries.

(* ================================================================== *)
(** * The stages together *)
(* ================================================================== *)

Section Allocation.
Import AIProcessor Main.

Lemma alloc_heap (articles : list Article) :
  heap (alloc articles) <$> seq 0 (length articles) = articles.
Proof.
  apply list_eq. intros i. rewrite list_lookup_fmap.
  destruct (decide (i < length articles)) as [Hlt|Hge].
  - rewrite lookup_seq_lt by done. simpl.
    destruct (lookup_lt_is_Some_2 articles i Hlt) as [a Ha].
    unfold loc. by rewrite Ha.
  - rewrite lookup_seq_ge by lia. simpl. symmetry.
    apply lookup_ge_None_2. lia.
Qed.

Lemma alloc_Forall (P : Article → Prop) (articles : list Article) :
  Forall P articles →
  Forall (λ r, P (heap (alloc articles) r)) (seq 0 (length articles)).
Proof.
  intros Hall. apply Forall_forall. intros r [_ Hr]%elem_of_seq. simpl.
  destruct (lookup_lt_is_Some_2 articles r) as [a Ha]; [lia|].
  unfold loc. rewrite Ha. simpl. rewrite Forall_forall in Hall.
  apply Hall. by eapply list_elem_of_lookup_2.
Qed.
End Allocation.

Section FetchedArticles.
Import FeedEntry RSSFetcher AIProcessor ReportGenerator Main.
Context `{FeedLibrary}.
Context (loads : pystr → option pyval) (ints : pystr → option Z)
        (service : nat → http_reply) (feeds : nat → feed_reply entry).

Local Abbreviation E := (externals_of loads ints service feeds).

(** X24.  The fetcher on a feed library feeds the later stages.  When
    the entries hold a title and a link that are [str] or missing, and
    the sources a name that is a [str], the articles of [fetch_all]
    have a summary, list tags, a [str] title, a key and a source:
    [deduplicate] returns on them, and [process_all] returns on what
    [deduplicate] keeps, with or without a key and whatever the
    classification service answers. *)
Theorem fetched_articles_suit_the_pipeline (sources : list Source) :
  described sources = true →
  Forall (λ s : Source, text_or_missing (s !! "name") = true) sources →
  (∀ e, text_or_missing (entry_get e "title") = true ∧
        text_or_missing (entry_get e "link") = true) →
  ∃ articles unique,
    @fetch_all E sources = Some articles ∧
    Forall (λ a, fetched a = true) articles ∧
    sourced articles = true ∧
    deduplicate articles = Some unique ∧
    ∀ self, ∃ w',
      @process_all E self (seq 0 (length unique)) (alloc unique)
      = Some (seq 0 (length unique), w').
Proof.
  intros Hdesc Hnames Hentries.
  destruct (@fetch_all_parsed E sources Hdesc)
    as (articles & Hrun & Hfrom & _).
  assert (Hall : Forall (λ a, fetched a = true ∧ is_Some (article_key a)
                              ∧ is_Some (source_of a)) articles).
  { apply Forall_forall.
    intros a (i & source & entries & e & Hsrc & _ & _ & Hparse)%Hfrom.
    destruct (Hentries e) as [Ht Hl].
    apply (parsed_article_typed e source); try done.
    by apply (Forall_lookup_1 _ _ _ _ Hnames Hsrc). }
  destruct (deduplicate_loop_sublist articles ∅ [])
    as (unique & Hdedup & Hsub & _).
  { eapply Forall_impl; [exact Hall|]. by intros a (_ & ? & _). }
  exists articles, unique. split; [done|]. split; [|split; [|split]].
  - eapply Forall_impl; [exact Hall|]. by intros a (? & _).
  - apply forallb_Forall_true.
    eapply Forall_impl; [exact Hall|]. intros a (_ & _ & ?).
    by apply bool_decide_eq_true.
  - done.
  - intros self.
    destruct (@process_all_spec E self (seq 0 (length unique))
                (alloc unique)) as (w' & Hprocess & _).
    { apply (alloc_Forall (λ a, fetched a = true)).
      apply Forall_forall. intros a Ha. rewrite Forall_forall in Hall.
      by destruct (Hall a (elem_of_sublist _ _ _ Ha Hsub)). }
    by exists w'.
Qed.
End FetchedArticles.

Section MainProgram.
Import RSSSources RSSFetcher AIProcessor ReportGenerator Main.
Context `{Externals} `{Site}.
Implicit Types (articles : list Article).

Lemma fetch_all_nothing (sources : list Source) :
  described sources = true →
  (∀ i, i < length sources →
        http_get i = TransportError ∨ http_get i = Feed []) →
  fetch_all sources = Some [].
Proof.
  intros Hdesc Hnone.
  destruct (fetch_all_parsed sources Hdesc) as (articles & Hrun & Hfrom & _).
  rewrite Hrun. f_equal. destruct articles as [|a l]; [done|].
  destruct (Hfrom a) as (i & source & entries & e & Hsrc & Hget & He & _);
    [by left|].
  destruct (Hnone i) as [Hi|Hi]; [by eapply lookup_lt_Some|..];
    rewrite Hi in Hget; [done|].
  injection Hget as <-. by apply elem_of_nil in He.
Qed.

(** X25.  When every request fails or brings a feed without entries,
    [main] returns after the fetch: nothing is classified and no report
    is made, and this is not an error. *)
Theorem main_stops_when_nothing_is_fetched (file : file_outcome)
    (env_key : option pystr) (sources : list Source) :
  _load_sources file = Some sources →
  described sources = true →
  (∀ i, i < length sources →
        http_get i = TransportError ∨ http_get i = Feed []) →
  main file env_key = Some NothingFetched.
Proof.
  intros Hload Hdesc Hnone. unfold main. rewrite Hload. simpl.
  by rewrite fetch_all_nothing.
Qed.

Lemma with_default_fields (a : Article) :
  summarized a = true →
  with_default a !! "hot_score" = Some (VInt 50) ∧
  with_default a !! "category" = Some (VStr fallback_category) ∧
  with_default a !! "source" = a !! "source".
Proof.
  intros Hsum.
  destruct (with_default_again a Hsum) as (an & Hdef & -> & _ & _).
  destruct (summarized_parts _ Hsum) as [[s Hs] Ht].
  rewrite (default_analysis_fields a s Hs Ht) in Hdef.
  injection Hdef as <-. split; [|split].
  - by apply lookup_union_Some_l.
  - by apply lookup_union_Some_l.
  - by apply lookup_union_r.
Qed.

Lemma filter_all {X} (P : X → Prop) `{∀ x, Decision (P x)} (l : list X) :
  Forall P l → filter P l = l.
Proof.
  induction 1 as [|x l Hx _ IH]; [done|].
  rewrite filter_cons, decide_True by done. by rewrite IH.
Qed.

Lemma filter_none {X} (P : X → Prop) `{∀ x, Decision (P x)} (l : list X) :
  Forall (λ x, ¬ P x) l → filter P l = [].
Proof.
  induction 1 as [|x l Hx _ IH]; [done|].
  by rewrite filter_cons, decide_False.
Qed.

(** A list of pairs is known by its first components and by what goes
    with each of them. *)
Lemma pairs_by_first {K V} (f : K → V) (l : list (K * V)) :
  (∀ k v, (k, v) ∈ l → v = f k) → l = (λ k, (k, f k)) <$> l.*1.
Proof.
  induction l as [|[k v] l IH]; intros Hall; [done|].
  rewrite !fmap_cons. simpl. f_equal.
  - f_equal. apply Hall. by left.
  - apply IH. intros k' v' Hin. apply Hall. by right.
Qed.

Lemma report_counts articles r :
  generate_report articles = Some r →
  total_categories r = count_categories (categories r) ∧
  total_articles r = length articles.
Proof.
  unfold generate_report. intros Hrun.
  apply bind_Some in Hrun as (grouped & _ & Hrun).
  apply bind_Some in Hrun as (sorted & _ & Hrun).
  apply bind_Some in Hrun as (avg & _ & Hrun).
  apply bind_Some in Hrun as (sources & _ & Hrun).
  by injection Hrun as <-.
Qed.

Lemma count_fallback_buckets articles :
  articles ≠ [] → count_categories (fallback_buckets articles) = 1.
Proof. destruct articles as [|a l]; [done|]. intros _. by vm_compute. Qed.

Lemma sum_of_equal_scores (z : Z) articles :
  Forall (λ a, field_score a = z) articles →
  sum_of_scores articles = (z * Z.of_nat (length articles))%Z.
Proof.
  unfold sum_of_scores.
  induction 1 as [|a l Ha _ IH]; [simpl; lia|].
  rewrite fmap_cons. cbn [foldr length]. rewrite Ha, IH. lia.
Qed.

(** The report of articles that all hold the default analysis. *)
Lemma report_of_defaults articles :
  articles ≠ [] →
  Forall (λ a, a !! "hot_score" = Some (VInt 50) ∧
               a !! "category" = Some (VStr fallback_category) ∧
               text_or_missing (a !! "source") = true) articles →
  ∃ r,
    sort_by_hot_score articles true = Some articles ∧
    generate_report articles = Some r ∧
    categories r = fallback_buckets articles ∧
    total_articles r = length articles ∧
    avg_hot_score r = VFloat (float_of_int 50) ∧
    total_categories r = 1.
Proof.
  intros Hne Hall.
  assert (Hscore : ∀ a, a ∈ articles → score a = 50%Z).
  { intros a Ha. rewrite Forall_forall in Hall.
    destruct (Hall a Ha) as (Hs & _). unfold score, hot_score_of.
    by rewrite Hs. }
  assert (Hcat : Forall (λ a, category_of a = Some fallback_category)
                        articles).
  { eapply Forall_impl; [exact Hall|]. intros a (_ & Hc & _).
    unfold category_of. by rewrite Hc. }
  assert (Hscored : scored articles = true).
  { apply forallb_Forall_true. eapply Forall_impl; [exact Hall|].
    intros a (Hs & _). apply bool_decide_eq_true. unfold hot_score_of.
    rewrite Hs. by eexists. }
  assert (Hrep : reportable articles = true).
  { unfold reportable. rewrite Hscored.
    apply andb_true_intro. split; [apply andb_true_intro; split; [|done]|].
    - apply forallb_Forall_true. eapply Forall_impl; [exact Hcat|].
      intros a Ha. apply bool_decide_eq_true. rewrite Ha. by eexists.
    - apply forallb_Forall_true. eapply Forall_impl; [exact Hall|].
      intros a (_ & _ & Hs). apply bool_decide_eq_true.
      rewrite (source_of_field a Hs). by eexists. }
  assert (Hquot : py_true_divide (sum_of_scores articles)
                                 (Z.of_nat (length articles))
                  = Some (float_of_int 50)).
  { rewrite (sum_of_equal_scores 50).
    - apply py_true_divide_exact; [|done]. destruct articles; [done|].
      simpl length. lia.
    - apply Forall_forall. intros a Ha. rewrite <- score_field. by apply Hscore. }
  assert (Hfits : mean_fits articles = true).
  { unfold mean_fits. destruct articles; [done|].
    apply bool_decide_eq_true. rewrite Hquot. by eexists. }
  assert (Hsorted : ∀ l, l `sublist_of` articles →
            sort_by_hot_score l true = Some l).
  { intros l Hsub. apply sort_by_hot_score_sorted_id.
    - apply forallb_Forall_true. apply Forall_forall. intros a Ha.
      apply forallb_Forall_true in Hscored. rewrite Forall_forall in Hscored.
      apply Hscored. by eapply elem_of_sublist.
    - assert (Forall (λ a, score a = 50%Z) l) as Hl.
      { apply Forall_forall. intros a Ha. apply Hscore.
        by eapply elem_of_sublist. }
      clear -Hl. induction Hl as [|a l Ha Hl IH]; constructor; [done|].
      eapply Forall_impl; [exact Hl|]. simpl. intros b Hb. lia. }
  destruct (report_bucket_equations articles Hrep Hfits)
    as (r & grouped & Hrun & Hgroup & Hkeys & Hbuckets).
  destruct (report_by_accessors articles Hrep Hfits)
    as (r' & _ & Hrun' & Havg & Htotal & _).
  rewrite Hrun in Hrun'. injection Hrun' as <-.
  destruct (group_loop_keys _ _ _ Hgroup) as (extras & Hnames & _ & Hextras).
  assert (Hinit : ((λ cat, (cat, @nil Article)) <$> category_order).*1
                  = category_order).
  { rewrite <- list_fmap_compose. apply list_fmap_id. }
  rewrite Hinit in Hnames, Hextras.
  assert (extras = []) as ->.
  { destruct extras as [|c extras]; [done|].
    destruct (proj1 (Hextras c)) as [(a & Ha & Hc) Hnot]; [by left|].
    rewrite Forall_forall in Hcat. rewrite (Hcat a Ha) in Hc.
    injection Hc as <-. destruct Hnot. unfold category_order.
    apply elem_of_cons. right. apply elem_of_cons. by left. }
  rewrite app_nil_r in Hnames.
  assert (Hcats : categories r = fallback_buckets articles).
  { rewrite (pairs_by_first
               (λ c, if bool_decide (c = fallback_category)
                     then articles else []) (categories r)).
    - unfold fallback_buckets. by rewrite Hkeys, Hnames.
    - intros c b Hin. apply Hbuckets in Hin.
      case_bool_decide as Hc.
      + subst c. rewrite filter_all in Hin by done.
        rewrite Hsorted in Hin by done. by injection Hin.
      + rewrite filter_none in Hin.
        * by injection Hin.
        * eapply Forall_impl; [exact Hcat|]. intros a Ha Ha'.
          rewrite Ha in Ha'. by injection Ha'. }
  exists r. split; [by apply Hsorted|]. split; [done|]. split; [done|].
  split; [done|]. split.
  - rewrite (average_quotient _ Hscored) in Havg.
    destruct articles; [done|]. rewrite Hquot in Havg. by injection Havg.
  - destruct (report_counts _ _ Hrun) as [-> _]. rewrite Hcats.
    by apply count_fallback_buckets.
Qed.

Lemma save_raw_data_dated articles :
  dated articles = true →
  ∃ serializable, save_raw_data articles = dump serializable.
Proof.
  intros Hdated. unfold save_raw_data.
  destruct (mapM _ articles) as [l|] eqn:Hl; [by exists l|].
  apply mapM_None_1, Exists_exists in Hl as (a & Ha & Hbad).
  unfold dated in Hdated. rewrite forallb_forall in Hdated.
  apply list_elem_of_In in Ha. specialize (Hdated a Ha).
  by destruct (a !! "published") as [[]|].
Qed.

(** X26.  Without a key, on fetched articles that hold a [str] title
    and link, a summary, list tags, and a [str] or nothing as their
    source, [main] classifies nothing and reaches the report with the
    articles that [deduplicate] keeps, each with the default analysis
    written on it (score 50, fallback category), in the order of the
    fetch.  The statistics it gives to the template, for the latest
    report and for the archive, are those of the five categories of
    [category_order] of which only the fallback one is filled, with
    all these articles in that order, the average 50.0 and one
    category counted.  What [main] does from there is what the two
    renderings and [save_raw_data] do: it raises when one of them does,
    and it completes when the renderings and the dump succeed on
    articles that hold a datetime or nothing under ['published']. *)
Theorem main_without_key (file : file_outcome) (env_key : option pystr)
    (sources : list Source) articles :
  env_key = None ∨ env_key = Some [] →
  _load_sources file = Some sources →
  fetch_all sources = Some articles →
  articles ≠ [] →
  text_keyed articles = true →
  forallb summarized articles = true →
  forallb (λ a : Article, text_or_missing (a !! "source")) articles = true →
  ∃ unique r,
    deduplicate articles = Some unique ∧
    (∀ a, a ∈ unique →
       with_default a !! "hot_score" = Some (VInt 50) ∧
       with_default a !! "category" = Some (VStr fallback_category) ∧
       ∀ k, k ∉ analysis_keys → with_default a !! k = a !! k) ∧
    categories r = fallback_buckets (with_default <$> unique) ∧
    total_articles r = length unique ∧
    avg_hot_score r = VFloat (float_of_int 50) ∧
    total_categories r = 1 ∧
    main file env_key
    = (_ ← publish 0 r;
       _ ← publish 1 r;
       _ ← save_raw_data (with_default <$> unique);
       Some (Completed r r (with_default <$> unique))) ∧
    (dated articles = true →
     (∀ n r', publish n r' = Some ()) →
     (∀ l, dump l = Some ()) →
     main file env_key = Some (Completed r r (with_default <$> unique))).
Proof.
  intros Hkey Hload Hfetch Hne Hkeyed%text_keyed_keyed%keyed_Forall
         Hsum%forallb_Forall_true Hsrc%forallb_Forall_true.
  destruct (deduplicate_loop_sublist articles ∅ [] Hkeyed)
    as (unique & Hdedup & Hsub & _ & Hmem).
  change (deduplicate articles = Some unique) in Hdedup.
  assert (Hunique : unique ≠ []).
  { destruct articles as [|a l]; [done|].
    apply Forall_cons in Hkeyed as [[k Hk] _].
    assert (Some k ∈ article_key <$> unique) as Hin.
    { apply Hmem. split; [|apply not_elem_of_empty].
      rewrite fmap_cons, Hk. by left. }
    intros ->. by apply elem_of_nil in Hin. }
  assert (Hsum' : Forall (λ a, summarized a = true) unique).
  { apply Forall_forall. intros a Ha. rewrite Forall_forall in Hsum.
    apply Hsum. by eapply elem_of_sublist. }
  set (n := length unique).
  destruct (default_loop_spec (seq 0 n) (alloc unique))
    as (w' & Hloop & _ & Hheap).
  { by apply (alloc_Forall (λ a, summarized a = true)). }
  assert (Hstore : heap w' <$> seq 0 n = with_default <$> unique).
  { rewrite <- (alloc_heap unique) at 1. fold n.
    rewrite <- list_fmap_compose. apply list_fmap_ext.
    intros i r Hr%list_elem_of_lookup_2. simpl.
    by rewrite Hheap, decide_True. }
  destruct (report_of_defaults (with_default <$> unique))
    as (r & Hsort & Hreport & Hcats & Htotal & Havg & Hcount).
  { by destruct unique. }
  { apply Forall_fmap. apply Forall_forall. intros a Ha. simpl.
    rewrite Forall_forall in Hsum'.
    destruct (with_default_fields a (Hsum' a Ha)) as (Hs & Hc & Hsource).
    split; [done|]. split; [done|]. rewrite Hsource.
    rewrite Forall_forall in Hsrc. apply Hsrc.
    by eapply elem_of_sublist. }
  assert (Hmain : main file env_key
                  = (_ ← publish 0 r;
                     _ ← publish 1 r;
                     _ ← save_raw_data (with_default <$> unique);
                     Some (Completed r r (with_default <$> unique)))).
  { unfold main. rewrite Hload. simpl. rewrite Hfetch. simpl.
    destruct articles as [|a l]; [done|].
    rewrite Hdedup. simpl. fold n.
    assert (process_all (init (Some (default [] env_key)) env_key)
              (seq 0 n) (alloc unique) = Some (seq 0 n, w')) as ->.
    { unfold process_all.
      assert (no_api_key (init (Some (default [] env_key)) env_key) = true)
        as -> by (by destruct Hkey as [-> | ->]).
      unfold bind. by rewrite Hloop. }
    simpl. rewrite Hstore, Hsort. simpl. by rewrite Hreport. }
  exists unique, r. split; [done|]. split.
  { intros a Ha. rewrite Forall_forall in Hsum'.
    destruct (with_default_fields a (Hsum' a Ha)) as (Hs & Hc & _).
    split; [done|]. split; [done|].
    by destruct (with_default_evolves a (Hsum' a Ha)) as (? & _). }
  split; [done|]. split; [by rewrite length_fmap in Htotal|].
  split; [done|]. split; [done|]. split; [done|].
  intros Hdated Hpublish Hdump. rewrite Hmain, !Hpublish. simpl.
  destruct (save_raw_data_dated (with_default <$> unique))
    as (l & ->); [|by rewrite Hdump].
  unfold dated in *. rewrite forallb_forall in Hdated.
  apply forallb_forall. intros a' (a & -> & Ha)%list_elem_of_In%list_elem_of_fmap.
  rewrite Forall_forall in Hsum'.
  destruct (with_default_evolves a (Hsum' a Ha)) as (Hkeep & _).
  rewrite Hkeep by (apply (bool_decide_unpack _); by vm_compute).
  apply Hdated, list_elem_of_In. by eapply elem_of_sublist.
Qed.
End MainProgram.

(* ================================================================== *)
(** * The further statements on the samples *)
(* ================================================================== *)

Section OnCases.
Import RSSFetcher AIProcessor ReportGenerator RSSSources FeedEntry Main.
Import Samples Cases.

Lemma deduplicate_keeps_every_key_witness :
  ∃ unique,
    deduplicate fetched_articles = Some unique ∧
    unique `sublist_of` fetched_articles ∧
    ∀ p, p ∈ title_link <$> unique ↔ p ∈ title_link <$> fetched_articles.
Proof.
  apply (deduplicate_keeps_every_key fetched_articles).
  vm_compute. reflexivity.
Defined.

Lemma deduplicate_idempotent_witness :
  (NoDup (title_link <$> fetched_articles) →
   deduplicate fetched_articles = Some fetched_articles) ∧
  ∃ unique, deduplicate fetched_articles = Some unique ∧
            deduplicate unique = Some unique.
Proof.
  apply (deduplicate_idempotent fetched_articles).
  vm_compute. reflexivity.
Defined.

Lemma deduplicate_raises_on_missing_key_witness :
  deduplicate untitled_articles = None.
Proof.
  apply (deduplicate_raises_on_missing_key untitled_articles untitled).
  - apply elem_of_cons. right. apply elem_of_cons. left. reflexivity.
  - left. vm_compute. reflexivity.
Defined.

Lemma filter_commutes_with_sort_witness :
  ∃ sorted kept,
    sort_by_hot_score rated_articles true = Some sorted ∧
    filter_by_hot_score rated_articles 60 = Some kept ∧
    filter_by_hot_score sorted 60 = sort_by_hot_score kept true.
Proof.
  apply (filter_commutes_with_sort rated_articles 60 true).
  vm_compute. reflexivity.
Defined.

Lemma sort_by_hot_score_idempotent_witness :
  (StronglySorted (λ a b, in_order true (score a) (score b)) rated_articles →
   sort_by_hot_score rated_articles true = Some rated_articles) ∧
  ∃ sorted, sort_by_hot_score rated_articles true = Some sorted ∧
            sort_by_hot_score sorted true = Some sorted.
Proof.
  apply (sort_by_hot_score_idempotent rated_articles true).
  vm_compute. reflexivity.
Defined.

Lemma sort_by_hot_score_ascending_witness :
  ∃ sorted,
    sort_by_hot_score rated_articles false = Some sorted ∧
    sorted ≡ₚ rated_articles ∧
    StronglySorted (λ a b, (field_score a ≤ field_score b)%Z) sorted ∧
    ∀ z, filter (λ a, field_score a = z) sorted
         = filter (λ a, field_score a = z) rated_articles.
Proof.
  apply (sort_by_hot_score_ascending rated_articles).
  vm_compute. reflexivity.
Defined.

Lemma filter_by_hot_score_thresholds_witness :
  ∃ kept_low kept_high,
    filter_by_hot_score rated_articles 50 = Some kept_low ∧
    filter_by_hot_score rated_articles 60 = Some kept_high ∧
    kept_high `sublist_of` kept_low ∧
    kept_low `sublist_of` rated_articles ∧
    filter_by_hot_score kept_low 60 = Some kept_high.
Proof.
  apply (filter_by_hot_score_thresholds rated_articles 50 60).
  - vm_compute. reflexivity.
  - lia.
Defined.

Lemma report_of_sorted_articles_witness :
  ∃ r, generate_report ranked_articles = Some r ∧
       ∀ c b, (c, b) ∈ categories r →
              b = filter (λ a, field_category a = c) ranked_articles.
Proof.
  apply (report_of_sorted_articles ranked_articles).
  - vm_compute. reflexivity.
  - repeat constructor; by vm_compute.
Defined.

Lemma report_buckets_only_appended_witness :
  ∃ r_pre r,
    generate_report ranked_articles = Some r_pre ∧
    generate_report (ranked_articles ++ rated_articles) = Some r ∧
    (categories r_pre).*1 `prefix_of` (categories r).*1.
Proof.
  apply (report_buckets_only_appended ranked_articles rated_articles);
    vm_compute; reflexivity.
Defined.

Lemma report_statistics_bounds_witness :
  ∃ r, generate_report rated_articles = Some r ∧
       total_articles r = length rated_articles ∧
       1 ≤ total_sources r ≤ total_articles r ∧
       1 ≤ total_categories r ≤ total_articles r.
Proof.
  apply (report_statistics_bounds rated_articles).
  - vm_compute. reflexivity.
  - discriminate.
Defined.

Lemma analyze_article_falls_back_witness :
  (∃ an w', @_analyze_article externals Samples.with_key article_a
              store_after_one = Some (an, w') ∧
            _get_default_analysis article_a = Some an) ∧
  (∀ v, (∀ s, v ≠ VStr s) → @parse_reply externals v article_a = None) ∧
  (∀ s, decode (clean_reply (strip s)) = None →
        @parse_reply externals (VStr s) article_a = None) ∧
  (∀ s result, decode (clean_reply (strip s)) = Some result →
               (∀ d, result ≠ VDict d) →
               @parse_reply externals (VStr s) article_a = None).
Proof.
  apply (@analyze_article_falls_back externals Samples.with_key article_a
           store_after_one).
  - vm_compute. reflexivity.
  - left. reflexivity.
Defined.


Lemma process_all_without_key_idempotent_witness :
  ∃ w1 w2,
    @process_all externals without_key references store
      = Some (references, w1) ∧
    @process_all externals without_key references w1
      = Some (references, w2) ∧
    calls w2 = calls store ∧
    ∀ r, heap w2 r = heap w1 r.
Proof.
  apply (@process_all_without_key_idempotent externals without_key
           references store).
  - vm_compute. reflexivity.
  - vm_compute. reflexivity.
Defined.

Lemma process_all_raises_without_summary_witness :
  @process_all externals Samples.with_key [0; 1; 2] short_store = None.
Proof.
  apply (@process_all_raises_without_summary externals Samples.with_key
           [0; 1; 2] short_store 1).
  - apply elem_of_cons. right. apply elem_of_cons. left. reflexivity.
  - vm_compute. reflexivity.
Defined.

Lemma classified_articles_can_be_sorted_witness :
  ∃ w' sorted,
    @process_all externals Samples.with_key references store
      = Some (references, w') ∧
    sort_by_hot_score (heap w' <$> references) true = Some sorted ∧
    sorted ≡ₚ heap w' <$> references ∧
    (∀ t, (t ≤ 0)%Z →
          filter_by_hot_score (heap w' <$> references) t
          = Some (heap w' <$> references)) ∧
    (∀ t, (100 < t)%Z →
          filter_by_hot_score (heap w' <$> references) t = Some []).
Proof.
  apply (@classified_articles_can_be_sorted externals Samples.with_key
           references store).
  vm_compute. reflexivity.
Defined.

Lemma clean_reply_without_fence_witness :
  clean_reply (strip ([32%N] ++ reply_scored ++ [10%N]))
  = strip ([32%N] ++ reply_scored ++ [10%N]).
Proof.
  apply (clean_reply_without_fence ([32%N] ++ reply_scored ++ [10%N])).
  - vm_compute. reflexivity.
  - vm_compute. reflexivity.
Defined.

Lemma one_sided_fence_is_removed_witness :
  clean_reply (strip ([32%N] ++ fence_json ++ [10%N] ++ reply_scored
                      ++ [10%N])) = reply_scored ∧
  clean_reply (strip ([32%N] ++ reply_scored ++ [10%N] ++ fence
                      ++ [10%N])) = reply_scored.
Proof.
  apply (one_sided_fence_is_removed fence_json reply_scored
           [32%N] [10%N] [10%N]).
  - left. reflexivity.
  - vm_compute. reflexivity.
  - vm_compute. reflexivity.
Defined.

Lemma fetch_all_raises_on_undescribed_source_witness :
  @fetch_all externals sources_without_url = None.
Proof.
  apply (@fetch_all_raises_on_undescribed_source externals
           sources_without_url (delete "url" (source "two"))).
  - apply elem_of_cons. right. apply elem_of_cons. left. reflexivity.
  - left. vm_compute. reflexivity.
Defined.

Lemma fetch_all_returns_parsed_entries_witness :
  ∃ articles,
    @fetch_all externals sources = Some articles ∧
    (∀ a, a ∈ articles →
       ∃ i source entries e,
         sources !! i = Some source ∧ feeds i = Feed entries ∧
         e ∈ entries ∧ entry_article e source = Some a) ∧
    ((∀ i, i < length sources → feeds i = TransportError) →
     articles = []).
Proof.
  apply (@fetch_all_returns_parsed_entries externals sources).
  vm_compute. reflexivity.
Defined.

Lemma load_sources_falls_back_witness :
  @_load_sources feed_externals NotFound = Some _get_default_sources ∧
  Forall (λ s, enabled s = true) _get_default_sources ∧
  ∃ articles, @fetch_all feed_externals _get_default_sources = Some articles.
Proof.
  apply (@load_sources_falls_back feed_externals NotFound).
  left. reflexivity.
Defined.

Lemma load_sources_keeps_enabled_witness :
  ∃ sources,
    @_load_sources feed_externals (FileText config_text) = Some sources ∧
    sources `sublist_of` listed_sources ∧
    ∀ s, s ∈ sources ↔
         s ∈ listed_sources ∧
         ∀ v, s !! "enabled" = Some v → py_truthy v = true.
Proof.
  apply (@load_sources_keeps_enabled feed_externals config_text config
           listed_sources).
  - vm_compute. reflexivity.
  - vm_compute. reflexivity.
Defined.

Lemma load_sources_raises_on_malformed_config_witness :
  @_load_sources feed_externals (FileText list_text) = None.
Proof.
  apply (@load_sources_raises_on_malformed_config feed_externals list_text
           (VList [])).
  - vm_compute. reflexivity.
  - left. discriminate.
Defined.

Lemma parse_entry_article_witness :
  ∃ a,
    @_parse_entry library item_two (source "one") = Some a ∧
    (∀ k, is_Some (a !! k) ↔ k ∈ entry_keys) ∧
    a !! "title" = Some (default (VStr no_title) (item_get item_two "title")) ∧
    a !! "link" = Some (default (VStr []) (item_get item_two "link")) ∧
    a !! "source" = source "one" !! "name" ∧
    (∃ content, a !! "content" = py_slice_to 5000 content ∧
                a !! "summary" = py_slice_to 300 content) ∧
    (∃ tags authors, a !! "tags" = Some (VList tags) ∧
                     a !! "authors" = Some (VList authors)) ∧
    summarized a = true ∧
    hot_score_of a = Some 0%Z ∧
    category_of a = Some fallback_category.
Proof.
  eexists. split; [vm_compute; reflexivity|].
  apply (@parse_entry_article library item_two (source "one")).
  vm_compute. reflexivity.
Defined.

Lemma fetched_articles_suit_the_pipeline_witness :
  ∃ articles unique,
    @fetch_all feed_externals loaded_sources = Some articles ∧
    Forall (λ a, fetched a = true) articles ∧
    sourced articles = true ∧
    deduplicate articles = Some unique ∧
    ∀ self, ∃ w',
      @process_all feed_externals self (seq 0 (length unique)) (alloc unique)
      = Some (seq 0 (length unique), w').
Proof.
  apply (@fetched_articles_suit_the_pipeline library loads decimal service
           item_feeds loaded_sources).
  - vm_compute. reflexivity.
  - repeat constructor.
  - intros [[t|] l s tags]; split; reflexivity.
Defined.

Lemma main_stops_when_nothing_is_fetched_witness :
  @main unreachable site NotFound None = Some NothingFetched.
Proof.
  apply (@main_stops_when_nothing_is_fetched unreachable site NotFound None
           _get_default_sources).
  - reflexivity.
  - vm_compute. reflexivity.
  - intros i _. left. reflexivity.
Defined.

Lemma main_without_key_witness :
  ∃ unique r,
    deduplicate item_articles = Some unique ∧
    (∀ a, a ∈ unique →
       with_default a !! "hot_score" = Some (VInt 50) ∧
       with_default a !! "category" = Some (VStr fallback_category) ∧
       ∀ k, k ∉ analysis_keys → with_default a !! k = a !! k) ∧
    categories r = fallback_buckets (with_default <$> unique) ∧
    total_articles r = length unique ∧
    avg_hot_score r = VFloat (float_of_int 50) ∧
    total_categories r = 1 ∧
    @main feed_externals site (FileText config_text) None
    = (_ ← @publish site 0 r;
       _ ← @publish site 1 r;
       _ ← @save_raw_data site (with_default <$> unique);
       Some (Completed r r (with_default <$> unique))) ∧
    (dated item_articles = true →
     (∀ n r', @publish site n r' = Some ()) →
     (∀ l, @dump site l = Some ()) →
     @main feed_externals site (FileText config_text) None
     = Some (Completed r r (with_default <$> unique))).
Proof.
  apply (@main_without_key feed_externals site (FileText config_text) None
           loaded_sources item_articles).
  - left. reflexivity.
  - vm_compute. reflexivity.
  - vm_compute. reflexivity.
  - vm_compute. discriminate.
  - vm_compute. reflexivity.
  - vm_compute. reflexivity.
  - vm_compute. reflexivity.
Defined.

(** The program on the sample feeds: three entries are fetched, two
    articles are left, both in the fallback category. *)
Example main_sample :
  (λ o, match o with
        | Completed latest _ articles =>
            (total_articles latest, total_sources latest,
             avg_hot_score latest,
             (λ b, length b.2) <$> categories latest,
             (λ a : Article, a !! "title") <$> articles)
        | NothingFetched => (0, 0, VNone, [], [])
        end)
    <$> @main feed_externals site (FileText config_text) None
  = Some (2, 1, VFloat (S754_finite false 7036874417766400 (-47)),
          [0; 2; 0; 0; 0],
          [Some (VStr (pystr_of "first")); Some (VStr no_title)]).
Proof. vm_compute. reflexivity. Qed.
(** The division of two [int]s on samples: 151/3 gives
    50.333333333333336; 150/3 gives 50.0; a tie goes to the even
    mantissa; a quotient of 2^1024 is too large for a float. *)
Example true_division_samples :
  py_true_divide 151 3 = Some (S754_finite false 7083786913884843 (-47)) ∧
  py_true_divide 150 3 = Some (float_of_int 50) ∧
  py_true_divide (-7) 2 = Some (S754_finite true 7881299347898368 (-51)) ∧
  py_true_divide (2 ^ 53 + 1) 1
    = Some (S754_finite false 4503599627370496 1) ∧
  py_true_divide (2 ^ 53 + 3) 1
    = Some (S754_finite false 4503599627370498 1) ∧
  py_true_divide (2 ^ 1024) 1 = None ∧
  py_true_divide 0 7 = Some (S754_zero false) ∧
  py_true_divide 7 0 = None.
Proof. vm_compute. repeat split. Qed.

(** The average of the report on samples, and a score that makes the
    report raise. *)
Example average_sample :
  avg_hot_score <$> generate_report uneven_articles
  = Some (VFloat (S754_finite false 7083786913884843 (-47))) ∧
  avg_hot_score <$> generate_report [] = Some (VInt 0) ∧
  generate_report [<["hot_score" := VInt (2 ^ 1024)]> article_a] = None.
Proof. vm_compute. repeat split. Qed.
End OnCases.
